(** * central-dump: the Control coordinator

    A shallow embedding of the control service's [app.ts] (the version
    with audit logging): the agent registry, the Capture Store under [/data],
    the merge / decode / filter pipeline, the filter compiler
    [buildWiresharkFilterFromConfig] and the HTTP handlers, followed by the
    properties of the coordinator's design document.

    Conventions of the embedding.
    - A JavaScript string is a [string]; a character stands for one UTF-16
      code unit below 256 (the Latin-1 range), on which [trim] and
      [toLowerCase] are those of ECMAScript.
    - JSON values are [JsVal]; a number is an integer of magnitude at most
      2^53, which a double holds exactly and a template literal prints in
      full.
    - The Capture Store is a finite map from absolute paths of regular
      files to their contents; directories are implicit and always exist.
    - Handlers run in a state-and-exception monad over the coordinator's
      state; external programs, HTTP calls to agents and [JSON.parse] are
      fields of an environment record. *)

From Stdlib Require Import Ascii String ZArith Permutation.
From stdpp Require Import gmap strings list pretty.

Set Warnings "-register-all,-clear-no-such-hyp".

(** ** JavaScript strings *)

Module Js.

(** ECMAScript WhiteSpace and LineTerminator code units below 256:
    TAB, LF, VT, FF, CR, SP and NBSP. *)
Definition isWhiteSpace (c : ascii) : bool :=
  let n := N_of_ascii c in
  ((9 <=? n) && (n <=? 13) || (n =? 32) || (n =? 160))%N.

(** [String.prototype.toLowerCase] on one code unit below 256: A-Z and
    the Latin-1 capitals U+00C0..U+00DE except the multiplication sign. *)
Definition toLowerChar (c : ascii) : ascii :=
  let n := N_of_ascii c in
  if ((65 <=? n) && (n <=? 90)
      || (192 <=? n) && (n <=? 222) && negb (n =? 215))%N
  then ascii_of_N (n + 32) else c.

Fixpoint toLowerCase (s : string) : string :=
  match s with
  | EmptyString => EmptyString
  | String c r => String (toLowerChar c) (toLowerCase r)
  end.

Fixpoint trimStart (s : string) : string :=
  match s with
  | EmptyString => EmptyString
  | String c r => if isWhiteSpace c then trimStart r else s
  end.

Fixpoint trimEnd (s : string) : string :=
  match s with
  | EmptyString => EmptyString
  | String c r =>
      match trimEnd r with
      | EmptyString => if isWhiteSpace c then EmptyString else String c EmptyString
      | r' => String c r'
      end
  end.

Definition trim (s : string) : string := trimEnd (trimStart s).

(** [s.split(sep)] for a one-character separator: never the empty list. *)
Fixpoint split (sep : ascii) (s : string) : list string :=
  match s with
  | EmptyString => [EmptyString]
  | String c r =>
      if Ascii.eqb c sep then EmptyString :: split sep r
      else match split sep r with
           | h :: t => String c h :: t
           | [] => [String c EmptyString]
           end
  end.

(** [l.join(sep)] on an array of strings. *)
Fixpoint join (sep : string) (l : list string) : string :=
  match l with
  | [] => ""
  | [x] => x
  | x :: r => x +:+ sep +:+ join sep r
  end.

(** Truthiness of a string, as in [filter(Boolean)] and [if (s)]. *)
Definition Boolean (s : string) : bool :=
  match s with EmptyString => false | String _ _ => true end.

Definition endsWith (s suffix : string) : bool :=
  let n := String.length s in
  let m := String.length suffix in
  (m <=? n)%nat && String.eqb (substring (n - m) m s) suffix.

Definition startsWith (s pre : string) : bool := String.prefix pre s.

(** The one-character string holding a double quote (code unit 34). *)
Definition dquote : string := String (ascii_of_nat 34) EmptyString.

End Js.

(** ** JSON values *)

Inductive JsVal : Type :=
| JNull
| JBool (b : bool)
| JNum (z : Z)
| JStr (s : string)
| JArr (items : list JsVal)
| JObj (props : list (string * JsVal)).

(** [if (v)] *)
Definition truthy (v : JsVal) : bool :=
  match v with
  | JNull => false
  | JBool b => b
  | JNum z => negb (z =? 0)%Z
  | JStr s => Js.Boolean s
  | JArr _ | JObj _ => true
  end.

Fixpoint assoc (k : string) (props : list (string * JsVal)) : option JsVal :=
  match props with
  | [] => None
  | (k', v) :: r => if String.eqb k k' then Some v else assoc k r
  end.

(** [config[field]] for a field name that no prototype defines, on a
    [config] other than [null]: [None] is [undefined].  The handlers test
    [if (config)] before they read a property. *)
Definition getField (config : JsVal) (field : string) : option JsVal :=
  match config with
  | JObj props => assoc field props
  | _ => None
  end.

(** ** Exceptions *)

Inductive JsError : Type :=
| TypeError (message : string)
| SyntaxError (message : string)
| Error (message : string).

Definition message (e : JsError) : string :=
  match e with TypeError m | SyntaxError m | Error m => m end.

Inductive Result (A : Type) : Type :=
| Ok (a : A)
| Throw (e : JsError).
Arguments Ok {A} a.
Arguments Throw {A} e.

#[global] Instance Result_ret : MRet Result := fun _ a => Ok a.
#[global] Instance Result_bind : MBind Result := fun _ _ f m =>
  match m with Ok a => f a | Throw e => Throw e end.

(** The text a template literal inserts for [${v}], or the [TypeError]
    it throws.  An object of JSON data prints as [[object Object]] unless it
    has a property of its own called [toString]: that property is data, not
    a function, [valueOf] gives back the object, and the conversion to a
    primitive fails.  An array prints its elements separated by commas,
    [null] as nothing. *)
Fixpoint toString (v : JsVal) : Result string :=
  match v with
  | JNull => Ok "null"
  | JBool true => Ok "true"
  | JBool false => Ok "false"
  | JNum z => Ok (pretty z)
  | JStr s => Ok s
  | JArr items =>
      texts ← (fix each (l : list JsVal) : Result (list string) :=
                 match l with
                 | [] => Ok []
                 | x :: rest =>
                     text ← match x with JNull => Ok "" | _ => toString x end;
                     texts ← each rest;
                     Ok (text :: texts)
                 end) items;
      Ok (Js.join "," texts)
  | JObj props =>
      match assoc "toString" props with
      | Some _ => Throw (TypeError "Cannot convert object to primitive value")
      | None => Ok "[object Object]"
      end
  end.

(** ** The filter compiler *)

(** The array [values] of [multiFilter]:
    [raw.split(',').map(v => v.trim()).filter(Boolean)]. *)
Definition survivingValues (raw : string) : list string :=
  List.filter Js.Boolean (map Js.trim (Js.split "," raw)).

Section Compiler.

Variable config : JsVal.

(** The helper closure of [buildWiresharkFilterFromConfig]. *)
Definition multiFilter (field : string) (cb : string -> string)
  : Result (option string) :=
  match getField config field with
  | None => Ok None
  | Some v =>
      if negb (truthy v) then Ok None
      else match v with
           | JStr s =>
               let values := survivingValues s in
               if (length values =? 0)%nat then Ok None
               else Ok (Some (Js.join " or " (map cb values)))
           | _ => Throw (TypeError "config[field].split is not a function")
           end
  end.

(** [if (f) filters.push(`(${f})`)] *)
Definition pushGroup (filters : list string) (f : option string) : list string :=
  match f with
  | Some s => if Js.Boolean s then filters ++ ["(" +:+ s +:+ ")"] else filters
  | None => filters
  end.

(** [if (config.packetSizeMin) filters.push(`frame.len >= ${...}`)] *)
Definition pushBound (filters : list string) (field op : string)
  : Result (list string) :=
  match getField config field with
  | Some v =>
      if truthy v then
        text ← toString v;
        Ok (filters ++ ["frame.len " +:+ op +:+ " " +:+ text])
      else Ok filters
  | None => Ok filters
  end.

(** The [timeRange] block: [const [start, end] = ....split('/')]. *)
Definition pushTimeRange (filters : list string) : Result (list string) :=
  match getField config "timeRange" with
  | None => Ok filters
  | Some v =>
      if negb (truthy v) then Ok filters
      else match v with
           | JStr s =>
               let parts := Js.split "/" s in
               let filters :=
                 match parts !! 0%nat with
                 | Some start =>
                     if Js.Boolean start
                     then filters ++ ["frame.time >= " +:+ Js.dquote +:+ start +:+ Js.dquote]
                     else filters
                 | None => filters
                 end in
               let filters :=
                 match parts !! 1%nat with
                 | Some end_ =>
                     if Js.Boolean end_
                     then filters ++ ["frame.time <= " +:+ Js.dquote +:+ end_ +:+ Js.dquote]
                     else filters
                 | None => filters
                 end in
               Ok filters
           | _ => Throw (TypeError "config.timeRange.split is not a function")
           end
  end.

Definition buildWiresharkFilterFromConfig : Result string :=
  let filters : list string := [] in
  ipFilter ← multiFilter "ip" (fun ip => "ip.addr == " +:+ ip);
  let filters := pushGroup filters ipFilter in
  portFilter ← multiFilter "port" (fun port =>
    "(tcp.port == " +:+ port +:+ " or udp.port == " +:+ port +:+ ")");
  let filters := pushGroup filters portFilter in
  protocolFilter ← multiFilter "protocol" (fun proto => Js.toLowerCase proto);
  let filters := pushGroup filters protocolFilter in
  srcIpFilter ← multiFilter "sourceIp" (fun ip => "ip.src == " +:+ ip);
  let filters := pushGroup filters srcIpFilter in
  dstIpFilter ← multiFilter "destinationIp" (fun ip => "ip.dst == " +:+ ip);
  let filters := pushGroup filters dstIpFilter in
  srcPortFilter ← multiFilter "sourcePort" (fun port =>
    "(tcp.srcport == " +:+ port +:+ " or udp.srcport == " +:+ port +:+ ")");
  let filters := pushGroup filters srcPortFilter in
  dstPortFilter ← multiFilter "destinationPort" (fun port =>
    "(tcp.dstport == " +:+ port +:+ " or udp.dstport == " +:+ port +:+ ")");
  let filters := pushGroup filters dstPortFilter in
  filters ← pushBound filters "packetSizeMin" ">=";
  filters ← pushBound filters "packetSizeMax" "<=";
  filters ← pushTimeRange filters;
  tcpFlagsFilter ← multiFilter "tcpFlags" (fun flag =>
    "tcp.flags." +:+ Js.toLowerCase flag +:+ " == 1");
  let filters := pushGroup filters tcpFlagsFilter in
  payloadContentFilter ← multiFilter "payloadContent" (fun content =>
    "frame contains " +:+ Js.dquote +:+ content +:+ Js.dquote);
  let filters := pushGroup filters payloadContentFilter in
  macFilter ← multiFilter "macAddress" (fun mac => "eth.addr == " +:+ mac);
  let filters := pushGroup filters macFilter in
  mret (Js.join " and " filters).

End Compiler.

(** ** The compiler, field by field

    The pushes of [buildWiresharkFilterFromConfig] regrouped by field: a
    table of the recognised fields in the order of the pushes, and what each
    field pushes.  The proofs about the compiler go through this form. *)

Inductive FieldKind : Type :=
| ValueList (pred : string -> string)
| Bound (op : string)
| TimeRange.

Definition fieldTable : list (string * FieldKind) :=
  [ ("ip", ValueList (fun ip => "ip.addr == " +:+ ip));
    ("port", ValueList (fun port =>
       "(tcp.port == " +:+ port +:+ " or udp.port == " +:+ port +:+ ")"));
    ("protocol", ValueList (fun proto => Js.toLowerCase proto));
    ("sourceIp", ValueList (fun ip => "ip.src == " +:+ ip));
    ("destinationIp", ValueList (fun ip => "ip.dst == " +:+ ip));
    ("sourcePort", ValueList (fun port =>
       "(tcp.srcport == " +:+ port +:+ " or udp.srcport == " +:+ port +:+ ")"));
    ("destinationPort", ValueList (fun port =>
       "(tcp.dstport == " +:+ port +:+ " or udp.dstport == " +:+ port +:+ ")"));
    ("packetSizeMin", Bound ">=");
    ("packetSizeMax", Bound "<=");
    ("timeRange", TimeRange);
    ("tcpFlags", ValueList (fun flag =>
       "tcp.flags." +:+ Js.toLowerCase flag +:+ " == 1"));
    ("payloadContent", ValueList (fun content =>
       "frame contains " +:+ Js.dquote +:+ content +:+ Js.dquote));
    ("macAddress", ValueList (fun mac => "eth.addr == " +:+ mac)) ].

(** The names of the recognised fields, in the canonical clause order. *)
Definition canonicalOrder : list string := map fst fieldTable.

(** The fields that hold comma-separated values. *)
Definition valueListFields : list string :=
  omap (fun p => match p.2 with ValueList _ => Some p.1 | _ => None end) fieldTable.

(** One parenthesised sub-expression: the predicates of the values, ORed. *)
Definition orGroup (pred : string -> string) (values : list string) : list string :=
  match values with
  | [] => []
  | _ => ["(" +:+ Js.join " or " (map pred values) +:+ ")"]
  end.

Definition timeClauses (raw : string) : list string :=
  let parts := Js.split "/" raw in
  match parts !! 0%nat with
  | Some start =>
      if Js.Boolean start then ["frame.time >= " +:+ Js.dquote +:+ start +:+ Js.dquote]
      else []
  | None => []
  end ++
  match parts !! 1%nat with
  | Some end_ =>
      if Js.Boolean end_ then ["frame.time <= " +:+ Js.dquote +:+ end_ +:+ Js.dquote]
      else []
  | None => []
  end.

(** What one field contributes: no clause when it is absent or falsy, a
    [TypeError] when a field that is split holds a truthy non-string or a
    bound holds a value that cannot be printed. *)
Definition fieldClauses (config : JsVal) (field : string) (kind : FieldKind)
  : Result (list string) :=
  match getField config field with
  | None => Ok []
  | Some v =>
      if negb (truthy v) then Ok []
      else match kind, v with
           | ValueList pred, JStr raw => Ok (orGroup pred (survivingValues raw))
           | ValueList _, _ => Throw (TypeError "config[field].split is not a function")
           | Bound op, _ =>
               text ← toString v; Ok ["frame.len " +:+ op +:+ " " +:+ text]
           | TimeRange, JStr raw => Ok (timeClauses raw)
           | TimeRange, _ => Throw (TypeError "config.timeRange.split is not a function")
           end
  end.

(** A predicate builder that never renders a non-empty value as the
    empty string. *)
Definition keepsNonEmpty (cb : string -> string) : Prop :=
  forall v, Js.Boolean v = true -> Js.Boolean (cb v) = true.

Fixpoint collectClauses (config : JsVal) (table : list (string * FieldKind))
  : Result (list string) :=
  match table with
  | [] => Ok []
  | (field, kind) :: rest =>
      cs ← fieldClauses config field kind;
      more ← collectClauses config rest;
      mret (cs ++ more)
  end.

Definition compileByField (config : JsVal) : Result string :=
  cs ← collectClauses config fieldTable;
  mret (Js.join " and " cs).

(** ** The Capture Store and the environment *)

Record LogEntry : Type := mkLogEntry {
  event : string;
  details : option string;
  success : option bool
}.

(** The coordinator's mutable world: the files under [pcapDir], the
    in-memory array [containerNames] and the lines of [control.log]. *)
Record State : Type := mkState {
  files : gmap string string;
  containerNames : list string;
  log : list LogEntry
}.

(** What the coordinator cannot compute by itself.  [exec_tool cmd fs] is
    the run of an external program by [child_process.exec]: the message of
    the error passed to the callback, if any, and the store it leaves.
    [axios_get url] holds when the request resolves. *)
Record Env : Type := mkEnv {
  exec_tool : string -> gmap string string -> option string * gmap string string;
  axios_get : string -> bool;
  JSON_parse : string -> Result JsVal;
  JSON_stringify : JsVal -> string
}.

Definition M (A : Type) : Type := State -> Result A * State.

#[global] Instance M_ret : MRet M := fun _ a st => (Ok a, st).
#[global] Instance M_bind : MBind M := fun _ _ f m st =>
  match m st with
  | (Ok a, st') => f a st'
  | (Throw e, st') => (Throw e, st')
  end.

(** [!error] on the argument of an [exec] callback. *)
Definition noError (error : option JsError) : bool :=
  match error with None => true | Some _ => false end.

Definition throw {A} (e : JsError) : M A := fun st => (Throw e, st).

Definition liftR {A} (r : Result A) : M A := fun st => (r, st).

(** [try { m } catch (e) { h e }]: the effects of [m] up to the throw stay. *)
Definition try_catch {A} (m : M A) (h : JsError -> M A) : M A := fun st =>
  match m st with
  | (Ok a, st') => (Ok a, st')
  | (Throw e, st') => h e st'
  end.

Definition getFiles : M (gmap string string) := fun st => (Ok (files st), st).

Definition setFiles (fs : gmap string string) : M unit := fun st =>
  (Ok tt, mkState fs (containerNames st) (log st)).

Definition pcapDir : string := "/data".

(** [path.join(dir, file)] for a directory without trailing slash and a
    plain file name. *)
Definition path_join (dir file : string) : string := dir +:+ "/" +:+ file.

(** [logEvent]: one line appended to [control.log].  The file is kept
    apart from the other files of the store, as the list of its lines, and
    the append is taken to succeed. *)
Definition logEvent (ev : string) (det : option string) (ok : option bool) : M unit :=
  fun st => (Ok tt, mkState (files st) (containerNames st)
                      (log st ++ [mkLogEntry ev det ok])).

Fixpoint stripPrefix (pre s : string) : option string :=
  match pre, s with
  | EmptyString, _ => Some s
  | String a pre', String b s' => if Ascii.eqb a b then stripPrefix pre' s' else None
  | String _ _, EmptyString => None
  end.

Fixpoint hasSlash (s : string) : bool :=
  match s with
  | EmptyString => false
  | String c r => Ascii.eqb c "/" || hasSlash r
  end.

(** The name under which [path] is listed in [dir], if it lies directly
    in it. *)
Definition entryName (dir path : string) : option string :=
  match stripPrefix (dir +:+ "/") path with
  | Some name => if Js.Boolean name && negb (hasSlash name) then Some name else None
  | None => None
  end.

(** [fs.readdir(dir)]: the entries of [dir], here in the order of the
    map; [readdir] promises no order. *)
Definition readdirPure (dir : string) (fs : gmap string string) : list string :=
  omap (entryName dir) (map fst (map_to_list fs)).

Definition readdir (dir : string) : M (list string) :=
  fs ← getFiles; mret (readdirPure dir fs).

Definition existsSync (path : string) : M bool :=
  fs ← getFiles; mret (bool_decide (is_Some (fs !! path))).

(** [fs.unlink]: rejects when the file is missing. *)
Definition unlink (path : string) : M unit :=
  fs ← getFiles;
  match fs !! path with
  | Some _ => setFiles (delete path fs)
  | None => throw (Error ("ENOENT: no such file or directory, unlink '" +:+ path +:+ "'"))
  end.

(** [fs.rm(path, { force: true })] *)
Definition rm_force (path : string) : M unit :=
  fs ← getFiles; setFiles (delete path fs).

Definition readFile (path : string) : M string :=
  fs ← getFiles;
  match fs !! path with
  | Some data => mret data
  | None => throw (Error ("ENOENT: no such file or directory, open '" +:+ path +:+ "'"))
  end.

Definition writeFileSync (path data : string) : M unit :=
  fs ← getFiles; setFiles (<[path := data]> fs).

(** ** Responses *)

Inductive Body : Type :=
| Text (s : string)
| Json (v : JsVal).

Record Response : Type := mkResponse { status : nat; body : Body }.

(** [res.send(text)] *)
Definition send (text : string) : Response := mkResponse 200 (Text text).

(** An object literal; a property whose value is [undefined] ([None]) is
    not serialised. *)
Definition object (props : list (string * option JsVal)) : JsVal :=
  JObj (omap (fun p => pair p.1 <$> p.2) props).

(** [res.status(code).json({...})] *)
Definition json (code : nat) (props : list (string * option JsVal)) : Response :=
  mkResponse code (Json (object props)).

(** The property [k] of a JSON response body. *)
Definition bodyField (r : Response) (k : string) : option JsVal :=
  match body r with
  | Json v => getField v k
  | Text _ => None
  end.

Inductive FilterStatus : Type := ok | ko.

Record FilterResult : Type := mkFilterResult {
  fstatus : FilterStatus;
  filteredJsonData : option JsVal;
  errorMsg : option string
}.

Definition statusJson (s : FilterStatus) : JsVal :=
  JStr (match s with ok => "ok" | ko => "ko" end).

Definition isOk (s : FilterStatus) : bool :=
  match s with ok => true | ko => false end.

(** [filterStatus === 'ko'] on a possibly undefined status. *)
Definition isKo (s : option FilterStatus) : bool :=
  match s with Some ko => true | _ => false end.

(** [err?.message || String(err)] *)
Definition messageOrString (e : JsError) : string :=
  if Js.Boolean (message e) then message e
  else match e with
       | TypeError _ => "TypeError"
       | SyntaxError _ => "SyntaxError"
       | Error _ => "Error"
       end.

(** The command line of the decoder, [tsharkCmd] in [pcapToJson]. *)
Definition tsharkCommand (pcapFile jsonFile : string) : string :=
  "tshark -r " +:+ pcapFile +:+ " -T json > " +:+ jsonFile.

Section Coordinator.

Variable env : Env.

(** [child_process.exec(cmd, callback)]: the error handed to the
    callback.  The shell splits the command into words; [cp src dst]
    copies a regular file, any other program is the environment's. *)
Definition exec (cmd : string) : M (option JsError) := fun st =>
  match String.words cmd with
  | ["cp"; src; dst] =>
      match files st !! src with
      | Some data =>
          (Ok None, mkState (<[dst := data]> (files st)) (containerNames st) (log st))
      | None => (Ok (Some (Error ("Command failed: " +:+ cmd))), st)
      end
  | _ =>
      let '(err, fs') := exec_tool env cmd (files st) in
      (Ok (Error <$> err), mkState fs' (containerNames st) (log st))
  end.

Definition ensureDirSync (dir : string) : M unit := mret tt.

Definition getLatestConfig : M (option JsVal) :=
  let configFilePath := path_join pcapDir "config.json" in
  present ← existsSync configFilePath;
  if negb present then mret None
  else
    data ← readFile configFilePath;
    v ← liftR (JSON_parse env data);
    mret (Some v).

Fixpoint forEach {A} (l : list A) (f : A -> M unit) : M unit :=
  match l with
  | [] => mret tt
  | x :: r => _ ← f x; forEach r f
  end.

Definition unlinkIfExists (path : string) : M unit :=
  present ← existsSync path;
  if (present : bool) then unlink path else mret tt.

Definition clearOldPcaps (dir : string) : M unit :=
  entries ← readdir dir;
  _ ← forEach entries (fun file =>
        if Js.endsWith file ".pcap" then unlink (path_join dir file) else mret tt);
  _ ← unlinkIfExists (path_join dir "output.json");
  _ ← unlinkIfExists (path_join dir "filtered.pcap");
  _ ← unlinkIfExists (path_join dir "filtered.json");
  logEvent "Monitoring started"
    (Some "Cleared old pcap files, output.json, filtered.pcap, and filtered.json")
    (Some true).

(** The array [pcapFiles] of [mergePcaps]. *)
Definition pcapFilesOf (dir : string) (entries : list string) : list string :=
  map (path_join dir) (List.filter (fun file => Js.endsWith file ".pcap") entries).

Definition mergecapCommand (mergedPcapFile : string) (pcapFiles : list string) : string :=
  "mergecap -w " +:+ mergedPcapFile +:+ " " +:+ Js.join " " pcapFiles.

Definition mergePcaps (dir mergedPcapFile : string) : M unit :=
  _ ← rm_force mergedPcapFile;
  entries ← readdir dir;
  let pcapFiles := pcapFilesOf dir entries in
  if (length pcapFiles =? 0)%nat then
    _ ← logEvent "Monitoring stopped" (Some "No .pcap files found to merge") (Some false);
    throw (Error "No .pcap files found to merge.")
  else
    let cmd := mergecapCommand mergedPcapFile pcapFiles in
    error ← exec cmd;
    _ ← logEvent "Monitoring stopped" (Some ("Command: " +:+ cmd))
          (Some (noError error));
    match error with
    | Some e => throw e
    | None => mret tt
    end.

Definition pcapToJson (pcapFile jsonFile : string) : M unit :=
  let tsharkCmd := tsharkCommand pcapFile jsonFile in
  error ← exec tsharkCmd;
  present ← existsSync jsonFile;
  _ ← logEvent "Filtering" (Some ("Command: " +:+ tsharkCmd))
        (Some (noError error && present));
  match error with
  | Some e => throw e
  | None => mret tt
  end.

(** *** Filtering *)

Definition filterPcapAndJson (mergedPcapFile filterString outputDir : string)
  : M FilterResult :=
  let filteredPcapFile := path_join outputDir "filtered.pcap" in
  let filteredJsonFile := path_join outputDir "filtered.json" in
  try_catch
    (let filterCmd :=
       if Js.Boolean filterString
       then "tshark -r " +:+ mergedPcapFile +:+ " -Y " +:+ Js.dquote +:+ filterString
            +:+ Js.dquote +:+ " -w " +:+ filteredPcapFile
       else "cp " +:+ mergedPcapFile +:+ " " +:+ filteredPcapFile in
     error ← exec filterCmd;
     present ← existsSync filteredPcapFile;
     _ ← logEvent "Filtering" (Some ("Command: " +:+ filterCmd))
           (Some (noError error && present));
     _ ← match error with Some e => throw e | None => mret tt end;
     _ ← pcapToJson filteredPcapFile filteredJsonFile;
     present ← existsSync filteredJsonFile;
     if (present : bool) then
       data ← readFile filteredJsonFile;
       filteredJsonData ← liftR (JSON_parse env data);
       _ ← logEvent "Filtering" (Some ("Output: " +:+ filteredJsonFile)) (Some true);
       mret (mkFilterResult ok (Some filteredJsonData) None)
     else
       _ ← logEvent "Filtering" (Some ("Output: " +:+ filteredJsonFile)) (Some false);
       mret (mkFilterResult ko None
               (Some "Filtered JSON file not found after filtering.")))
    (fun err =>
       let msg := messageOrString err in
       _ ← logEvent "Filtering" (Some ("Error: " +:+ msg)) (Some false);
       mret (mkFilterResult ko None (Some ("Filtering failed: " +:+ msg)))).

Definition saveConfig (config : JsVal) : M string :=
  _ ← ensureDirSync pcapDir;
  let configFilePath := path_join pcapDir "config.json" in
  _ ← writeFileSync configFilePath (JSON_stringify env config);
  mret configFilePath.

(** *** API endpoints *)

(** [GET /server-name/:containerName] *)
Definition register (containerName : string) : M Response := fun st =>
  let st' :=
    if bool_decide (containerName ∈ containerNames st) then st
    else mkState (files st) (containerNames st ++ [containerName]) (log st) in
  (Ok (send ("Container name received: " +:+ containerName)), st').

Definition outcome (containerName status : string) : JsVal :=
  JObj [("containerName", JStr containerName); ("status", JStr status)].

(** The fan-out [Promise.all(containerNames.map(...))], one request after
    the other; [phase] is the event name and [verb] the agent's route. *)
Fixpoint broadcast (phase verb : string) (names : list string) : M (list JsVal) :=
  match names with
  | [] => mret []
  | containerName :: rest =>
      let cmd := "http://" +:+ containerName +:+ ":3000/" +:+ verb in
      _ ← logEvent phase (Some ("Command: " +:+ cmd)) (Some (axios_get env cmd));
      let r := outcome containerName
                 (if axios_get env cmd then "success" else "failed") in
      rs ← broadcast phase verb rest;
      mret (r :: rs)
  end.

(** [GET /start] *)
Definition start : M Response :=
  names ← (fun st => (Ok (containerNames st), st));
  if (length names =? 0)%nat then
    mret (mkResponse 400 (Text "No container names available to start."))
  else
    _ ← clearOldPcaps pcapDir;
    results ← broadcast "Monitoring started" "start" names;
    mret (json 200 [("message", Some (JStr "Start signal sent to all scan dockers."));
                    ("results", Some (JArr results))]).

(** [filteredJsonData || JSON.parse(jsonData)] *)
Definition orParse (filteredJsonData : option JsVal) (jsonData : string) : M JsVal :=
  match filteredJsonData with
  | Some v => if truthy v then mret v else liftR (JSON_parse env jsonData)
  | None => liftR (JSON_parse env jsonData)
  end.

(** [GET /stop].  The [try] block, [stopTry], is cut into its stages:
    the merge, [decodeMerged] (the decode of the merged capture up to the
    read of [output.json]), [filterIfConfigured] (the [if (config)]
    block) and [stopResponse] (the final log line and [res.json]);
    [stopFailed] is the [catch] block. *)
Definition decodeMerged (mergedPcapFile jsonOutputFile : string)
  : M (option JsVal * string) :=
  _ ← pcapToJson mergedPcapFile jsonOutputFile;
  config ← getLatestConfig;
  jsonData ← readFile jsonOutputFile;
  mret (config, jsonData).

Definition filterIfConfigured (config : option JsVal) (mergedPcapFile : string)
  : M (option FilterResult) :=
  match config with
  | Some c =>
      if truthy c then
        filterString ← liftR (buildWiresharkFilterFromConfig c);
        r ← filterPcapAndJson mergedPcapFile filterString pcapDir;
        mret (Some r)
      else mret None
  | None => mret None
  end.

Definition stopBody (results : list JsVal) (pcapData : JsVal)
    (filterResult : option FilterResult) : Response :=
  let filterStatus := fstatus <$> filterResult in
  let errorMsg := filterResult ≫= errorMsg in
  json 200
    [("message", Some (JStr "Stop signal sent to all scan dockers."));
     ("results", Some (JArr results));
     ("pcapData", Some pcapData);
     ("filterStatus", statusJson <$> filterStatus);
     ("error", if isKo filterStatus then JStr <$> errorMsg else None)].

Definition stopResponse (results : list JsVal) (jsonOutputFile jsonData : string)
    (filterResult : option FilterResult) : M Response :=
  let filteredJsonData := filterResult ≫= filteredJsonData in
  _ ← logEvent "Monitoring stopped" (Some ("Output: " +:+ jsonOutputFile)) (Some true);
  pcapData ← orParse filteredJsonData jsonData;
  mret (stopBody results pcapData filterResult).

(** [error.message || 'Failed to process pcap files.'] *)
Definition failureText (error : JsError) : string :=
  if Js.Boolean (message error) then message error
  else "Failed to process pcap files.".

Definition stopFailed (error : JsError) : M Response :=
  _ ← logEvent "Monitoring stopped" (Some ("Error: " +:+ failureText error)) (Some false);
  mret (mkResponse 500 (Text (failureText error))).

Definition stopTry (results : list JsVal) (mergedPcapFile jsonOutputFile : string)
  : M Response :=
  _ ← mergePcaps pcapDir mergedPcapFile;
  decoded ← decodeMerged mergedPcapFile jsonOutputFile;
  filterResult ← filterIfConfigured decoded.1 mergedPcapFile;
  stopResponse results jsonOutputFile decoded.2 filterResult.

Definition stop : M Response :=
  names ← (fun st => (Ok (containerNames st), st));
  if (length names =? 0)%nat then
    mret (mkResponse 400 (Text "No container names available to stop."))
  else
    results ← broadcast "Monitoring stopped" "stop" names;
    let mergedPcapFile := path_join pcapDir "merged.pcap" in
    let jsonOutputFile := path_join pcapDir "output.json" in
    try_catch (stopTry results mergedPcapFile jsonOutputFile) stopFailed.

(** [POST /config]; [config] is [req.body]. *)
Definition postConfig (config : JsVal) : M Response :=
  if negb (truthy config) then
    mret (json 400 [("message", Some (JStr "Invalid configuration data"))])
  else
    try_catch
      (_ ← saveConfig config;
       let mergedPcapFile := path_join pcapDir "merged.pcap" in
       present ← existsSync mergedPcapFile;
       filterResult ←
         (if (present : bool) then
            filterString ← liftR (buildWiresharkFilterFromConfig config);
            filterPcapAndJson mergedPcapFile filterString pcapDir
          else mret (mkFilterResult ko None None));
       let filterStatus := fstatus filterResult in
       let filteredJsonData := filteredJsonData filterResult in
       let errorMsg := errorMsg filterResult in
       if isOk filterStatus && from_option truthy false filteredJsonData then
         _ ← logEvent "Filtering" (Some "Output: filtered.json") (Some true);
         mret (json 200
                 [("message", Some (JStr "Configuration saved and filtering succeeded"));
                  ("pcapData", filteredJsonData)])
       else if isKo (Some filterStatus) then
         _ ← logEvent "Filtering" (Some "Output: filtered.json") (Some false);
         mret (json 422
                 [("message", Some (JStr "Configuration saved but filtering failed"));
                  ("error", JStr <$> errorMsg)])
       else
         mret (json 200
                 [("message", Some (JStr
                     "Configuration saved successfully (no merged.pcap to filter yet)"))]))
      (fun error =>
         let msg := if Js.Boolean (message error) then message error
                    else "Failed to save configuration" in
         _ ← logEvent "Filtering" (Some ("Error: " +:+ msg)) (Some false);
         mret (json 500 [("message", Some (JStr "Failed to save configuration"))])).

(** [GET /cleanConf] *)
Definition cleanConf : M Response :=
  try_catch
    (let filesToRemove := ["config.json"; "filtered.pcap"; "filtered.json"] in
     _ ← forEach filesToRemove (fun file => unlinkIfExists (path_join pcapDir file));
     mret (json 200 [("message", Some (JStr "Config and filtered files cleaned."))]))
    (fun err =>
       mret (json 500 [("message", Some (JStr "Failed to clean files"));
                       ("error", Some (JStr (messageOrString err)))])).

End Coordinator.

(** A sequence of registration requests: the responses and the state
    they leave. *)
Fixpoint registerAll (names : list string) (st : State)
  : list (Result Response) * State :=
  match names with
  | [] => ([], st)
  | containerName :: rest =>
      let '(r, st1) := register containerName st in
      let '(rs, st2) := registerAll rest st1 in
      (r :: rs, st2)
  end.


(** ** Vocabulary of the properties *)

(** The file an agent captures into: [monitoring/src/app.ts] runs tcpdump
    with [-w /data/dumpfile_${containerName}.pcap]. *)
Definition rawCapturePath (containerName : string) : string :=
  "/data/dumpfile_" +:+ containerName +:+ ".pcap".

(** A directory entry that is an agent's capture. *)
Definition isRawCapture (file : string) : bool :=
  Js.startsWith file "dumpfile_" && Js.endsWith file ".pcap".

Definition mergedPcapPath : string := path_join pcapDir "merged.pcap".
Definition filteredPcapPath : string := path_join pcapDir "filtered.pcap".
Definition filteredJsonPath : string := path_join pcapDir "filtered.json".
Definition outputJsonPath : string := path_join pcapDir "output.json".
Definition configPath : string := path_join pcapDir "config.json".

(** The entries of the capture directory. *)
Definition storeEntries (fs : gmap string string) : list string :=
  readdirPure pcapDir fs.

(** The raw captures present in the store. *)
Definition rawCaptures (fs : gmap string string) : list string :=
  List.filter isRawCapture (storeEntries fs).

(** The names of the artifacts the coordinator derives or keeps. *)
Definition derivedArtifacts : list string :=
  ["merged.pcap"; "output.json"; "filtered.pcap"; "filtered.json";
   "config.json"; "control.log"].

(** The persisted state layout of the Capture Store: raw captures and
    the coordinator's own artifacts, nothing else. *)
Definition wellFormedStore (fs : gmap string string) : bool :=
  forallb (fun file => isRawCapture file || bool_decide (file ∈ derivedArtifacts))
    (storeEntries fs).

(** The request a broadcast sends to one agent, the outcomes it collects
    and the lines it logs. *)
Definition agentUrl (containerName verb : string) : string :=
  "http://" +:+ containerName +:+ ":3000/" +:+ verb.

Definition broadcastOutcomes (env : Env) (verb : string) (names : list string)
  : list JsVal :=
  map (fun n => outcome n (if axios_get env (agentUrl n verb) then "success" else "failed"))
    names.

Definition broadcastLog (env : Env) (phase verb : string) (names : list string)
  : list LogEntry :=
  map (fun n => mkLogEntry phase (Some ("Command: " +:+ agentUrl n verb))
                  (Some (axios_get env (agentUrl n verb))))
    names.

(** A computation that leaves the files of the store as they are. *)
Definition keepsFiles {A} (m : M A) : Prop :=
  forall st, files (m st).2 = files st.

(** A config as the design types it: every recognised field that is
    present holds a string. *)
Definition stringValued (config : JsVal) : bool :=
  forallb (fun p => match getField config p.1 with
                    | None | Some (JStr _) => true
                    | Some _ => false
                    end) fieldTable.

(** A computation that always returns, with a value satisfying [P]. *)
Definition answers {A} (m : M A) (P : A -> Prop) : Prop :=
  forall st, exists a st', m st = (Ok a, st') /\ P a.

(** Every value a computation returns satisfies [P]. *)
Definition returns {A} (m : M A) (P : A -> Prop) : Prop :=
  forall st a st', m st = (Ok a, st') -> P a.

(** A [ko] result of the filter step carries no record and a message. *)
Definition koCarriesError (r : FilterResult) : Prop :=
  fstatus r = ko -> filteredJsonData r = None /\ exists msg, errorMsg r = Some msg.

(** The state in which the [try] block of [stop] starts: the fan-out has
    logged one line per agent. *)
Definition afterBroadcast (env : Env) (st : State) : State :=
  mkState (files st) (containerNames st)
    (log st ++ broadcastLog env "Monitoring stopped" "stop" (containerNames st)).

(** An agent's capture process flushing its file to the shared store. *)
Definition agentFlush (containerName data : string) (st : State) : State :=
  mkState (<[rawCapturePath containerName := data]> (files st))
    (containerNames st) (log st).

(** The config without the property [field]. *)
Definition removeField (field : string) (props : list (string * JsVal))
  : list (string * JsVal) :=
  List.filter (fun p => negb (String.eqb field p.1)) props.

(** A field of the table that contributes nothing: absent, falsy, a
    value list none of whose entries survives trimming, or a time range
    with neither start nor end. *)
Definition unpopulatedField (config : JsVal) (p : string * FieldKind) : bool :=
  match getField config p.1 with
  | None => true
  | Some v =>
      negb (truthy v)
      || match p.2, v with
         | ValueList _, JStr raw => bool_decide (survivingValues raw = [])
         | TimeRange, JStr raw => bool_decide (timeClauses raw = [])
         | _, _ => false
         end
  end.

Definition unpopulated (config : JsVal) : bool :=
  forallb (unpopulatedField config) fieldTable.

(** Two property lists that differ at most in the letter case of the
    string values of [protocol] and [tcpFlags]. *)
Definition caseInsensitiveField (field : string) : bool :=
  bool_decide (field ∈ ["protocol"; "tcpFlags"]).

Definition sameUpToCase (p q : string * JsVal) : Prop :=
  p.1 = q.1 /\
  (p.2 = q.2 \/
   caseInsensitiveField p.1 = true /\
   exists s t, p.2 = JStr s /\ q.2 = JStr t /\ Js.toLowerCase s = Js.toLowerCase t).

Definition caseVariant (props props' : list (string * JsVal)) : Prop :=
  Forall2 sameUpToCase props props'.

(** The reading of "a field whose values all become blank is treated as
    absent" for one field: such a value can be dropped from the config
    without changing what the compiler returns. *)
Definition blankTreatedAsAbsent (field : string) : Prop :=
  forall props raw,
    getField (JObj props) field = Some (JStr raw) ->
    survivingValues raw = [] ->
    buildWiresharkFilterFromConfig (JObj props)
    = buildWiresharkFilterFromConfig (JObj (removeField field props)).

Definition startsNonWhiteSpace (s : string) : bool :=
  match s with
  | EmptyString => true
  | String c _ => negb (Js.isWhiteSpace c)
  end.

(** ** A scripted environment

    Concrete external tools for the examples: [mergecap] concatenates its
    inputs, the decoder brackets its input, the filter wraps it; each can
    be switched to fail.  A failing decoder still leaves the file its
    shell redirection created. *)

Module Scenario.

Definition tool (mergeOk decodeOk filterOk : bool)
    (cmd : string) (fs : gmap string string) : option string * gmap string string :=
  match String.words cmd with
  | "mergecap" :: "-w" :: out :: inputs =>
      if mergeOk then (None, <[out := Js.join "+" (omap (fun p => fs !! p) inputs)]> fs)
      else (Some "mergecap: The file could not be opened", fs)
  | ["tshark"; "-r"; input; "-T"; "json"; ">"; out] =>
      match decodeOk, fs !! input with
      | true, Some data => (None, <[out := "[" +:+ data +:+ "]"]> fs)
      | _, _ => (Some "tshark: The file could not be decoded", <[out := EmptyString]> fs)
      end
  | "tshark" :: "-r" :: input :: "-Y" :: _ =>
      match filterOk, fs !! input with
      | true, Some data =>
          (None, <[path_join pcapDir "filtered.pcap" := "filtered(" +:+ data +:+ ")"]> fs)
      | _, _ => (Some "tshark: Invalid display filter", fs)
      end
  | _ => (Some "sh: command not found", fs)
  end.

Definition parse (text : string) : Result JsVal :=
  if String.eqb text EmptyString then Throw (SyntaxError "Unexpected end of JSON input")
  else if String.eqb text "{}" then Ok (JObj [])
  else if String.eqb text "{ip}" then Ok (JObj [("ip", JStr "10.0.0.1")])
  else Ok (JArr [JStr text]).

Definition stringify (v : JsVal) : string :=
  match v with
  | JObj [] => "{}"
  | JObj [("ip", JStr "10.0.0.1")] => "{ip}"
  | _ => "{...}"
  end.

Definition env (mergeOk decodeOk filterOk : bool) : Env :=
  mkEnv (tool mergeOk decodeOk filterOk) (fun _ => true) parse stringify.

(** One agent registered, its capture in the store. *)
Definition captured : State :=
  mkState {[ rawCapturePath "scan1" := "pkts1" ]} ["scan1"] [].

(** The same with a persisted config that selects one address. *)
Definition capturedWithConfig : State :=
  mkState {[ rawCapturePath "scan1" := "pkts1"; configPath := "{ip}" ]} ["scan1"] [].

(** A store left by an earlier coordinator process: a merged capture,
    no agent registered since the restart. *)
Definition restarted : State :=
  mkState {[ mergedPcapPath := "old" ]} [] [].

(** One agent registered, its capture and the artifacts of an earlier
    stop in the store. *)
Definition stoppedOnce : State :=
  mkState {[ rawCapturePath "scan1" := "pkts1";
             mergedPcapPath := "pkts1";
             filteredPcapPath := "pkts1";
             configPath := "{}" ]} ["scan1"] [].

(** A merged capture from an earlier round. *)
Definition merged : State :=
  mkState {[ mergedPcapPath := "pkts1" ]} ["scan1"] [].

(** A round from a fresh coordinator: the agent registers, an empty
    config is submitted, a capture round is started, the agent flushes
    its capture, and [stop] is requested; the state before a second
    [stop]. *)
Definition afterFirstStop (e : Env) : State :=
  let st0 := mkState ∅ [] [] in
  let st1 := (register "scan1" st0).2 in
  let st2 := (postConfig e (JObj []) st1).2 in
  let st3 := (start e st2).2 in
  let st4 := agentFlush "scan1" "pkts1" st3 in
  (stop e st4).2.

(** The config of the coordinator's own test, [{ ip: '1.2.3.4', port: 80 }]. *)
Definition testConfig : JsVal :=
  JObj [("ip", JStr "1.2.3.4"); ("port", JNum 80)].

End Scenario.

(** ** Vocabulary of the further properties *)

Definition isString (v : JsVal) : bool :=
  match v with JStr _ => true | _ => false end.

(** A value that a template literal can print. *)
Definition prints (v : JsVal) : bool :=
  match toString v with Ok _ => true | Throw _ => false end.

(** A field on which the compiler cannot throw: absent or falsy, a string
    where the value is split, a value that prints where it is a bound. *)
Definition splittableField (config : JsVal) (p : string * FieldKind) : bool :=
  match getField config p.1 with
  | None => true
  | Some v =>
      negb (truthy v)
      || match p.2 with
         | Bound _ => prints v
         | _ => isString v
         end
  end.

Definition splittable (config : JsVal) : bool :=
  forallb (splittableField config) fieldTable.

Fixpoint hasChar (c : ascii) (s : string) : bool :=
  match s with
  | EmptyString => false
  | String x r => Ascii.eqb x c || hasChar c r
  end.

(** A value as the compiler keeps it: not blank, trimmed, without comma. *)
Definition cleanValue (v : string) : bool :=
  Js.Boolean v && String.eqb (Js.trim v) v && negb (hasChar "," v).

(** The registry is the same and the log has only grown. *)
Definition grows (st st' : State) : Prop :=
  containerNames st' = containerNames st /\ log st `prefix_of` log st'.

(** A computation that never touches the registry and only appends to
    the log. *)
Definition conservative {A} (m : M A) : Prop :=
  forall st, grows st (m st).2.

(** A path that the start of a capture round clears: a [.pcap] entry of
    the capture directory, or one of the two decoded records. *)
Definition clearedByStart (path : string) : bool :=
  match entryName pcapDir path with
  | Some name =>
      Js.endsWith name ".pcap" || bool_decide (name ∈ ["output.json"; "filtered.json"])
  | None => false
  end.

(** The store after the loop of [clearOldPcaps] over [entries]. *)
Definition unlinkedPcaps (dir : string) (entries : list string) (fs : gmap string string)
  : gmap string string :=
  foldl (fun acc file => if Js.endsWith file ".pcap" then delete (path_join dir file) acc
                         else acc) fs entries.

(** ** The capture agent ([monitoring/src/app.ts]) *)

Module Agent.

(** What the agent asks of its surroundings: a child process created by
    [exec] for tcpdump, a signal sent to one with [kill], a request sent
    with [axios.get].  A child is named by the number of children created
    before it. *)
Inductive Effect : Type :=
| Spawn (child : nat) (command : string)
| Kill (child : nat) (signal : string)
| HttpGet (url : string).

(** The module variables [containerName] and [tcpdumpProcess], and the
    effects so far, oldest first. *)
Record AgentState : Type := mkAgent {
  containerName : string;
  tcpdumpProcess : option nat;
  effects : list Effect
}.

Definition initial : AgentState := mkAgent "" None [].

Definition isSpawn (e : Effect) : bool :=
  match e with Spawn _ _ => true | _ => false end.

Definition children (effs : list Effect) : nat := length (List.filter isSpawn effs).

(** What the agent reacts to: the callback of [exec('cat /etc/hostname')],
    the two requests, and the callback of the tcpdump child.  [execThrows]
    and [killThrows] say whether the call made by the handler throws. *)
Inductive Event : Type :=
| HostnameRead (error : bool) (stdout stderr : string)
| GetStart (execThrows : bool)
| GetStop (killThrows : bool)
| TcpdumpExited (error : bool) (stdout stderr : string).

(** [process.env.TCPDUMP_PORT || '80'] *)
Definition tcpdumpPort (TCPDUMP_PORT : option string) : string :=
  match TCPDUMP_PORT with
  | Some p => if Js.Boolean p then p else "80"
  | None => "80"
  end.

Definition tcpdumpCommand (port name : string) : string :=
  "tcpdump -v -s 0 dst port " +:+ port +:+ " -w " +:+ rawCapturePath name.

Definition registrationUrl (name : string) : string :=
  "http://control:3000/server-name/" +:+ name.

(** The hostname callback: on success the name is set and the agent
    registers with the coordinator (the five seconds it waits before the
    request are not modelled; nothing else assigns the name). *)
Definition hostnameRead (error : bool) (stdout stderr : string) (st : AgentState)
  : AgentState :=
  if error then st
  else if Js.Boolean stderr then st
  else mkAgent (Js.trim stdout) (tcpdumpProcess st)
         (effects st ++ [HttpGet (registrationUrl (Js.trim stdout))]).

Section Handlers.

Variable TCPDUMP_PORT : option string.

(** [app.get('/start')] *)
Definition start (execThrows : bool) (st : AgentState) : Response * AgentState :=
  match tcpdumpProcess st with
  | Some _ => (mkResponse 400 (Text "tcpdump is already running."), st)
  | None =>
      if execThrows then (mkResponse 500 (Text "Failed to start tcpdump."), st)
      else
        let child := children (effects st) in
        (send "tcpdump started.",
         mkAgent (containerName st) (Some child)
           (effects st
            ++ [Spawn child (tcpdumpCommand (tcpdumpPort TCPDUMP_PORT) (containerName st))]))
  end.

(** [app.get('/stop')] *)
Definition stop (killThrows : bool) (st : AgentState) : Response * AgentState :=
  match tcpdumpProcess st with
  | None => (mkResponse 400 (Text "tcpdump is not running."), st)
  | Some child =>
      if killThrows then (mkResponse 500 (Text "Failed to stop tcpdump."), st)
      else
        (send "tcpdump stopped.",
         mkAgent (containerName st) None (effects st ++ [Kill child "SIGINT"]))
  end.

(** One event; the callbacks answer nothing, and the callback of the
    tcpdump child only logs. *)
Definition step (ev : Event) (st : AgentState) : option Response * AgentState :=
  match ev with
  | HostnameRead error stdout stderr => (None, hostnameRead error stdout stderr st)
  | GetStart execThrows => let r := start execThrows st in (Some r.1, r.2)
  | GetStop killThrows => let r := stop killThrows st in (Some r.1, r.2)
  | TcpdumpExited _ _ _ => (None, st)
  end.

Fixpoint run (evs : list Event) (st : AgentState) : AgentState :=
  match evs with
  | [] => st
  | ev :: evs' => run evs' (step ev st).2
  end.

(** The answers given along a run, oldest first. *)
Fixpoint responses (evs : list Event) (st : AgentState) : list Response :=
  match evs with
  | [] => []
  | ev :: evs' =>
      match (step ev st).1 with
      | Some r => r :: responses evs' (step ev st).2
      | None => responses evs' (step ev st).2
      end
  end.

End Handlers.

(** Reading a list of effects as capture rounds: a round is opened by a
    [Spawn] and closed by a SIGINT to the same child; [None] when the list
    is not a sequence of rounds, otherwise the child of the open round. *)
Definition track (open : option (option nat)) (e : Effect) : option (option nat) :=
  match open, e with
  | Some None, Spawn child _ => Some (Some child)
  | Some (Some child), Kill child' signal =>
      if Nat.eqb child child' && String.eqb signal "SIGINT" then Some None else None
  | Some o, HttpGet _ => Some o
  | _, _ => None
  end.

Definition openCapture (effs : list Effect) : option (option nat) :=
  fold_left track effs (Some None).

Definition isStop (ev : Event) : bool :=
  match ev with GetStop _ => true | _ => false end.

Definition spawns (effs : list Effect) : list Effect := List.filter isSpawn effs.

End Agent.

(** ** The filter compiler of the design document

    Section 4.3 of the design read on its own terms.  A filter config is a
    mapping from field names to raw strings.  The entries of a
    comma-separated field are trimmed and the blank ones dropped; a field
    with no surviving value is absent.  Each populated field gives one
    sub-expression, the predicates of its values joined by [or]; the
    sub-expressions are joined by [and], in the order of the table.  The
    definitions below share nothing with the embedding of the code but the
    alphabet: they scan, trim and connect in their own way. *)

Module Design.

Definition FilterConfig : Type := gmap string string.

(** Tab, line feed, vertical tab, form feed, carriage return, space and
    no-break space. *)
Definition blank (c : ascii) : bool :=
  bool_decide (nat_of_ascii c ∈ [9; 10; 11; 12; 13; 32; 160]%nat).

Fixpoint dropBlanks (l : list ascii) : list ascii :=
  match l with
  | c :: rest => if blank c then dropBlanks rest else l
  | [] => []
  end.

(** A value without its leading and trailing blanks. *)
Definition trimmed (value : string) : string :=
  string_of_list_ascii
    (rev (dropBlanks (rev (dropBlanks (list_ascii_of_string value))))).

(** The entries of a raw value, read from left to right: [current] holds
    the characters of the entry being read, last first. *)
Fixpoint scan (separator : ascii) (current rest : list ascii) : list string :=
  match rest with
  | [] => [string_of_list_ascii (rev current)]
  | c :: rest' =>
      if Ascii.eqb c separator
      then string_of_list_ascii (rev current) :: scan separator [] rest'
      else scan separator (c :: current) rest'
  end.

Definition entries (separator : ascii) (raw : string) : list string :=
  scan separator [] (list_ascii_of_string raw).

Definition present (value : string) : bool := negb (String.eqb value "").

(** The surviving values of a comma-separated field. *)
Definition values (raw : string) : list string :=
  List.filter present (map trimmed (entries "," raw)).

(** [items] written one after the other with [connective] in between. *)
Definition connect (connective : string) (items : list string) : string :=
  match items with
  | [] => ""
  | first :: others =>
      fold_left (fun text item => text +:+ connective +:+ item) others first
  end.

(** The two sides of a time range [<start>/<end>]: what stands before
    the first slash and what stands after it. *)
Fixpoint beforeSlash (l : list ascii) : list ascii :=
  match l with
  | [] => []
  | c :: rest => if Ascii.eqb c "/" then [] else c :: beforeSlash rest
  end.

Fixpoint afterSlash (l : list ascii) : list ascii :=
  match l with
  | [] => []
  | c :: rest => if Ascii.eqb c "/" then rest else afterSlash rest
  end.

Definition rangeStart (raw : string) : string :=
  string_of_list_ascii (beforeSlash (list_ascii_of_string raw)).

Definition rangeEnd (raw : string) : string :=
  string_of_list_ascii (afterSlash (list_ascii_of_string raw)).

Definition quote : string := String (ascii_of_nat 34) EmptyString.

(** The expansions of the field table. *)
Inductive Expansion : Type :=
| AnyOf (predicate : string -> string)
| AtLeast
| AtMost
| Between.

Definition eitherTransport (field port : string) : string :=
  "(tcp." +:+ field +:+ " == " +:+ port +:+ " or udp." +:+ field +:+ " == " +:+ port +:+ ")".

(** The recognised fields, in the canonical clause order. *)
Definition table : list (string * Expansion) :=
  [ ("ip", AnyOf (fun address => "ip.addr == " +:+ address));
    ("port", AnyOf (eitherTransport "port"));
    ("protocol", AnyOf (fun name => Js.toLowerCase name));
    ("sourceIp", AnyOf (fun address => "ip.src == " +:+ address));
    ("destinationIp", AnyOf (fun address => "ip.dst == " +:+ address));
    ("sourcePort", AnyOf (eitherTransport "srcport"));
    ("destinationPort", AnyOf (eitherTransport "dstport"));
    ("packetSizeMin", AtLeast);
    ("packetSizeMax", AtMost);
    ("timeRange", Between);
    ("tcpFlags", AnyOf (fun flag => "tcp.flags." +:+ Js.toLowerCase flag +:+ " == 1"));
    ("payloadContent", AnyOf (fun content => "frame contains " +:+ quote +:+ content +:+ quote));
    ("macAddress", AnyOf (fun address => "eth.addr == " +:+ address)) ].

Definition fields : list string := map fst table.

(** The fields that hold comma-separated values. *)
Definition listFields : list string :=
  omap (fun entry => match entry.2 with AnyOf _ => Some entry.1 | _ => None end) table.

Section Reading.

(** How a single value (a size bound, a side of the time range) is read. *)
Variable scalar : string -> string.

Definition bound (relation raw : string) : option string :=
  let value := scalar raw in
  if present value then Some ("frame.len " +:+ relation +:+ " " +:+ value) else None.

Definition moment (relation side : string) : option string :=
  let value := scalar side in
  if present value
  then Some ("frame.time " +:+ relation +:+ " " +:+ quote +:+ value +:+ quote)
  else None.

(** The sub-expression of one field, [None] when the field is absent. *)
Definition subExpression (expansion : Expansion) (raw : string) : option string :=
  match expansion with
  | AnyOf predicate =>
      match values raw with
      | [] => None
      | survivors => Some ("(" +:+ connect " or " (map predicate survivors) +:+ ")")
      end
  | AtLeast => bound ">=" raw
  | AtMost => bound "<=" raw
  | Between =>
      match omap id [moment ">=" (rangeStart raw); moment "<=" (rangeEnd raw)] with
      | [] => None
      | sides => Some (connect " and " sides)
      end
  end.

Definition compileWith (config : FilterConfig) : string :=
  connect " and "
    (omap (fun entry => config !! entry.1 ≫= subExpression entry.2) table).

End Reading.

(** The compiler of the design: every value is trimmed. *)
Definition compile : FilterConfig -> string := compileWith trimmed.

(** Single values taken as they stand. *)
Definition asGiven (value : string) : string := value.

Definition noSlash (value : string) : bool :=
  forallb (fun c => negb (Ascii.eqb c "/")) (list_ascii_of_string value).

(** A time range of the form [<start>/<end>]: no second slash. *)
Definition plainRange (config : FilterConfig) : bool :=
  match config !! "timeRange" with
  | Some raw => noSlash (rangeEnd raw)
  | None => true
  end.

Definition isTrimmed (value : string) : bool := String.eqb (trimmed value) value.

(** A config whose single values are written without surrounding blanks
    and whose time range has the form [<start>/<end>]. *)
Definition tidy (config : FilterConfig) : bool :=
  forallb (fun name => from_option isTrimmed true (config !! name))
    ["packetSizeMin"; "packetSizeMax"]
  && from_option (fun raw => isTrimmed (rangeStart raw) && isTrimmed (rangeEnd raw)) true
       (config !! "timeRange")
  && plainRange config.

End Design.

(** The JSON object [props] holds the filter config [config]: each
    recognised field is a string property with the raw value of the
    mapping, or is missing from both.  Other properties are free, and so
    is the order of the properties. *)
Definition agree (props : list (string * JsVal)) (config : Design.FilterConfig)
    (name : string) : bool :=
  match assoc name props, config !! name with
  | Some (JStr raw), Some raw' => String.eqb raw raw'
  | None, None => true
  | _, _ => false
  end.

Definition represents (props : list (string * JsVal)) (config : Design.FilterConfig)
  : bool :=
  forallb (agree props config) Design.fields.

(** A kind of the code's table and an expansion of the design's table
    that expand a value in the same way. *)
Definition corresponds (kind : FieldKind) (expansion : Design.Expansion) : Prop :=
  match kind, expansion with
  | ValueList pred, Design.AnyOf predicate => forall value, pred value = predicate value
  | Bound op, Design.AtLeast => op = ">="
  | Bound op, Design.AtMost => op = "<="
  | TimeRange, Design.Between => True
  | _, _ => False
  end.

Definition sameEntry (p : string * FieldKind) (q : string * Design.Expansion) : Prop :=
  p.1 = q.1 /\ corresponds p.2 q.2.

(** ** The pipeline of [stop], read against the environment

    What the external tools and the parser do to the store decides how the
    pipeline goes; the predicates below say when a step fails, in terms of
    the environment alone. *)

(** The command lines of the filter step. *)
Definition filterCommand (expression : string) : string :=
  "tshark -r " +:+ mergedPcapPath +:+ " -Y " +:+ Js.dquote +:+ expression +:+ Js.dquote
  +:+ " -w " +:+ filteredPcapPath.

Definition copyCommand : string :=
  "cp " +:+ mergedPcapPath +:+ " " +:+ filteredPcapPath.

(** The filter command over a store: the external filter for a non-empty
    expression, a copy of the merged capture for the empty one. *)
Definition runFilter (env : Env) (expression : string) (fs : gmap string string)
  : option string * gmap string string :=
  if Js.Boolean expression then exec_tool env (filterCommand expression) fs
  else match fs !! mergedPcapPath with
       | Some data => (None, <[filteredPcapPath := data]> fs)
       | None => (Some ("Command failed: " +:+ copyCommand), fs)
       end.

(** The filter step fails with [message]: the filter command or the
    decoder of the filtered capture reports an error, or the decoded record
    is missing or does not parse. *)
Inductive filterFails (env : Env) (expression : string) (fs : gmap string string)
  : string -> Prop :=
| filter_tool_fails (msg : string) (fs3 : gmap string string) :
    runFilter env expression fs = (Some msg, fs3) ->
    filterFails env expression fs ("Filtering failed: " +:+ messageOrString (Error msg))
| filtered_decode_fails (fs3 : gmap string string) (msg : string)
    (fs4 : gmap string string) :
    runFilter env expression fs = (None, fs3) ->
    exec_tool env (tsharkCommand filteredPcapPath filteredJsonPath) fs3 = (Some msg, fs4) ->
    filterFails env expression fs ("Filtering failed: " +:+ messageOrString (Error msg))
| filtered_record_missing (fs3 fs4 : gmap string string) :
    runFilter env expression fs = (None, fs3) ->
    exec_tool env (tsharkCommand filteredPcapPath filteredJsonPath) fs3 = (None, fs4) ->
    fs4 !! filteredJsonPath = None ->
    filterFails env expression fs "Filtered JSON file not found after filtering."
| filtered_record_unreadable (fs3 fs4 : gmap string string) (data : string) (e : JsError) :
    runFilter env expression fs = (None, fs3) ->
    exec_tool env (tsharkCommand filteredPcapPath filteredJsonPath) fs3 = (None, fs4) ->
    fs4 !! filteredJsonPath = Some data ->
    JSON_parse env data = Throw e ->
    filterFails env expression fs ("Filtering failed: " +:+ messageOrString e).

(** The ways the pipeline of [stop] can fail. *)
Inductive PipelineFailure : Type :=
| MergeFailed (message : string)
| DecodeFailed (message : string)
| FilterFailed (record : JsVal) (message : string).

(** The captures handed to the merge tool. *)
Definition mergeInputs (fs : gmap string string) : list string :=
  pcapFilesOf pcapDir (readdirPure pcapDir (delete mergedPcapPath fs)).

(** The pipeline of a [stop] requested in state [st] fails: there is
    nothing to merge or the merge tool reports an error; or the merge
    succeeds and the decoder of the merged capture reports an error; or
    both succeed, the persisted config and the decoded record are read and
    the config compiles, and the filter step fails. *)
Inductive stopFails (env : Env) (st : State) : PipelineFailure -> Prop :=
| nothing_to_merge :
    mergeInputs (files st) = [] ->
    stopFails env st (MergeFailed "No .pcap files found to merge.")
| merge_tool_fails (msg : string) (fs1 : gmap string string) :
    mergeInputs (files st) <> [] ->
    exec_tool env (mergecapCommand mergedPcapPath (mergeInputs (files st)))
      (delete mergedPcapPath (files st)) = (Some msg, fs1) ->
    stopFails env st (MergeFailed msg)
| merged_decode_fails (fs1 : gmap string string) (msg : string)
    (fs2 : gmap string string) :
    mergeInputs (files st) <> [] ->
    exec_tool env (mergecapCommand mergedPcapPath (mergeInputs (files st)))
      (delete mergedPcapPath (files st)) = (None, fs1) ->
    exec_tool env (tsharkCommand mergedPcapPath outputJsonPath) fs1 = (Some msg, fs2) ->
    stopFails env st (DecodeFailed msg)
| filter_step_fails (fs1 fs2 : gmap string string) (text : string) (config : JsVal)
    (expression jsonData : string) (record : JsVal) (msg : string) :
    mergeInputs (files st) <> [] ->
    exec_tool env (mergecapCommand mergedPcapPath (mergeInputs (files st)))
      (delete mergedPcapPath (files st)) = (None, fs1) ->
    exec_tool env (tsharkCommand mergedPcapPath outputJsonPath) fs1 = (None, fs2) ->
    fs2 !! configPath = Some text ->
    JSON_parse env text = Ok config ->
    truthy config = true ->
    buildWiresharkFilterFromConfig config = Ok expression ->
    fs2 !! outputJsonPath = Some jsonData ->
    JSON_parse env jsonData = Ok record ->
    filterFails env expression fs2 msg ->
    stopFails env st (FilterFailed record msg).

(** How a failure is reported: a merge or decode failure as the error of
    the operation, a filter failure as a degraded success that carries the
    per-agent outcomes, the unfiltered record and the filter error. *)
Definition reported (env : Env) (st : State) (failure : PipelineFailure) : Response :=
  match failure with
  | MergeFailed msg | DecodeFailed msg =>
      mkResponse 500
        (Text (if Js.Boolean msg then msg else "Failed to process pcap files."))
  | FilterFailed record msg =>
      mkResponse 200
        (Json (JObj [("message", JStr "Stop signal sent to all scan dockers.");
                     ("results", JArr (broadcastOutcomes env "stop" (containerNames st)));
                     ("pcapData", record);
                     ("filterStatus", JStr "ko");
                     ("error", JStr msg)]))
  end.

(** * Properties *)

(** ** Strings *)

Lemma Boolean_true_iff (s : string) : Js.Boolean s = true <-> s <> EmptyString.
Proof. destruct s; simpl; split; congruence. Qed.

Lemma Boolean_append_l (a b : string) : Js.Boolean a = true -> Js.Boolean (a +:+ b) = true.
Proof. destruct a; simpl; [discriminate | reflexivity]. Qed.

Lemma survivingValues_nonblank (raw : string) :
  Forall (fun v => Js.Boolean v = true) (survivingValues raw).
Proof.
  unfold survivingValues. apply List.Forall_forall. intros v Hv.
  apply List.filter_In in Hv. tauto.
Qed.

(** ** The compiler agrees with its field-by-field reading *)

Section CompilerRefinement.

Variable config : JsVal.

Lemma join_or_nonempty (cb : string -> string) (values : list string) :
  keepsNonEmpty cb -> values <> [] -> Forall (fun v => Js.Boolean v = true) values ->
  Js.Boolean (Js.join " or " (map cb values)) = true.
Proof.
  intros Hcb Hne Hall. destruct values as [|v vs]; [congruence|].
  inversion Hall as [|? ? Hv Hvs]; subst.
  destruct vs as [|w ws]; simpl.
  - auto.
  - apply Boolean_append_l. auto.
Qed.

Lemma multiFilter_clauses (field : string) (cb : string -> string) :
  keepsNonEmpty cb ->
  match fieldClauses config field (ValueList cb) with
  | Ok cs => exists r, multiFilter config field cb = Ok r
                       /\ forall filters, pushGroup filters r = filters ++ cs
  | Throw e => multiFilter config field cb = Throw e
  end.
Proof.
  intros Hcb. unfold fieldClauses, multiFilter.
  destruct (getField config field) as [v|].
  2:{ exists None. split; [done|]. intros. simpl. by rewrite app_nil_r. }
  destruct (truthy v) eqn:Hv; simpl.
  2:{ exists None. split; [done|]. intros. simpl. by rewrite app_nil_r. }
  destruct v; try reflexivity.
  pose proof (survivingValues_nonblank s) as Hall.
  destruct (survivingValues s) as [|v vs]; simpl.
  - exists None. split; [done|]. intros. simpl. by rewrite app_nil_r.
  - eexists; split; [reflexivity|]. intros filters. unfold pushGroup.
    assert (Js.Boolean (Js.join " or " (map cb (v :: vs))) = true) as HB
      by (apply join_or_nonempty; auto; discriminate).
    simpl in HB. rewrite HB. reflexivity.
Qed.

Lemma pushBound_clauses (field op : string) :
  match fieldClauses config field (Bound op) with
  | Ok cs => forall filters, pushBound config filters field op = Ok (filters ++ cs)
  | Throw e => forall filters, pushBound config filters field op = Throw e
  end.
Proof.
  unfold fieldClauses, pushBound.
  destruct (getField config field) as [v|]; [|intros; by rewrite app_nil_r].
  destruct (truthy v); simpl; [|intros; by rewrite app_nil_r].
  by destruct (toString v).
Qed.

Lemma pushTimeRange_clauses :
  match fieldClauses config "timeRange" TimeRange with
  | Ok cs => forall filters, pushTimeRange config filters = Ok (filters ++ cs)
  | Throw e => forall filters, pushTimeRange config filters = Throw e
  end.
Proof.
  unfold fieldClauses, pushTimeRange, timeClauses.
  destruct (getField config "timeRange") as [v|]; [|intros; by rewrite app_nil_r].
  destruct (truthy v); simpl; [|intros; by rewrite app_nil_r].
  destruct v; try reflexivity.
  destruct (Js.split "/" s !! 0%nat) as [a|]; [destruct (Js.Boolean a)|];
    (destruct (Js.split "/" s !! 1%nat) as [b|]; [destruct (Js.Boolean b)|]);
    intros; simpl; rewrite <- ?app_assoc, ?app_nil_r; reflexivity.
Qed.

Lemma keepsNonEmpty_prefix (pre : string) (rest : string -> string) :
  Js.Boolean pre = true -> keepsNonEmpty (fun v => pre +:+ rest v).
Proof. intros Hp v _. by apply Boolean_append_l. Qed.

Lemma keepsNonEmpty_toLowerCase : keepsNonEmpty Js.toLowerCase.
Proof. intros [|c r]; simpl; [discriminate | reflexivity]. Qed.

Ltac reduce_bind :=
  cbv beta iota zeta delta [mbind mret Result_bind Result_ret].

Ltac value_list_step field :=
  match goal with
  | |- context [multiFilter config field ?cb] =>
      let H := fresh "H" in
      assert (keepsNonEmpty cb) as H
        by (first [ exact keepsNonEmpty_toLowerCase
                  | apply (keepsNonEmpty_prefix _ (fun v => _)); reflexivity ]);
      apply (multiFilter_clauses field cb) in H;
      destruct (fieldClauses config field (ValueList cb)) as [?cs|?e];
      [ let Hp := fresh "Hp" in
        destruct H as (?r & -> & Hp); reduce_bind; rewrite Hp; clear Hp
      | rewrite H; reflexivity ]
  end.

Ltac bound_step field :=
  match goal with
  | |- context [pushBound config _ field ?op] =>
      let Hp := fresh "Hp" in
      pose proof (pushBound_clauses field op) as Hp;
      destruct (fieldClauses config field (Bound op)) as [?cs|?e];
      [rewrite Hp; reduce_bind; clear Hp | rewrite Hp; reflexivity]
  end.

(** The source's sequence of pushes computes the field-by-field reading,
    exceptions included. *)
Lemma compile_by_field :
  buildWiresharkFilterFromConfig config = compileByField config.
Proof.
  unfold buildWiresharkFilterFromConfig, compileByField, fieldTable.
  cbn [collectClauses].
  value_list_step "ip". value_list_step "port". value_list_step "protocol".
  value_list_step "sourceIp". value_list_step "destinationIp".
  value_list_step "sourcePort". value_list_step "destinationPort".
  bound_step "packetSizeMin". bound_step "packetSizeMax".
  pose proof pushTimeRange_clauses as Ht.
  destruct (fieldClauses config "timeRange" TimeRange) as [cs8|e];
    [rewrite Ht; reduce_bind; clear Ht | rewrite Ht; reflexivity].
  value_list_step "tcpFlags". value_list_step "payloadContent".
  value_list_step "macAddress".
  rewrite app_nil_l, app_nil_r, <- !app_assoc. reflexivity.
Qed.

End CompilerRefinement.

(** ** Lower-casing commutes with splitting and trimming *)

Lemma toLowerChar_comma (c : ascii) :
  Ascii.eqb (Js.toLowerChar c) "," = Ascii.eqb c ",".
Proof. destruct c as [[] [] [] [] [] [] [] []]; vm_compute; reflexivity. Qed.

Lemma toLowerChar_whitespace (c : ascii) :
  Js.isWhiteSpace (Js.toLowerChar c) = Js.isWhiteSpace c.
Proof. destruct c as [[] [] [] [] [] [] [] []]; vm_compute; reflexivity. Qed.

Lemma split_toLowerCase (s : string) :
  Js.split "," (Js.toLowerCase s) = map Js.toLowerCase (Js.split "," s).
Proof.
  induction s as [|c r IH]; simpl; [reflexivity|].
  rewrite toLowerChar_comma, IH.
  destruct (Ascii.eqb c ","); [reflexivity|].
  destruct (Js.split "," r); reflexivity.
Qed.

Lemma trimStart_toLowerCase (s : string) :
  Js.trimStart (Js.toLowerCase s) = Js.toLowerCase (Js.trimStart s).
Proof.
  induction s as [|c r IH]; simpl; [reflexivity|].
  rewrite toLowerChar_whitespace, IH.
  destruct (Js.isWhiteSpace c); reflexivity.
Qed.

Lemma trimEnd_toLowerCase (s : string) :
  Js.trimEnd (Js.toLowerCase s) = Js.toLowerCase (Js.trimEnd s).
Proof.
  induction s as [|c r IH]; simpl; [reflexivity|].
  rewrite toLowerChar_whitespace, IH.
  destruct (Js.trimEnd r); simpl; [|reflexivity].
  destruct (Js.isWhiteSpace c); reflexivity.
Qed.

Lemma trim_toLowerCase (s : string) :
  Js.trim (Js.toLowerCase s) = Js.toLowerCase (Js.trim s).
Proof. unfold Js.trim. by rewrite trimStart_toLowerCase, trimEnd_toLowerCase. Qed.

Lemma Boolean_toLowerCase (s : string) : Js.Boolean (Js.toLowerCase s) = Js.Boolean s.
Proof. destruct s; reflexivity. Qed.

Lemma survivingValues_toLowerCase (s : string) :
  survivingValues (Js.toLowerCase s) = map Js.toLowerCase (survivingValues s).
Proof.
  unfold survivingValues. rewrite split_toLowerCase.
  induction (Js.split "," s) as [|x l IH]; simpl; [reflexivity|].
  rewrite trim_toLowerCase, Boolean_toLowerCase, IH.
  destruct (Js.Boolean (Js.trim x)); reflexivity.
Qed.

Lemma orGroup_map (pred inner : string -> string) (vs ws : list string) :
  map inner vs = map inner ws ->
  orGroup (fun v => pred (inner v)) vs = orGroup (fun v => pred (inner v)) ws.
Proof.
  intros H. unfold orGroup.
  rewrite <- (map_map inner pred vs), <- (map_map inner pred ws), H.
  destruct vs, ws; try discriminate; reflexivity.
Qed.

Lemma orGroup_case (pred : string -> string) (s t : string) :
  Js.toLowerCase s = Js.toLowerCase t ->
  orGroup (fun v => pred (Js.toLowerCase v)) (survivingValues s)
  = orGroup (fun v => pred (Js.toLowerCase v)) (survivingValues t).
Proof.
  intros H. apply orGroup_map.
  by rewrite <- !survivingValues_toLowerCase, H.
Qed.

(** ** Trimming is idempotent *)

Lemma trimStart_fixed (s : string) :
  startsNonWhiteSpace s = true -> Js.trimStart s = s.
Proof. destruct s as [|c r]; simpl; [done|]. by destruct (Js.isWhiteSpace c). Qed.

Lemma trimStart_starts (s : string) : startsNonWhiteSpace (Js.trimStart s) = true.
Proof.
  induction s as [|c r IH]; simpl; [done|].
  destruct (Js.isWhiteSpace c) eqn:E; [done|]. simpl. by rewrite E.
Qed.

Lemma trimEnd_starts (s : string) :
  startsNonWhiteSpace s = true -> startsNonWhiteSpace (Js.trimEnd s) = true.
Proof.
  destruct s as [|c r]; simpl; [done|]. intros Hc.
  destruct (Js.trimEnd r); simpl; [|done].
  destruct (Js.isWhiteSpace c) eqn:E; simpl; [done|]. by rewrite E.
Qed.

Lemma trimEnd_idempotent (s : string) : Js.trimEnd (Js.trimEnd s) = Js.trimEnd s.
Proof.
  induction s as [|c r IH]; simpl; [done|].
  destruct (Js.trimEnd r) as [|a b] eqn:E.
  - destruct (Js.isWhiteSpace c) eqn:Ec; simpl; [done|]. by rewrite Ec.
  - change (Js.trimEnd (String c (String a b))) with
      (match Js.trimEnd (String a b) with
       | EmptyString => if Js.isWhiteSpace c then EmptyString else String c EmptyString
       | r' => String c r'
       end).
    by rewrite IH.
Qed.

Lemma trim_idempotent (s : string) : Js.trim (Js.trim s) = Js.trim s.
Proof.
  unfold Js.trim.
  rewrite (trimStart_fixed (Js.trimEnd (Js.trimStart s))).
  - apply trimEnd_idempotent.
  - apply trimEnd_starts, trimStart_starts.
Qed.

Lemma survivingValues_trimmed (raw : string) :
  Forall (fun v => v <> EmptyString /\ Js.trim v = v) (survivingValues raw).
Proof.
  unfold survivingValues. apply List.Forall_forall. intros v Hv.
  apply List.filter_In in Hv as [Hin Hb].
  apply List.in_map_iff in Hin as (x & <- & _).
  split; [by apply Boolean_true_iff | apply trim_idempotent].
Qed.

(** ** The compiler reads the config only through the recognised fields *)

Lemma fieldClauses_ext (c c' : JsVal) (field : string) (kind : FieldKind) :
  getField c field = getField c' field ->
  fieldClauses c field kind = fieldClauses c' field kind.
Proof. unfold fieldClauses. by intros ->. Qed.

Lemma collectClauses_ext (c c' : JsVal) (table : list (string * FieldKind)) :
  Forall (fun p => fieldClauses c p.1 p.2 = fieldClauses c' p.1 p.2) table ->
  collectClauses c table = collectClauses c' table.
Proof.
  induction 1 as [|[f k] rest Hp _ IH]; simpl; [reflexivity|].
  simpl in Hp. by rewrite Hp, IH.
Qed.

Lemma compile_ext (c c' : JsVal) :
  Forall (fun p => fieldClauses c p.1 p.2 = fieldClauses c' p.1 p.2) fieldTable ->
  buildWiresharkFilterFromConfig c = buildWiresharkFilterFromConfig c'.
Proof.
  intros H. rewrite !compile_by_field. unfold compileByField.
  by rewrite (collectClauses_ext c c' fieldTable H).
Qed.

Lemma assoc_None (k : string) (props : list (string * JsVal)) :
  k ∉ map fst props -> assoc k props = None.
Proof.
  induction props as [|[k' v] r IH]; simpl; [done|]. intros Hk.
  apply not_elem_of_cons in Hk as [Hne Hr].
  destruct (String.eqb_spec k k'); [done | auto].
Qed.

Lemma assoc_Permutation (k : string) (props props' : list (string * JsVal)) :
  NoDup (map fst props) -> props ≡ₚ props' -> assoc k props = assoc k props'.
Proof.
  intros Hnd Hp. induction Hp as [|[k1 v1] l l' Hp IH|[k1 v1] [k2 v2] l|l1 l2 l3 H12 IH12 H23 IH23].
  - reflexivity.
  - simpl in *. apply NoDup_cons in Hnd as [_ Hnd]. by rewrite IH.
  - simpl in *. apply NoDup_cons in Hnd as [Hne _].
    apply not_elem_of_cons in Hne as [Hne _].
    destruct (String.eqb_spec k k1), (String.eqb_spec k k2); congruence.
  - rewrite IH12 by done. apply IH23. by rewrite <- H12.
Qed.

Lemma assoc_removeField (field g : string) (props : list (string * JsVal)) :
  assoc g (removeField field props)
  = if String.eqb field g then None else assoc g props.
Proof.
  induction props as [|[k v] r IH]; simpl.
  - by destruct (String.eqb field g).
  - destruct (String.eqb_spec field k) as [->|Hk]; simpl.
    + rewrite IH. destruct (String.eqb_spec k g) as [->|Hg]; [done|].
      destruct (String.eqb_spec g k); congruence.
    + rewrite IH. destruct (String.eqb_spec g k) as [->|Hg]; [|done].
      destruct (String.eqb_spec field k); congruence.
Qed.

Lemma fieldTable_valueList (g : string) (k : FieldKind) :
  (g, k) ∈ fieldTable -> g ∈ valueListFields -> exists pred, k = ValueList pred.
Proof.
  unfold fieldTable. intros H Hv.
  repeat (apply elem_of_cons in H as [H|H];
          [inversion H; subst; clear H;
           first [ by eexists | exfalso; revert Hv; by apply (bool_decide_eq_false_1 _) ] |]).
  by apply elem_of_nil in H.
Qed.

Lemma valueListFields_table (field : string) :
  field ∈ valueListFields -> exists pred, (field, ValueList pred) ∈ fieldTable.
Proof.
  intros H. unfold valueListFields, fieldTable in H. simpl in H.
  repeat (apply elem_of_cons in H as [->|H];
          [eexists; unfold fieldTable;
           repeat (apply elem_of_cons; first [ left; reflexivity | right ]) |]).
  by apply elem_of_nil in H.
Qed.

Lemma fieldClauses_unpopulated (c : JsVal) (p : string * FieldKind) :
  unpopulatedField c p = true -> fieldClauses c p.1 p.2 = Ok [].
Proof.
  unfold unpopulatedField, fieldClauses. destruct p as [f k]; simpl.
  destruct (getField c f) as [v|]; [|done].
  destruct (truthy v); simpl; [|done].
  destruct k, v; try discriminate;
    intros H%bool_decide_eq_true; by rewrite H.
Qed.

Lemma collectClauses_unpopulated (c : JsVal) (table : list (string * FieldKind)) :
  forallb (unpopulatedField c) table = true -> collectClauses c table = Ok [].
Proof.
  induction table as [|[f k] rest IH]; simpl; [done|].
  intros [Hp Hr]%andb_true_iff.
  apply fieldClauses_unpopulated in Hp. simpl in Hp. by rewrite Hp, IH.
Qed.

(** A config none of whose recognised fields is populated compiles to the
    empty expression. *)
Lemma compile_unpopulated (c : JsVal) :
  unpopulated c = true -> buildWiresharkFilterFromConfig c = Ok EmptyString.
Proof.
  intros H. rewrite compile_by_field. unfold compileByField.
  by rewrite collectClauses_unpopulated.
Qed.

Lemma assoc_caseVariant (k : string) (props props' : list (string * JsVal)) :
  caseVariant props props' ->
  match assoc k props, assoc k props' with
  | None, None => True
  | Some v, Some w =>
      v = w \/
      caseInsensitiveField k = true /\
      exists s t, v = JStr s /\ w = JStr t /\ Js.toLowerCase s = Js.toLowerCase t
  | _, _ => False
  end.
Proof.
  induction 1 as [|[k1 v1] [k2 v2] l l' [Hk Hv] _ IH]; simpl in *; [done|].
  subst k2. destruct (String.eqb_spec k k1) as [->|]; [exact Hv | exact IH].
Qed.

Lemma Boolean_case (s t : string) :
  Js.toLowerCase s = Js.toLowerCase t -> Js.Boolean s = Js.Boolean t.
Proof. intros H. by rewrite <- (Boolean_toLowerCase s), H, Boolean_toLowerCase. Qed.

Lemma fieldClauses_case_one (props props' : list (string * JsVal))
    (field : string) (kind : FieldKind) :
  caseVariant props props' ->
  caseInsensitiveField field = false
  \/ (exists pred, kind = ValueList (fun v => pred (Js.toLowerCase v))) ->
  fieldClauses (JObj props) field kind = fieldClauses (JObj props') field kind.
Proof.
  intros Hcv Hk. pose proof (assoc_caseVariant field _ _ Hcv) as H.
  unfold fieldClauses, getField.
  destruct (assoc field props) as [v|], (assoc field props') as [w|]; try done.
  destruct H as [->|[Hc (s & t & -> & -> & Hst)]]; [done|].
  destruct Hk as [Hk|[pred ->]]; [congruence|].
  simpl. rewrite (Boolean_case _ _ Hst). destruct (Js.Boolean t); simpl; [|done].
  f_equal. by apply orGroup_case.
Qed.

Lemma fieldClauses_caseVariant (props props' : list (string * JsVal)) :
  caseVariant props props' ->
  Forall (fun p => fieldClauses (JObj props) p.1 p.2 = fieldClauses (JObj props') p.1 p.2)
    fieldTable.
Proof.
  intros Hcv. unfold fieldTable.
  repeat apply List.Forall_cons; try apply List.Forall_nil;
    cbn [fst snd]; apply fieldClauses_case_one; try done;
    first [ by left | right ].
  - by exists (fun x => x).
  - by exists (fun l => "tcp.flags." +:+ l +:+ " == 1").
Qed.

(** ** The filter compiler: claims *)

Example compile_packet_size_bounds :
  buildWiresharkFilterFromConfig
    (JObj [("packetSizeMin", JStr "64"); ("packetSizeMax", JStr "1500")])
  = Ok "frame.len >= 64 and frame.len <= 1500".
Proof. vm_compute. reflexivity. Qed.

Example compile_every_field :
  buildWiresharkFilterFromConfig
    (JObj [("macAddress", JStr "aa:bb:cc:dd:ee:ff"); ("tcpFlags", JStr "SYN, Ack");
           ("timeRange", JStr "2024-01-01/2024-01-02"); ("packetSizeMin", JNum 64);
           ("protocol", JStr "TCP,udp"); ("port", JStr "80,443"); ("ip", JStr "10.0.0.1")])
  = Ok ("(ip.addr == 10.0.0.1) and "
        +:+ "((tcp.port == 80 or udp.port == 80) or (tcp.port == 443 or udp.port == 443)) and "
        +:+ "(tcp or udp) and frame.len >= 64 and "
        +:+ "frame.time >= " +:+ Js.dquote +:+ "2024-01-01" +:+ Js.dquote +:+ " and "
        +:+ "frame.time <= " +:+ Js.dquote +:+ "2024-01-02" +:+ Js.dquote +:+ " and "
        +:+ "(tcp.flags.syn == 1 or tcp.flags.ack == 1) and "
        +:+ "(eth.addr == aa:bb:cc:dd:ee:ff)").
Proof. vm_compute. reflexivity. Qed.

(** C5, as stated, fails: for [packetSizeMin] (and likewise
    [packetSizeMax] and [timeRange]) the value is used as it stands, so a
    blank value is not treated as absent. *)
Lemma blank_packetSizeMin_not_absent :
  "packetSizeMin" ∈ canonicalOrder /\ ~ blankTreatedAsAbsent "packetSizeMin".
Proof.
  split; [apply (bool_decide_unpack _); vm_compute; exact I|].
  intros H. specialize (H [("packetSizeMin", JStr " ")] " " eq_refl eq_refl).
  vm_compute in H. discriminate H.
Qed.

(** C10.  Two configs that differ only in the letter case of the values of
    [protocol] and [tcpFlags] compile to the same outcome: protocol and
    flag names are lower-cased before they are emitted. *)
Theorem compile_case_invariant (props props' : list (string * JsVal)) :
  caseVariant props props' ->
  buildWiresharkFilterFromConfig (JObj props)
  = buildWiresharkFilterFromConfig (JObj props').
Proof. intros H. by apply compile_ext, fieldClauses_caseVariant. Qed.

Lemma compile_case_invariant_witness :
  caseVariant
    [("ip", JStr "1.2.3.4"); ("protocol", JStr "TCP, Udp"); ("tcpFlags", JStr "SYN,ack")]
    [("ip", JStr "1.2.3.4"); ("protocol", JStr "tcp, UDP"); ("tcpFlags", JStr "syn,ACK")]
  /\ buildWiresharkFilterFromConfig
       (JObj [("ip", JStr "1.2.3.4"); ("protocol", JStr "TCP, Udp");
              ("tcpFlags", JStr "SYN,ack")])
     = buildWiresharkFilterFromConfig
         (JObj [("ip", JStr "1.2.3.4"); ("protocol", JStr "tcp, UDP");
                ("tcpFlags", JStr "syn,ACK")]).
Proof.
  assert (caseVariant
    [("ip", JStr "1.2.3.4"); ("protocol", JStr "TCP, Udp"); ("tcpFlags", JStr "SYN,ack")]
    [("ip", JStr "1.2.3.4"); ("protocol", JStr "tcp, UDP"); ("tcpFlags", JStr "syn,ACK")])
    as Hcv.
  { repeat apply List.Forall2_cons; try apply List.Forall2_nil;
      (split; [reflexivity|]);
      first [ left; reflexivity
            | right; split; [reflexivity|]; do 2 eexists;
              repeat split; reflexivity ]. }
  split; [exact Hcv|]. exact (compile_case_invariant _ _ Hcv).
Defined.

Example compile_case_example :
  buildWiresharkFilterFromConfig
    (JObj [("protocol", JStr "TCP, Udp"); ("tcpFlags", JStr "SYN,ack")])
  = Ok "(tcp or udp) and (tcp.flags.syn == 1 or tcp.flags.ack == 1)".
Proof. vm_compute. reflexivity. Qed.

(** ** The agent registry *)

Lemma register_run (containerName : string) (st : State) :
  register containerName st
  = (Ok (send ("Container name received: " +:+ containerName)),
     if bool_decide (containerName ∈ containerNames st) then st
     else mkState (files st) (containerNames st ++ [containerName]) (log st)).
Proof. reflexivity. Qed.

Lemma registerAll_cons (n : string) (rest : list string) (st : State) :
  registerAll (n :: rest) st
  = ((register n st).1 :: (registerAll rest (register n st).2).1,
     (registerAll rest (register n st).2).2).
Proof.
  cbn [registerAll]. destruct (register n st) as [r st1]. cbn [fst snd].
  by destruct (registerAll rest st1).
Qed.

Lemma registerAll_spec (names : list string) (st : State) :
  NoDup (containerNames st) ->
  (registerAll names st).1
  = map (fun n => Ok (send ("Container name received: " +:+ n))) names
  /\ NoDup (containerNames (registerAll names st).2)
  /\ (list_to_set (containerNames (registerAll names st).2) : gset string)
     = list_to_set (containerNames st) ∪ list_to_set names.
Proof.
  revert st. induction names as [|n rest IH]; intros st Hnd.
  - simpl. split; [done|]. split; [done|]. set_solver.
  - rewrite registerAll_cons, register_run. cbn [fst snd].
    set (st1 := if bool_decide (n ∈ containerNames st) then st
                else mkState (files st) (containerNames st ++ [n]) (log st)).
    assert (NoDup (containerNames st1)) as Hnd1.
    { subst st1. case_bool_decide; [done|]. simpl.
      apply NoDup_app. split; [done|]. split; [|apply NoDup_singleton].
      intros x Hx Hn. apply list_elem_of_singleton in Hn. by subst. }
    assert ((list_to_set (containerNames st1) : gset string)
            = list_to_set (containerNames st) ∪ {[n]}) as Hset.
    { subst st1. case_bool_decide as Hin; simpl.
      - apply (elem_of_list_to_set (C := gset string)) in Hin. set_solver.
      - rewrite list_to_set_app_L. set_solver. }
    destruct (IH st1 Hnd1) as (Hr & Hn & Hs).
    split; [by rewrite Hr|]. split; [done|].
    rewrite Hs, Hset. set_solver.
Qed.

(** C8.  Starting from the empty registry, any sequence of registrations,
    repeats included, is answered without error and leaves as many
    identities as there are distinct ones in the sequence; and registering
    an identity a second time changes nothing. *)
Theorem register_idempotent_distinct_count
    (names : list string) (fs : gmap string string) (lg : list LogEntry)
    (name : string) (st : State) :
  (registerAll names (mkState fs [] lg)).1
  = map (fun n => Ok (send ("Container name received: " +:+ n))) names
  /\ length (containerNames (registerAll names (mkState fs [] lg)).2)
     = size (list_to_set names : gset string)
  /\ NoDup (containerNames (registerAll names (mkState fs [] lg)).2)
  /\ register name (register name st).2
     = (Ok (send ("Container name received: " +:+ name)), (register name st).2).
Proof.
  destruct (registerAll_spec names (mkState fs [] lg)) as (Hr & Hn & Hs);
    [apply NoDup_nil_2|].
  split; [exact Hr|]. split; [|split; [exact Hn|]].
  - rewrite <- (size_list_to_set (C := gset string)) by exact Hn.
    rewrite Hs. simpl. f_equal. set_solver.
  - rewrite (register_run name (register name st).2). f_equal.
    rewrite register_run. simpl.
    case_bool_decide as Hin; [done|]. exfalso. apply Hin.
    case_bool_decide; simpl; [done|]. set_solver.
Qed.

Example register_twice :
  containerNames
    (registerAll ["scan1"; "scan2"; "scan1"; "scan1"] (mkState ∅ [] [])).2
  = ["scan1"; "scan2"].
Proof. vm_compute. reflexivity. Qed.

(** ** Running the monad *)

Lemma bind_run {A B} (m : M A) (f : A -> M B) (st : State) :
  (m ≫= f) st
  = match m st with
    | (Ok a, st') => f a st'
    | (Throw e, st') => (Throw e, st')
    end.
Proof. reflexivity. Qed.

Lemma run_outcome {A B} (r : A * B) (a : A) : r.1 = a -> r = (a, r.2).
Proof. destruct r. by intros <-. Qed.

Ltac paths_ne :=
  let H := fresh in intros H; vm_compute in H; discriminate H.

Lemma State_eta (st : State) :
  mkState (files st) (containerNames st) (log st) = st.
Proof. by destruct st. Qed.

Lemma unlinkIfExists_run (path : string) (st : State) :
  unlinkIfExists path st
  = (Ok tt, mkState (delete path (files st)) (containerNames st) (log st)).
Proof.
  unfold unlinkIfExists, existsSync, unlink, getFiles, setFiles.
  rewrite !bind_run. cbn [mret M_ret].
  case_bool_decide as Hex.
  - rewrite bind_run. destruct Hex as [data Hdata]. by rewrite Hdata.
  - apply eq_None_not_Some in Hex. rewrite delete_id by done.
    by rewrite State_eta.
Qed.

(** ** Reset *)

(** C9.  For every state, [reset] answers 200, removes the persisted
    config and the filtered capture and record if present, and changes
    nothing else: the merged capture, every agent's raw capture, the
    registry and the log are as before. *)
Theorem cleanConf_frame (st : State) (containerName : string) :
  (cleanConf st).1 = Ok (json 200 [("message", Some (JStr "Config and filtered files cleaned."))])
  /\ files (cleanConf st).2
     = delete filteredJsonPath (delete filteredPcapPath (delete configPath (files st)))
  /\ files (cleanConf st).2 !! configPath = None
  /\ files (cleanConf st).2 !! filteredPcapPath = None
  /\ files (cleanConf st).2 !! filteredJsonPath = None
  /\ files (cleanConf st).2 !! mergedPcapPath = files st !! mergedPcapPath
  /\ files (cleanConf st).2 !! rawCapturePath containerName
     = files st !! rawCapturePath containerName
  /\ containerNames (cleanConf st).2 = containerNames st
  /\ log (cleanConf st).2 = log st.
Proof.
  assert (cleanConf st
          = (Ok (json 200 [("message", Some (JStr "Config and filtered files cleaned."))]),
             mkState (delete filteredJsonPath
                        (delete filteredPcapPath (delete configPath (files st))))
                     (containerNames st) (log st))) as ->.
  { unfold cleanConf, try_catch. cbn [forEach].
    rewrite !bind_run, unlinkIfExists_run.
    rewrite !bind_run, unlinkIfExists_run.
    rewrite !bind_run, unlinkIfExists_run.
    reflexivity. }
  cbn [fst snd files containerNames log].
  repeat split.
  - rewrite lookup_delete_ne by paths_ne. rewrite lookup_delete_ne by paths_ne.
    apply lookup_delete_eq.
  - rewrite lookup_delete_ne by paths_ne. apply lookup_delete_eq.
  - apply lookup_delete_eq.
  - by rewrite !lookup_delete_ne by paths_ne.
  - by rewrite !lookup_delete_ne by paths_ne.
Qed.

(** ** The directory listing *)

Lemma append_cons (x : ascii) (a b : string) : String x a +:+ b = String x (a +:+ b).
Proof. reflexivity. Qed.

Lemma append_assoc (a b c : string) : (a +:+ b) +:+ c = a +:+ (b +:+ c).
Proof. induction a as [|x a IH]; [done|]. by rewrite !append_cons, IH. Qed.

Lemma stripPrefix_Some (pre s r : string) :
  stripPrefix pre s = Some r <-> s = pre +:+ r.
Proof.
  revert s. induction pre as [|a pre IH]; intros s; simpl.
  - split; [by intros [= ->] | by intros ->].
  - rewrite append_cons.
    destruct s as [|b s]; [split; discriminate|].
    destruct (Ascii.eqb_spec a b) as [->|Hne].
    + rewrite IH. split; [by intros -> | by intros [= ->]].
    + split; [done|]. intros [= ? ?]. done.
Qed.

Lemma entryName_Some (dir path name : string) :
  entryName dir path = Some name
  <-> path = path_join dir name /\ Js.Boolean name = true /\ hasSlash name = false.
Proof.
  unfold entryName, path_join.
  destruct (stripPrefix (dir +:+ "/") path) as [r|] eqn:Hs.
  - apply stripPrefix_Some in Hs. rewrite append_assoc in Hs. subst path.
    destruct (Js.Boolean r) eqn:Hb, (hasSlash r) eqn:Hh; simpl; split;
      try (intros [= <-]; done);
      try (intros (Heq%(inj (String.append dir))%(inj (String.append "/")) & ? & ?);
           subst; congruence).
  - split; [done|]. intros (-> & _ & _).
    assert (stripPrefix (dir +:+ "/") (dir +:+ "/" +:+ name) = Some name) as Hx
      by (apply stripPrefix_Some; by rewrite append_assoc).
    congruence.
Qed.

Lemma elem_of_readdirPure (dir name : string) (fs : gmap string string) :
  name ∈ readdirPure dir fs
  <-> is_Some (fs !! path_join dir name)
      /\ Js.Boolean name = true /\ hasSlash name = false.
Proof.
  unfold readdirPure. rewrite list_elem_of_omap. split.
  - intros (path & Hin & Hname). apply entryName_Some in Hname as (-> & Hb & Hh).
    split; [|done]. apply list_elem_of_In, List.in_map_iff in Hin as ([k v] & Hk & Hin).
    simpl in Hk. subst k. apply list_elem_of_In, elem_of_map_to_list in Hin. eauto.
  - intros ([v Hv] & Hb & Hh). exists (path_join dir name). split.
    + apply list_elem_of_In, List.in_map_iff. exists (path_join dir name, v).
      split; [done|]. by apply list_elem_of_In, elem_of_map_to_list.
    + by apply entryName_Some.
Qed.

Lemma filter_nil_iff {A} (f : A -> bool) (l : list A) :
  (forall x, x ∈ l -> f x = false) -> List.filter f l = [].
Proof.
  induction l as [|x l IH]; simpl; [done|]. intros H.
  rewrite (H x) by apply elem_of_list_here || by left.
  apply IH. intros y Hy. apply H. by right.
Qed.

Lemma path_join_inj (dir a b : string) : path_join dir a = path_join dir b -> a = b.
Proof.
  unfold path_join. by intros ?%(inj (String.append dir))%(inj (String.append "/")).
Qed.

(** Without raw captures and without a left-over filtered capture, a
    well-formed store offers nothing to merge once the stale merged
    capture is gone. *)
Lemma no_pcap_to_merge (fs : gmap string string) :
  wellFormedStore fs = true ->
  rawCaptures fs = [] ->
  fs !! filteredPcapPath = None ->
  pcapFilesOf pcapDir (readdirPure pcapDir (delete mergedPcapPath fs)) = [].
Proof.
  intros Hwf Hraw Hfiltered. unfold pcapFilesOf.
  rewrite filter_nil_iff; [done|]. intros x Hx.
  destruct (Js.endsWith x ".pcap") eqn:Hends; [exfalso|done].
  apply elem_of_readdirPure in Hx as ([v Hv] & Hb & Hh).
  destruct (decide (x = "merged.pcap")) as [->|Hne].
  { unfold mergedPcapPath in Hv. by rewrite lookup_delete_eq in Hv. }
  rewrite lookup_delete_ne in Hv
    by (unfold mergedPcapPath; intros ?%path_join_inj; congruence).
  assert (x ∈ storeEntries fs) as Hin by (apply elem_of_readdirPure; eauto).
  unfold wellFormedStore in Hwf. rewrite forallb_forall in Hwf.
  specialize (Hwf x (proj1 (list_elem_of_In _ _) Hin)).
  apply orb_true_iff in Hwf as [Hr|Hd].
  - assert (x ∈ rawCaptures fs) as Hxr.
    { apply list_elem_of_In, List.filter_In. split; [by apply list_elem_of_In|done]. }
    rewrite Hraw in Hxr. by apply elem_of_nil in Hxr.
  - apply bool_decide_eq_true in Hd. unfold derivedArtifacts in Hd.
    repeat (apply elem_of_cons in Hd as [->|Hd]; [try done; try (vm_compute in Hends; discriminate)|]).
    + unfold filteredPcapPath in Hfiltered. congruence.
    + by apply elem_of_nil in Hd.
Qed.

(** ** Stop: the fan-out and the merge *)

Lemma broadcast_run (env : Env) (phase verb : string) (names : list string) (st : State) :
  broadcast env phase verb names st
  = (Ok (broadcastOutcomes env verb names),
     mkState (files st) (containerNames st) (log st ++ broadcastLog env phase verb names)).
Proof.
  revert st. induction names as [|n rest IH]; intros st.
  - simpl. by rewrite app_nil_r, State_eta.
  - cbn [broadcast]. rewrite bind_run. unfold logEvent at 1.
    rewrite bind_run, IH. cbn [files containerNames log mret M_ret].
    by rewrite <- app_assoc.
Qed.

Lemma stop_run (env : Env) (st : State) :
  containerNames st <> [] ->
  stop env st
  = try_catch
      (stopTry env (broadcastOutcomes env "stop" (containerNames st))
         mergedPcapPath outputJsonPath)
      (stopFailed)
      (mkState (files st) (containerNames st)
         (log st ++ broadcastLog env "Monitoring stopped" "stop" (containerNames st))).
Proof.
  intros Hne. unfold stop. rewrite bind_run.
  destruct (containerNames st) as [|n rest] eqn:Hnames; [done|].
  cbn [length Nat.eqb]. rewrite bind_run, broadcast_run, Hnames. reflexivity.
Qed.

Lemma stop_unregistered (env : Env) (st : State) :
  containerNames st = [] ->
  stop env st = (Ok (mkResponse 400 (Text "No container names available to stop.")), st).
Proof. intros H. unfold stop. rewrite bind_run, H. reflexivity. Qed.

Lemma mergePcaps_nothing (env : Env) (st : State) :
  pcapFilesOf pcapDir (readdirPure pcapDir (delete mergedPcapPath (files st))) = [] ->
  mergePcaps env pcapDir mergedPcapPath st
  = (Throw (Error "No .pcap files found to merge."),
     mkState (delete mergedPcapPath (files st)) (containerNames st)
       (log st ++ [mkLogEntry "Monitoring stopped"
                     (Some "No .pcap files found to merge") (Some false)])).
Proof.
  intros Hnone. unfold mergePcaps, rm_force, readdir, getFiles, setFiles.
  rewrite !bind_run. cbn [files containerNames log mret M_ret].
  rewrite Hnone. reflexivity.
Qed.

(** C7, as stated, fails: with no agent registered, [stop] is refused
    before the merge is tried, with another error, and a merged capture
    that an earlier coordinator process left stays in the store. *)
Lemma stop_unregistered_keeps_merged :
  rawCaptures (files Scenario.restarted) = []
  /\ (stop (Scenario.env true true true) Scenario.restarted).1
     = Ok (mkResponse 400 (Text "No container names available to stop."))
  /\ (stop (Scenario.env true true true) Scenario.restarted).1
     <> Ok (mkResponse 500 (Text "No .pcap files found to merge."))
  /\ files (stop (Scenario.env true true true) Scenario.restarted).2 !! mergedPcapPath
     = Some "old".
Proof.
  rewrite stop_unregistered by reflexivity.
  split; [vm_compute; reflexivity|]. split; [reflexivity|].
  split; [discriminate|]. vm_compute. reflexivity.
Qed.

(** C7, amended.  For every stop with at least one registered agent,
    made while the store (laid out as the design says) holds no raw
    capture and no left-over filtered capture: the operation fails with
    the no-captures error, the stale merged capture is deleted and nothing
    else in the store changes, so no merged capture exists afterwards. *)
Theorem stop_without_captures (env : Env) (st : State) :
  containerNames st <> [] ->
  wellFormedStore (files st) = true ->
  rawCaptures (files st) = [] ->
  files st !! filteredPcapPath = None ->
  (stop env st).1 = Ok (mkResponse 500 (Text "No .pcap files found to merge."))
  /\ files (stop env st).2 = delete mergedPcapPath (files st)
  /\ files (stop env st).2 !! mergedPcapPath = None.
Proof.
  intros Hne Hwf Hraw Hfiltered.
  rewrite stop_run by done. unfold try_catch, stopTry.
  rewrite bind_run, mergePcaps_nothing by (by apply no_pcap_to_merge).
  unfold stopFailed, logEvent. rewrite bind_run.
  cbn [fst snd files mret M_ret].
  split; [reflexivity|]. split; [reflexivity|]. apply lookup_delete_eq.
Qed.

Lemma stop_without_captures_witness :
  containerNames Scenario.merged <> []
  /\ wellFormedStore (files Scenario.merged) = true
  /\ rawCaptures (files Scenario.merged) = []
  /\ files Scenario.merged !! filteredPcapPath = None
  /\ (stop (Scenario.env true true true) Scenario.merged).1
     = Ok (mkResponse 500 (Text "No .pcap files found to merge."))
  /\ files (stop (Scenario.env true true true) Scenario.merged).2 !! mergedPcapPath = None.
Proof.
  assert (containerNames Scenario.merged <> []) as H1 by discriminate.
  assert (wellFormedStore (files Scenario.merged) = true) as H2 by (vm_compute; reflexivity).
  assert (rawCaptures (files Scenario.merged) = []) as H3 by (vm_compute; reflexivity).
  assert (files Scenario.merged !! filteredPcapPath = None) as H4 by (vm_compute; reflexivity).
  pose proof (stop_without_captures (Scenario.env true true true) Scenario.merged
                H1 H2 H3 H4) as (Hr & _ & Hm).
  repeat split; assumption.
Defined.

(** ** Stop: what the merge is given *)

(** The inputs of the merge are the [.pcap] entries of the directory
    other than the merged capture itself. *)
Lemma merge_inputs (fs : gmap string string) (path : string) :
  path ∈ pcapFilesOf pcapDir (readdirPure pcapDir (delete mergedPcapPath fs))
  <-> exists file, path = path_join pcapDir file
        /\ is_Some (fs !! path) /\ Js.endsWith file ".pcap" = true
        /\ file <> "merged.pcap"
        /\ Js.Boolean file = true /\ hasSlash file = false.
Proof.
  unfold pcapFilesOf. rewrite list_elem_of_In, List.in_map_iff. split.
  - intros (file & <- & Hin). apply List.filter_In in Hin as [Hin Hends].
    apply list_elem_of_In, elem_of_readdirPure in Hin as (Hsome & Hb & Hh).
    exists file. split; [done|].
    destruct (decide (file = "merged.pcap")) as [->|Hne].
    { unfold mergedPcapPath in Hsome. rewrite lookup_delete_eq in Hsome.
      by destruct Hsome. }
    rewrite lookup_delete_ne in Hsome
      by (unfold mergedPcapPath; intros ?%path_join_inj; congruence).
    done.
  - intros (file & -> & Hsome & Hends & Hne & Hb & Hh). exists file. split; [done|].
    apply List.filter_In. split; [|done].
    apply list_elem_of_In, elem_of_readdirPure. split; [|done].
    rewrite lookup_delete_ne
      by (unfold mergedPcapPath; intros ?%path_join_inj; congruence).
    done.
Qed.

(** C2 (the code departs from it).  In a store that holds one raw capture
    and the filtered capture of an earlier stop, the merge is run over the
    filtered capture too: a derived artifact is merged with the capture it
    was derived from, and the new merged capture holds the packets twice.
    The same state arises from a fresh coordinator by two stops in a
    row. *)
Theorem merge_takes_filtered_capture :
  wellFormedStore (files Scenario.stoppedOnce) = true
  /\ map (path_join pcapDir) (rawCaptures (files Scenario.stoppedOnce))
     = [rawCapturePath "scan1"]
  /\ isRawCapture "filtered.pcap" = false
  /\ pcapFilesOf pcapDir
       (readdirPure pcapDir (delete mergedPcapPath (files Scenario.stoppedOnce)))
     = [filteredPcapPath; rawCapturePath "scan1"]
  /\ log (stop (Scenario.env true true true) Scenario.stoppedOnce).2 !! 1%nat
     = Some (mkLogEntry "Monitoring stopped"
               (Some ("Command: mergecap -w /data/merged.pcap "
                      +:+ "/data/filtered.pcap /data/dumpfile_scan1.pcap"))
               (Some true))
  /\ files (stop (Scenario.env true true true) Scenario.stoppedOnce).2 !! mergedPcapPath
     = Some "pkts1+pkts1"
  /\ files (Scenario.afterFirstStop (Scenario.env true true true)) !! mergedPcapPath
     = Some "pkts1"
  /\ files (stop (Scenario.env true true true)
              (Scenario.afterFirstStop (Scenario.env true true true))).2
       !! mergedPcapPath
     = Some "pkts1+pkts1".
Proof. vm_compute. repeat split; reflexivity. Qed.

(** ** Computations that leave the store alone *)

Create HintDb keeps.

Lemma keeps_ret {A} (a : A) : keepsFiles (mret a : M A).
Proof. by intros st. Qed.

Lemma keeps_throw {A} (e : JsError) : keepsFiles (throw e : M A).
Proof. by intros st. Qed.

Lemma keeps_liftR {A} (r : Result A) : keepsFiles (liftR r).
Proof. by intros st. Qed.

Lemma keeps_getFiles : keepsFiles getFiles.
Proof. by intros st. Qed.

Lemma keeps_logEvent (ev : string) (det : option string) (ok : option bool) :
  keepsFiles (logEvent ev det ok).
Proof. by intros st. Qed.

Lemma keeps_bind {A B} (m : M A) (f : A -> M B) :
  keepsFiles m -> (forall a, keepsFiles (f a)) -> keepsFiles (m ≫= f).
Proof.
  intros Hm Hf st. rewrite bind_run. specialize (Hm st).
  destruct (m st) as [[a|e] st']; simpl in *; [|done].
  by rewrite Hf.
Qed.

Lemma keeps_try_catch {A} (m : M A) (h : JsError -> M A) :
  keepsFiles m -> (forall e, keepsFiles (h e)) -> keepsFiles (try_catch m h).
Proof.
  intros Hm Hh st. unfold try_catch. specialize (Hm st).
  destruct (m st) as [[a|e] st']; simpl in *; [done|].
  by rewrite Hh.
Qed.

Lemma keeps_existsSync (path : string) : keepsFiles (existsSync path).
Proof. by intros st. Qed.

Lemma keeps_readFile (path : string) : keepsFiles (readFile path).
Proof.
  intros st. unfold readFile, getFiles. rewrite bind_run.
  by destruct (files st !! path).
Qed.

#[local] Hint Resolve keeps_ret keeps_throw keeps_liftR keeps_getFiles keeps_logEvent
  keeps_existsSync keeps_readFile : keeps.

Ltac keeps :=
  repeat first
    [ progress (intros)
    | apply keeps_bind
    | apply keeps_try_catch
    | solve [auto with keeps]
    | match goal with
      | |- keepsFiles (match ?x with _ => _ end) => destruct x
      | |- keepsFiles (if ?b then _ else _) => destruct b
      end ].

(** After a computation whose continuation leaves the store alone, the
    store is the one its first part left. *)
Lemma files_bind_keeps {A B} (m : M A) (f : A -> M B) (st : State) :
  (forall a, keepsFiles (f a)) -> files ((m ≫= f) st).2 = files (m st).2.
Proof.
  intros Hf. rewrite bind_run. destruct (m st) as [[a|e] st']; simpl; [|done].
  apply Hf.
Qed.

Lemma files_try_catch_keeps {A} (m : M A) (h : JsError -> M A) (st : State) :
  (forall e, keepsFiles (h e)) -> files (try_catch m h st).2 = files (m st).2.
Proof.
  intros Hh. unfold try_catch. destruct (m st) as [[a|e] st']; simpl; [done|].
  apply Hh.
Qed.

(** ** Running external commands *)

Lemma exec_cp (env : Env) (st : State) (data : string) :
  files st !! mergedPcapPath = Some data ->
  exec env ("cp " +:+ mergedPcapPath +:+ " " +:+ filteredPcapPath) st
  = (Ok None,
     mkState (<[filteredPcapPath := data]> (files st)) (containerNames st) (log st)).
Proof.
  intros Hdata. unfold exec.
  replace (String.words ("cp " +:+ mergedPcapPath +:+ " " +:+ filteredPcapPath))
    with ["cp"; mergedPcapPath; filteredPcapPath] by (vm_compute; reflexivity).
  by rewrite Hdata.
Qed.

Lemma exec_decode_filtered (env : Env) (st : State) :
  exec env (tsharkCommand filteredPcapPath filteredJsonPath) st
  = (Ok (Error <$> (exec_tool env (tsharkCommand filteredPcapPath filteredJsonPath)
                      (files st)).1),
     mkState (exec_tool env (tsharkCommand filteredPcapPath filteredJsonPath)
                (files st)).2
       (containerNames st) (log st)).
Proof.
  unfold exec.
  replace (String.words (tsharkCommand filteredPcapPath filteredJsonPath))
    with ["tshark"; "-r"; filteredPcapPath; "-T"; "json"; ">"; filteredJsonPath]
    by (vm_compute; reflexivity).
  by destruct (exec_tool env _ _).
Qed.

Lemma existsSync_run (path : string) (st : State) :
  existsSync path st = (Ok (bool_decide (is_Some (files st !! path))), st).
Proof. reflexivity. Qed.

Lemma logEvent_run (ev : string) (det : option string) (ok : option bool) (st : State) :
  logEvent ev det ok st
  = (Ok tt, mkState (files st) (containerNames st) (log st ++ [mkLogEntry ev det ok])).
Proof. reflexivity. Qed.

Lemma saveConfig_run (env : Env) (config : JsVal) (st : State) :
  saveConfig env config st
  = (Ok configPath,
     mkState (<[configPath := JSON_stringify env config]> (files st))
       (containerNames st) (log st)).
Proof. reflexivity. Qed.

(** The empty expression makes the filter step a copy: whatever happens
    afterwards, the store is the one the decoder of the copy left. *)
Lemma filterPcapAndJson_copy (env : Env) (st : State) (data : string) :
  files st !! mergedPcapPath = Some data ->
  files (filterPcapAndJson env mergedPcapPath EmptyString pcapDir st).2
  = (exec_tool env (tsharkCommand filteredPcapPath filteredJsonPath)
       (<[filteredPcapPath := data]> (files st))).2.
Proof.
  intros Hdata. unfold filterPcapAndJson.
  rewrite files_try_catch_keeps by keeps.
  cbn [Js.Boolean]. rewrite bind_run.
  change (path_join pcapDir "filtered.pcap") with filteredPcapPath.
  change (path_join pcapDir "filtered.json") with filteredJsonPath.
  rewrite (exec_cp env st data Hdata).
  rewrite bind_run, existsSync_run. rewrite bind_run, logEvent_run.
  rewrite bind_run. cbn [mret M_ret].
  rewrite files_bind_keeps by keeps.
  unfold pcapToJson. rewrite files_bind_keeps by keeps.
  rewrite exec_decode_filtered. reflexivity.
Qed.

(** ** What the filter step returns *)

Lemma returns_ret {A} (a : A) (P : A -> Prop) : P a -> returns (mret a : M A) P.
Proof. intros Ha st b st' [= <- _]. exact Ha. Qed.

Lemma returns_throw {A} (e : JsError) (P : A -> Prop) : returns (throw e : M A) P.
Proof. intros st a st' [=]. Qed.

Lemma returns_bind {A B} (m : M A) (f : A -> M B) (P : B -> Prop) :
  (forall a, returns (f a) P) -> returns (m ≫= f) P.
Proof.
  intros Hf st b st'. rewrite bind_run.
  destruct (m st) as [[a|e] st1]; [apply Hf | intros [=]].
Qed.

Lemma returns_try_catch {A} (m : M A) (h : JsError -> M A) (P : A -> Prop) :
  returns m P -> (forall e, returns (h e) P) -> returns (try_catch m h) P.
Proof.
  intros Hm Hh st a st'. unfold try_catch.
  destruct (m st) as [[b|e] st1] eqn:Hrun.
  - intros [= <- _]. eapply Hm, Hrun.
  - apply Hh.
Qed.

Ltac returns :=
  repeat first
    [ progress (intros)
    | apply returns_try_catch
    | apply returns_bind
    | apply returns_throw
    | apply returns_ret
    | match goal with
      | |- returns (match ?x with _ => _ end) _ => destruct x
      | |- returns (if ?b then _ else _) _ => destruct b
      end ].

Lemma filterPcapAndJson_returns (env : Env) (mergedPcapFile filterString outputDir : string) :
  returns (filterPcapAndJson env mergedPcapFile filterString outputDir) koCarriesError.
Proof.
  unfold filterPcapAndJson. returns; unfold koCarriesError; simpl; eauto; discriminate.
Qed.

Lemma filterPcapAndJson_total (env : Env) (mergedPcapFile filterString outputDir : string)
    (st : State) :
  exists r st', filterPcapAndJson env mergedPcapFile filterString outputDir st = (Ok r, st').
Proof.
  unfold filterPcapAndJson, try_catch.
  match goal with |- context [match ?body st with _ => _ end] =>
    destruct (body st) as [[r|e] st'] end; [by eauto|].
  rewrite bind_run, logEvent_run. by eauto.
Qed.

Lemma filterIfConfigured_returns (env : Env) (config : option JsVal) (mergedPcapFile : string) :
  returns (filterIfConfigured env config mergedPcapFile)
    (fun fr => forall r, fr = Some r -> koCarriesError r).
Proof.
  unfold filterIfConfigured. destruct config as [c|]; [destruct (truthy c)|].
  - apply returns_bind. intros f. intros st fr st'. rewrite bind_run.
    destruct (filterPcapAndJson env mergedPcapFile f pcapDir st) as [[r|e] st1] eqn:Hrun;
      [|intros [=]].
    intros [= <- _] r' [= <-]. eapply filterPcapAndJson_returns, Hrun.
  - apply returns_ret. discriminate.
  - apply returns_ret. discriminate.
Qed.

(** ** Stop: how failures of the pipeline are reported *)

Lemma stopFailed_run (e : JsError) (st : State) :
  (stopFailed e st).1 = Ok (mkResponse 500 (Text (failureText e))).
Proof. reflexivity. Qed.

(** C1, as stated, fails: when the merge succeeds and the decode of the
    merged capture fails, the whole operation fails with the decoder's
    error and the per-agent outcomes are not returned. *)
Lemma stop_decode_failure_aborts :
  (mergePcaps (Scenario.env true false true) pcapDir mergedPcapPath
     (afterBroadcast (Scenario.env true false true) Scenario.captured)).1 = Ok tt
  /\ (stop (Scenario.env true false true) Scenario.captured).1
     = Ok (mkResponse 500 (Text "tshark: The file could not be decoded"))
  /\ match (stop (Scenario.env true false true) Scenario.captured).1 with
     | Ok resp => status resp = 500 /\ bodyField resp "results" = None
     | Throw _ => False
     end.
Proof. vm_compute. repeat split; reflexivity. Qed.

Example stop_filter_failure_degraded :
  (stop (Scenario.env true true false) Scenario.capturedWithConfig).1
  = Ok (json 200
          [("message", Some (JStr "Stop signal sent to all scan dockers."));
           ("results", Some (JArr [outcome "scan1" "success"]));
           ("pcapData", Some (JArr [JStr "[pkts1]"]));
           ("filterStatus", Some (JStr "ko"));
           ("error", Some (JStr "Filtering failed: tshark: Invalid display filter"))]).
Proof. vm_compute. reflexivity. Qed.

Example stop_merge_failure_aborts :
  (stop (Scenario.env false true true) Scenario.captured).1
  = Ok (mkResponse 500 (Text "mergecap: The file could not be opened")).
Proof. vm_compute. reflexivity. Qed.

(** ** Config submission: the empty expression *)

(** C3.  For every state with a merged capture, submitting a config none
    of whose recognised fields is populated compiles to the empty
    expression, and the re-filter leaves a filtered capture that is an
    identical copy of the merged capture; the decoder is taken to write
    nothing but its output file. *)
Theorem empty_config_filter_is_copy
    (env : Env) (props : list (string * JsVal)) (st : State) (data : string) :
  unpopulated (JObj props) = true ->
  files st !! mergedPcapPath = Some data ->
  (forall fs path,
     path <> filteredJsonPath ->
     (exec_tool env (tsharkCommand filteredPcapPath filteredJsonPath) fs).2 !! path
     = fs !! path) ->
  buildWiresharkFilterFromConfig (JObj props) = Ok EmptyString
  /\ files (postConfig env (JObj props) st).2 !! filteredPcapPath = Some data
  /\ files (postConfig env (JObj props) st).2 !! mergedPcapPath = Some data.
Proof.
  intros Hun Hdata Htool.
  pose proof (compile_unpopulated _ Hun) as Hcompile. split; [exact Hcompile|].
  assert (files (postConfig env (JObj props) st).2
          = (exec_tool env (tsharkCommand filteredPcapPath filteredJsonPath)
               (<[filteredPcapPath := data]>
                  (<[configPath := JSON_stringify env (JObj props)]> (files st)))).2)
    as ->.
  { unfold postConfig. cbn [truthy negb].
    rewrite files_try_catch_keeps by keeps.
    rewrite bind_run, saveConfig_run.
    change (path_join pcapDir "merged.pcap") with mergedPcapPath.
    rewrite bind_run, existsSync_run. cbn [files].
    rewrite bool_decide_eq_true_2
      by (rewrite lookup_insert_ne by paths_ne; eauto).
    rewrite files_bind_keeps by keeps.
    rewrite Hcompile, bind_run. unfold liftR at 1.
    rewrite (filterPcapAndJson_copy env _ data)
      by (cbn [files]; by rewrite lookup_insert_ne by paths_ne).
    reflexivity. }
  rewrite !Htool by paths_ne.
  rewrite lookup_insert_eq.
  rewrite lookup_insert_ne by paths_ne. rewrite lookup_insert_ne by paths_ne.
  done.
Qed.

Lemma scenario_decoder_frame (fs : gmap string string) (path : string) :
  path <> filteredJsonPath ->
  (exec_tool (Scenario.env true true true)
     (tsharkCommand filteredPcapPath filteredJsonPath) fs).2 !! path
  = fs !! path.
Proof.
  intros Hne. cbn [exec_tool Scenario.env]. unfold Scenario.tool.
  replace (String.words (tsharkCommand filteredPcapPath filteredJsonPath))
    with ["tshark"; "-r"; filteredPcapPath; "-T"; "json"; ">"; filteredJsonPath]
    by (vm_compute; reflexivity).
  destruct (fs !! filteredPcapPath); cbn [snd];
    rewrite lookup_insert_ne; done.
Qed.

Lemma empty_config_filter_is_copy_witness :
  unpopulated (JObj [("ip", JStr " , "); ("packetSizeMin", JStr EmptyString)]) = true
  /\ files Scenario.stoppedOnce !! mergedPcapPath = Some "pkts1"
  /\ files (postConfig (Scenario.env true true true)
              (JObj [("ip", JStr " , "); ("packetSizeMin", JStr EmptyString)])
              Scenario.stoppedOnce).2 !! filteredPcapPath
     = Some "pkts1".
Proof.
  assert (unpopulated (JObj [("ip", JStr " , "); ("packetSizeMin", JStr EmptyString)])
          = true) as H1 by (vm_compute; reflexivity).
  assert (files Scenario.stoppedOnce !! mergedPcapPath = Some "pkts1") as H2
    by (vm_compute; reflexivity).
  split; [exact H1|]. split; [exact H2|].
  exact (proj1 (proj2
    (empty_config_filter_is_copy (Scenario.env true true true) _
       Scenario.stoppedOnce "pkts1" H1 H2 scenario_decoder_frame))).
Defined.

(** ** Config submission: what can fail *)

(** On a config whose recognised fields hold strings the compiler
    returns an expression. *)
Lemma fieldClauses_stringValued (c : JsVal) (p : string * FieldKind) :
  match getField c p.1 with None | Some (JStr _) => true | Some _ => false end = true ->
  exists cs, fieldClauses c p.1 p.2 = Ok cs.
Proof.
  unfold fieldClauses. destruct (getField c p.1) as [[]|]; try discriminate; intros _;
    [|by eauto].
  destruct (negb (truthy (JStr s))); [by eauto|]. destruct p.2; by eauto.
Qed.

Lemma compile_stringValued (c : JsVal) :
  stringValued c = true -> exists f, buildWiresharkFilterFromConfig c = Ok f.
Proof.
  intros H. rewrite compile_by_field. unfold compileByField.
  enough (exists cs, collectClauses c fieldTable = Ok cs) as [cs ->] by by eexists.
  unfold stringValued in H. induction fieldTable as [|[f k] rest IH]; simpl in *.
  - by eexists.
  - apply andb_true_iff in H as [Hp Hr].
    destruct (fieldClauses_stringValued c (f, k) Hp) as [cs Hcs]. simpl in Hcs.
    destruct (IH Hr) as [more Hmore]. rewrite Hcs, Hmore. by eexists.
Qed.

Lemma answers_ret {A} (a : A) (P : A -> Prop) : P a -> answers (mret a : M A) P.
Proof. intros Ha st. by exists a, st. Qed.

Lemma answers_bind {A B} (m : M A) (f : A -> M B) (P : B -> Prop) :
  answers m (fun _ => True) -> (forall a, answers (f a) P) -> answers (m ≫= f) P.
Proof.
  intros Hm Hf st. rewrite bind_run. destruct (Hm st) as (a & st' & -> & _).
  apply Hf.
Qed.

Lemma answers_try_catch {A} (m : M A) (h : JsError -> M A) (P : A -> Prop) :
  answers m P -> answers (try_catch m h) P.
Proof.
  intros Hm st. unfold try_catch. destruct (Hm st) as (a & st' & -> & Ha). by eauto.
Qed.

Lemma answers_logEvent (ev : string) (det : option string) (ok : option bool) :
  answers (logEvent ev det ok) (fun _ => True).
Proof. intros st. by eexists _, _. Qed.

Lemma answers_existsSync (path : string) : answers (existsSync path) (fun _ => True).
Proof. intros st. by eexists _, _. Qed.

Lemma answers_saveConfig (env : Env) (config : JsVal) :
  answers (saveConfig env config) (fun _ => True).
Proof. intros st. rewrite saveConfig_run. by eexists _, _. Qed.

Lemma answers_filterPcapAndJson (env : Env) (mergedPcapFile filterString outputDir : string) :
  answers (filterPcapAndJson env mergedPcapFile filterString outputDir) (fun _ => True).
Proof.
  intros st.
  destruct (filterPcapAndJson_total env mergedPcapFile filterString outputDir st)
    as (r & st' & ->).
  by eexists _, _.
Qed.

(** On a config the compiler accepts, in particular on every config whose
    recognised fields hold strings, [POST /config] never fails outright:
    it answers 200, or 422 with the [ko] outcome of the filter. *)
Lemma postConfig_compiled (env : Env) (config : JsVal) (f : string) :
  truthy config = true ->
  buildWiresharkFilterFromConfig config = Ok f ->
  answers (postConfig env config) (fun resp => status resp = 200 \/ status resp = 422).
Proof.
  intros Ht Hf. unfold postConfig. rewrite Ht, Hf. cbn [negb].
  apply answers_try_catch.
  apply answers_bind; [apply answers_saveConfig|]. intros _.
  apply answers_bind; [apply answers_existsSync|]. intros present.
  apply answers_bind.
  { destruct present; [|by apply answers_ret].
    intros st. rewrite bind_run. unfold liftR. apply answers_filterPcapAndJson. }
  intros r.
  destruct (isOk (fstatus r) && from_option truthy false (filteredJsonData r)).
  { apply answers_bind; [apply answers_logEvent|]. intros _. apply answers_ret. by left. }
  destruct (isKo (Some (fstatus r))).
  - apply answers_bind; [apply answers_logEvent|]. intros _. apply answers_ret. by right.
  - apply answers_ret. by left.
Qed.

(** C6 (the code departs from it).  In every environment and every store
    that holds a merged capture, the config of the coordinator's own test
    is persisted and then the request fails outright: the compiler throws
    on the numeric port, and the handler answers 500 "Failed to save
    configuration". *)
Theorem postConfig_numeric_port_fails
    (env : Env) (fs : gmap string string) (names : list string)
    (lg : list LogEntry) (data : string) :
  buildWiresharkFilterFromConfig Scenario.testConfig
  = Throw (TypeError "config[field].split is not a function")
  /\ (postConfig env Scenario.testConfig
        (mkState (<[mergedPcapPath := data]> fs) names lg)).1
     = Ok (json 500 [("message", Some (JStr "Failed to save configuration"))])
  /\ files (postConfig env Scenario.testConfig
              (mkState (<[mergedPcapPath := data]> fs) names lg)).2 !! configPath
     = Some (JSON_stringify env Scenario.testConfig).
Proof.
  assert (buildWiresharkFilterFromConfig Scenario.testConfig
          = Throw (TypeError "config[field].split is not a function")) as Hthrow
    by (vm_compute; reflexivity).
  split; [exact Hthrow|].
  unfold postConfig, try_catch. cbn [truthy Scenario.testConfig negb].
  rewrite bind_run, saveConfig_run.
  change (path_join pcapDir "merged.pcap") with mergedPcapPath.
  rewrite bind_run, existsSync_run. cbn [files].
  rewrite bool_decide_eq_true_2
    by (rewrite lookup_insert_ne by paths_ne; rewrite lookup_insert_eq; eauto).
  rewrite bind_run, bind_run.
  change (JObj [("ip", JStr "1.2.3.4"); ("port", JNum 80)]) with Scenario.testConfig.
  rewrite Hthrow. unfold liftR. rewrite bind_run, logEvent_run.
  cbn [fst snd files mret M_ret]. split; [reflexivity|].
  apply lookup_insert_eq.
Qed.

Example postConfig_numeric_port_scenario :
  (postConfig (Scenario.env true true true) Scenario.testConfig Scenario.merged).1
  = Ok (json 500 [("message", Some (JStr "Failed to save configuration"))]).
Proof. vm_compute. reflexivity. Qed.

(** Without a merged capture the status keeps its initial value [ko]: the
    answer is 422 and carries no error; the branch that confirms a plain
    save is never taken. *)
Example postConfig_without_merged :
  (postConfig (Scenario.env true true true) (JObj []) Scenario.captured).1
  = Ok (json 422 [("message", Some (JStr "Configuration saved but filtering failed"))]).
Proof. vm_compute. reflexivity. Qed.


(** * The filter compiler against the design *)

Lemma blank_isWhiteSpace (c : ascii) : Design.blank c = Js.isWhiteSpace c.
Proof. destruct c as [[] [] [] [] [] [] [] []]; reflexivity. Qed.

Lemma dropBlanks_nil_iff (l : list ascii) :
  Design.dropBlanks l = [] <-> forallb Design.blank l = true.
Proof.
  induction l as [|c l IH]; simpl; [done|].
  destruct (Design.blank c); simpl; [done|]. split; discriminate.
Qed.

Lemma dropBlanks_snoc (l : list ascii) (c : ascii) :
  Design.dropBlanks (l ++ [c])
  = match Design.dropBlanks l with
    | [] => if Design.blank c then [] else [c]
    | kept => kept ++ [c]
    end.
Proof.
  induction l as [|d l IH]; simpl; [by destruct (Design.blank c)|].
  destruct (Design.blank d); [exact IH|]. reflexivity.
Qed.

Lemma trimEnd_chars (s : string) :
  list_ascii_of_string (Js.trimEnd s)
  = rev (Design.dropBlanks (rev (list_ascii_of_string s))).
Proof.
  induction s as [|c s IH]; [done|].
  cbn [Js.trimEnd list_ascii_of_string rev]. 
  change (rev (c :: list_ascii_of_string s)) with (rev (list_ascii_of_string s) ++ [c]).
  rewrite dropBlanks_snoc.
  destruct (Js.trimEnd s) as [|d r] eqn:Ht.
  - simpl in IH. symmetry in IH. apply (f_equal (@rev ascii)) in IH.
    rewrite rev_involutive in IH. simpl in IH. rewrite IH.
    rewrite <- blank_isWhiteSpace. by destruct (Design.blank c).
  - destruct (Design.dropBlanks (rev (list_ascii_of_string s))) as [|k kept] eqn:Hk;
      [discriminate IH|].
    rewrite rev_app_distr, <- IH. reflexivity.
Qed.

Lemma trimStart_chars (s : string) :
  list_ascii_of_string (Js.trimStart s) = Design.dropBlanks (list_ascii_of_string s).
Proof.
  induction s as [|c s IH]; [done|]. simpl.
  rewrite blank_isWhiteSpace. by destruct (Js.isWhiteSpace c).
Qed.

Lemma trimmed_trim (s : string) : Design.trimmed s = Js.trim s.
Proof.
  unfold Design.trimmed, Js.trim.
  by rewrite <- trimStart_chars, <- trimEnd_chars, string_of_list_ascii_of_string.
Qed.

Lemma text_app (l1 l2 : list ascii) :
  string_of_list_ascii (l1 ++ l2) = string_of_list_ascii l1 +:+ string_of_list_ascii l2.
Proof. induction l1 as [|x l1 IH]; [done|]. simpl. by rewrite append_cons, IH. Qed.

Lemma append_nil_r (s : string) : s +:+ "" = s.
Proof. induction s as [|c s IH]; [done|]. by rewrite append_cons, IH. Qed.

Lemma split_cons (sep : ascii) (s : string) :
  exists first others, Js.split sep s = first :: others.
Proof.
  induction s as [|c s (first & others & IH)]; simpl; [by eexists _, _|].
  destruct (Ascii.eqb c sep); [by eexists _, _|]. rewrite IH. by eexists _, _.
Qed.

Lemma scan_split (sep : ascii) (current : list ascii) (s : string) :
  Design.scan sep current (list_ascii_of_string s)
  = match Js.split sep s with
    | first :: others => (string_of_list_ascii (rev current) +:+ first) :: others
    | [] => []
    end.
Proof.
  revert current. induction s as [|c s IH]; intros current.
  - simpl. by rewrite append_nil_r.
  - cbn [list_ascii_of_string Design.scan Js.split].
    destruct (split_cons sep s) as (first & others & Hs).
    destruct (Ascii.eqb c sep).
    + rewrite (IH []), Hs, append_nil_r. reflexivity.
    + rewrite IH, Hs. cbn [rev]. rewrite text_app, append_assoc. reflexivity.
Qed.

Lemma entries_split (sep : ascii) (s : string) : Design.entries sep s = Js.split sep s.
Proof.
  unfold Design.entries. rewrite scan_split.
  by destruct (split_cons sep s) as (first & others & ->).
Qed.

Lemma values_surviving (raw : string) : Design.values raw = survivingValues raw.
Proof.
  unfold Design.values, survivingValues. rewrite entries_split.
  induction (Js.split "," raw) as [|e l IH]; [done|].
  cbn [map List.filter]. rewrite trimmed_trim, IH. by destruct (Js.trim e).
Qed.

Lemma fold_connect (sep : string) (others : list string) (first : string) :
  fold_left (fun text item => text +:+ sep +:+ item) others first
  = Js.join sep (first :: others).
Proof.
  revert first. induction others as [|y others IH]; intros first; [done|].
  cbn [fold_left]. rewrite IH.
  change (Js.join sep (first :: y :: others)) with (first +:+ sep +:+ Js.join sep (y :: others)).
  destruct others as [|z others].
  - reflexivity.
  - change (Js.join sep ((first +:+ sep +:+ y) :: z :: others))
      with ((first +:+ sep +:+ y) +:+ sep +:+ Js.join sep (z :: others)).
    change (Js.join sep (y :: z :: others)) with (y +:+ sep +:+ Js.join sep (z :: others)).
    by rewrite !append_assoc.
Qed.

Lemma connect_join (sep : string) (l : list string) : Design.connect sep l = Js.join sep l.
Proof. destruct l as [|first others]; [done|]. apply fold_connect. Qed.

Lemma join_app (sep : string) (l1 l2 : list string) :
  l1 <> [] -> l2 <> [] ->
  Js.join sep (l1 ++ l2) = Js.join sep l1 +:+ sep +:+ Js.join sep l2.
Proof.
  intros H1 H2. induction l1 as [|x l1 IH]; [done|].
  destruct l1 as [|y l1].
  - destruct l2; [done|]. reflexivity.
  - change (Js.join sep ((x :: y :: l1) ++ l2))
      with (x +:+ sep +:+ Js.join sep ((y :: l1) ++ l2)).
    rewrite IH by done.
    change (Js.join sep (x :: y :: l1)) with (x +:+ sep +:+ Js.join sep (y :: l1)).
    by rewrite !append_assoc.
Qed.

(** The sides of a range against the split at slashes. *)
Lemma split_slash (s : string) :
  Js.split "/" s
  = Design.rangeStart s
    :: (if hasSlash s then Js.split "/" (Design.rangeEnd s) else []).
Proof.
  unfold Design.rangeStart, Design.rangeEnd.
  induction s as [|c s IH]; [done|].
  cbn [Js.split list_ascii_of_string Design.beforeSlash Design.afterSlash hasSlash].
  destruct (Ascii.eqb c "/"); cbn [orb].
  - by rewrite string_of_list_ascii_of_string.
  - by rewrite IH.
Qed.

Lemma noSlash_hasSlash (s : string) : Design.noSlash s = negb (hasSlash s).
Proof.
  unfold Design.noSlash. induction s as [|c s IH]; [done|].
  cbn [list_ascii_of_string forallb hasSlash]. rewrite IH.
  by destruct (Ascii.eqb c "/").
Qed.

Lemma rangeStart_noSlash (s : string) : hasSlash s = false -> Design.rangeStart s = s.
Proof.
  unfold Design.rangeStart. induction s as [|c s IH]; [done|].
  cbn [hasSlash list_ascii_of_string Design.beforeSlash].
  destruct (Ascii.eqb c "/"); [done|]. cbn [orb]. intros H.
  cbn [string_of_list_ascii]. by rewrite IH.
Qed.

Lemma rangeEnd_noSlash (s : string) : hasSlash s = false -> Design.rangeEnd s = "".
Proof.
  unfold Design.rangeEnd. induction s as [|c s IH]; [done|].
  cbn [hasSlash list_ascii_of_string Design.afterSlash].
  destruct (Ascii.eqb c "/"); [done|]. exact IH.
Qed.

Lemma timeClauses_sides (raw : string) :
  Design.noSlash (Design.rangeEnd raw) = true ->
  timeClauses raw
  = omap id [Design.moment Design.asGiven ">=" (Design.rangeStart raw);
             Design.moment Design.asGiven "<=" (Design.rangeEnd raw)].
Proof.
  rewrite noSlash_hasSlash. intros Hend%negb_true_iff.
  unfold timeClauses. rewrite split_slash. cbn [lookup list_lookup].
  unfold Design.moment, Design.asGiven, Design.present.
  destruct (hasSlash raw) eqn:Hraw.
  - rewrite split_slash. cbn [lookup list_lookup]. rewrite (rangeStart_noSlash _ Hend).
    destruct (Design.rangeStart raw), (Design.rangeEnd raw); reflexivity.
  - rewrite (rangeEnd_noSlash _ Hraw). cbn [lookup list_lookup].
    destruct (Design.rangeStart raw); reflexivity.
Qed.

Lemma tables_correspond : Forall2 sameEntry fieldTable Design.table.
Proof.
  unfold fieldTable, Design.table.
  repeat apply List.Forall2_cons; try apply List.Forall2_nil;
    (split; [reflexivity|]); cbn; try done.
Qed.

Lemma fieldClauses_subExpression (props : list (string * JsVal))
    (config : Design.FilterConfig) (name : string) (kind : FieldKind)
    (expansion : Design.Expansion) :
  corresponds kind expansion ->
  agree props config name = true ->
  (forall raw, config !! name = Some raw -> expansion = Design.Between ->
               Design.noSlash (Design.rangeEnd raw) = true) ->
  exists cs,
    fieldClauses (JObj props) name kind = Ok cs
    /\ match config !! name ≫= Design.subExpression Design.asGiven expansion with
       | None => cs = []
       | Some sub => cs <> [] /\ sub = Js.join " and " cs
       end.
Proof.
  intros Hkind Hagree Hrange. unfold agree in Hagree. unfold fieldClauses, getField.
  destruct (assoc name props) as [[| | |raw| |]|], (config !! name) as [raw'|] eqn:Hcfg;
    try discriminate Hagree; [|by eexists].
  apply String.eqb_eq in Hagree as <-. cbn [mbind option_bind truthy].
  destruct raw as [|c raw].
  { eexists. split; [reflexivity|].
    destruct expansion; reflexivity. }
  cbn [Js.Boolean negb].
  destruct kind as [pred|op|], expansion as [predicate| | |]; try done; cbn in Hkind.
  - cbn [Design.subExpression]. rewrite values_surviving. eexists. split; [reflexivity|].
    destruct (survivingValues (String c raw)) as [|v vs]; [done|].
    cbn [orGroup]. split; [done|]. rewrite connect_join. cbn [Js.join].
    do 2 f_equal. f_equal. apply map_ext. intros; symmetry; apply Hkind.
  - subst op. eexists. split; [reflexivity|]. cbn. done.
  - subst op. eexists. split; [reflexivity|]. cbn. done.
  - eexists. split; [reflexivity|]. cbn [Design.subExpression].
    rewrite <- timeClauses_sides by (by apply Hrange).
    destruct (timeClauses (String c raw)) as [|t ts]; [done|].
    split; [done|]. apply connect_join.
Qed.

Lemma collectClauses_design (props : list (string * JsVal)) (config : Design.FilterConfig)
    (codeTable : list (string * FieldKind)) (table : list (string * Design.Expansion)) :
  Forall2 sameEntry codeTable table ->
  Forall (fun entry => agree props config entry.1 = true) table ->
  Forall (fun entry => forall raw, config !! entry.1 = Some raw ->
                        entry.2 = Design.Between ->
                        Design.noSlash (Design.rangeEnd raw) = true) table ->
  exists cs,
    collectClauses (JObj props) codeTable = Ok cs
    /\ Js.join " and " cs
       = Js.join " and "
           (omap (fun entry => config !! entry.1 ≫= Design.subExpression Design.asGiven entry.2)
              table)
    /\ (cs = [] <->
        omap (fun entry => config !! entry.1 ≫= Design.subExpression Design.asGiven entry.2)
          table = []).
Proof.
  induction 1 as [|[name kind] [name' expansion] codeRest rest [Hname Hkind] _ IH];
    intros Hagree Hrange.
  { by exists []. }
  cbn [fst snd] in Hname, Hkind. subst name'.
  apply Forall_cons in Hagree as [Hagree1 Hagree], Hrange as [Hrange1 Hrange].
  destruct (IH Hagree Hrange) as (more & Hmore & Hjoin & Hnil).
  destruct (fieldClauses_subExpression props config name kind expansion Hkind Hagree1 Hrange1)
    as (cs & Hcs & Hsub).
  exists (cs ++ more). cbn [collectClauses fst snd]. rewrite Hcs, Hmore.
  split; [reflexivity|].
  set (sub := fun entry : string * Design.Expansion =>
                config !! entry.1 ≫= Design.subExpression Design.asGiven entry.2) in *.
  change (omap sub ((name, expansion) :: rest))
    with (match sub (name, expansion) with
          | Some s => s :: omap sub rest
          | None => omap sub rest
          end).
  change (sub (name, expansion))
    with (config !! name ≫= Design.subExpression Design.asGiven expansion).
  destruct (config !! name ≫= Design.subExpression Design.asGiven expansion) as [s|].
  - destruct Hsub as [Hne ->]. split.
    + destruct more as [|m more'].
      * rewrite app_nil_r, (proj1 Hnil eq_refl). reflexivity.
      * rewrite join_app by done. rewrite Hjoin.
        destruct (omap sub rest) as [|r rest'] eqn:Hrest.
        { by destruct (proj2 Hnil eq_refl). }
        reflexivity.
    + split; [|done]. intros Happ. by apply app_eq_nil in Happ as [-> _].
  - subst cs. done.
Qed.

Lemma represents_agree (props : list (string * JsVal)) (config : Design.FilterConfig) :
  represents props config = true ->
  Forall (fun entry => agree props config entry.1 = true) Design.table.
Proof.
  unfold represents, Design.fields. rewrite forallb_forall.
  intros H. apply List.Forall_forall. intros entry Hin. apply H.
  by apply List.in_map.
Qed.

Lemma plainRange_table (config : Design.FilterConfig) :
  Design.plainRange config = true ->
  Forall (fun entry => forall raw, config !! entry.1 = Some raw ->
                        entry.2 = Design.Between ->
                        Design.noSlash (Design.rangeEnd raw) = true) Design.table.
Proof.
  intros Hplain. unfold Design.plainRange in Hplain. unfold Design.table.
  repeat apply List.Forall_cons; try apply List.Forall_nil;
    cbn [fst snd]; intros raw Hraw; try discriminate.
  intros _. by rewrite Hraw in Hplain.
Qed.

(** The code computes the expression of the design in which single values
    are taken as they stand. *)
Lemma compile_as_given (props : list (string * JsVal)) (config : Design.FilterConfig) :
  represents props config = true ->
  Design.plainRange config = true ->
  buildWiresharkFilterFromConfig (JObj props)
  = Ok (Design.compileWith Design.asGiven config).
Proof.
  intros Hrep Hplain. rewrite compile_by_field. unfold compileByField.
  destruct (collectClauses_design props config fieldTable Design.table tables_correspond
              (represents_agree _ _ Hrep) (plainRange_table _ Hplain))
    as (cs & -> & Hjoin & _).
  cbn [mbind Result_bind mret Result_ret]. unfold Design.compileWith.
  by rewrite connect_join, Hjoin.
Qed.

Lemma tidy_plainRange (config : Design.FilterConfig) :
  Design.tidy config = true -> Design.plainRange config = true.
Proof. unfold Design.tidy. by intros [_ ?]%andb_true_iff. Qed.

Lemma omap_ext_Forall {A B} (f g : A -> option B) (l : list A) :
  Forall (fun x => f x = g x) l -> omap f l = omap g l.
Proof. induction 1 as [|x l Hx _ IH]; [done|]. cbn. by rewrite Hx, IH. Qed.

Lemma bound_tidy (relation raw : string) :
  Design.isTrimmed raw = true ->
  Design.bound Design.trimmed relation raw = Design.bound Design.asGiven relation raw.
Proof.
  unfold Design.isTrimmed, Design.bound, Design.asGiven. by intros ->%String.eqb_eq.
Qed.

Lemma moment_tidy (relation side : string) :
  Design.isTrimmed side = true ->
  Design.moment Design.trimmed relation side = Design.moment Design.asGiven relation side.
Proof.
  unfold Design.isTrimmed, Design.moment, Design.asGiven. by intros ->%String.eqb_eq.
Qed.

Lemma compile_tidy (config : Design.FilterConfig) :
  Design.tidy config = true ->
  Design.compile config = Design.compileWith Design.asGiven config.
Proof.
  unfold Design.tidy. intros [[Hbounds Hrange]%andb_true_iff _]%andb_true_iff.
  cbn [forallb] in Hbounds.
  apply andb_true_iff in Hbounds as [Hmin [Hmax _]%andb_true_iff].
  unfold Design.compile, Design.compileWith. f_equal.
  apply omap_ext_Forall. unfold Design.table.
  repeat apply List.Forall_cons; try apply List.Forall_nil; cbn [fst snd].
  all: try (destruct (config !! _); reflexivity).
  - destruct (config !! "packetSizeMin") as [raw|]; [|reflexivity].
    cbn [from_option] in Hmin. cbn [mbind option_bind Design.subExpression].
    by apply bound_tidy.
  - destruct (config !! "packetSizeMax") as [raw|]; [|reflexivity].
    cbn [from_option] in Hmax. cbn [mbind option_bind Design.subExpression].
    by apply bound_tidy.
  - destruct (config !! "timeRange") as [raw|]; [|reflexivity].
    cbn [from_option] in Hrange. apply andb_true_iff in Hrange as [Hstart Hend].
    cbn [mbind option_bind Design.subExpression].
    by rewrite (moment_tidy _ _ Hstart), (moment_tidy _ _ Hend).
Qed.

Lemma represents_Permutation (props props' : list (string * JsVal))
    (config : Design.FilterConfig) :
  NoDup (map fst props) -> props ≡ₚ props' ->
  represents props config = true -> represents props' config = true.
Proof.
  intros Hnd Hp. unfold represents. rewrite !forallb_forall. intros H name Hin.
  specialize (H name Hin). unfold agree in *.
  by rewrite <- (assoc_Permutation name props props' Hnd Hp).
Qed.

(** C4.  For every filter config whose single values are written without
    surrounding blanks, and every JSON object that holds it, in whatever
    order its properties are listed and whatever else it holds, the
    compiler returns the expression of the design: one sub-expression per
    populated recognised field, the predicates of the comma-separated
    values of a field joined by [or] inside one group, the sub-expressions
    joined by [and], in the order of the field table.  Listing the
    properties in another order gives the same expression. *)
Theorem compile_canonical_clause_order
    (props props' : list (string * JsVal)) (config : Design.FilterConfig) :
  represents props config = true ->
  Design.tidy config = true ->
  NoDup (map fst props) ->
  props ≡ₚ props' ->
  buildWiresharkFilterFromConfig (JObj props) = Ok (Design.compile config)
  /\ buildWiresharkFilterFromConfig (JObj props') = Ok (Design.compile config).
Proof.
  intros Hrep Htidy Hnd Hp. rewrite (compile_tidy config Htidy).
  pose proof (tidy_plainRange config Htidy) as Hplain.
  split; apply compile_as_given; try done.
  by apply (represents_Permutation props props').
Qed.

Lemma compile_canonical_clause_order_witness :
  represents
    [("port", JStr "80, 443"); ("packetSizeMax", JStr "1500");
     ("ip", JStr " 1.2.3.4 , 5.6.7.8 "); ("packetSizeMin", JStr "64")]
    {[ "ip" := " 1.2.3.4 , 5.6.7.8 "; "port" := "80, 443";
       "packetSizeMin" := "64"; "packetSizeMax" := "1500" ]} = true
  /\ Design.tidy
       {[ "ip" := " 1.2.3.4 , 5.6.7.8 "; "port" := "80, 443";
          "packetSizeMin" := "64"; "packetSizeMax" := "1500" ]} = true
  /\ buildWiresharkFilterFromConfig
       (JObj [("port", JStr "80, 443"); ("packetSizeMax", JStr "1500");
              ("ip", JStr " 1.2.3.4 , 5.6.7.8 "); ("packetSizeMin", JStr "64")])
     = Ok ("(ip.addr == 1.2.3.4 or ip.addr == 5.6.7.8) and "
           +:+ "((tcp.port == 80 or udp.port == 80) or (tcp.port == 443 or udp.port == 443))"
           +:+ " and frame.len >= 64 and frame.len <= 1500")
  /\ buildWiresharkFilterFromConfig
       (JObj [("ip", JStr " 1.2.3.4 , 5.6.7.8 "); ("port", JStr "80, 443");
              ("packetSizeMin", JStr "64"); ("packetSizeMax", JStr "1500")])
     = Ok ("(ip.addr == 1.2.3.4 or ip.addr == 5.6.7.8) and "
           +:+ "((tcp.port == 80 or udp.port == 80) or (tcp.port == 443 or udp.port == 443))"
           +:+ " and frame.len >= 64 and frame.len <= 1500").
Proof.
  assert (represents
            [("port", JStr "80, 443"); ("packetSizeMax", JStr "1500");
             ("ip", JStr " 1.2.3.4 , 5.6.7.8 "); ("packetSizeMin", JStr "64")]
            {[ "ip" := " 1.2.3.4 , 5.6.7.8 "; "port" := "80, 443";
               "packetSizeMin" := "64"; "packetSizeMax" := "1500" ]} = true)
    as Hrep by (vm_compute; reflexivity).
  assert (Design.tidy
            {[ "ip" := " 1.2.3.4 , 5.6.7.8 "; "port" := "80, 443";
               "packetSizeMin" := "64"; "packetSizeMax" := "1500" ]} = true)
    as Htidy by (vm_compute; reflexivity).
  assert (NoDup (map fst
            [("port", JStr "80, 443"); ("packetSizeMax", JStr "1500");
             ("ip", JStr " 1.2.3.4 , 5.6.7.8 "); ("packetSizeMin", JStr "64")]))
    as Hnd by (apply (bool_decide_unpack _); vm_compute; exact I).
  assert ([("port", JStr "80, 443"); ("packetSizeMax", JStr "1500");
           ("ip", JStr " 1.2.3.4 , 5.6.7.8 "); ("packetSizeMin", JStr "64")]
          ≡ₚ [("ip", JStr " 1.2.3.4 , 5.6.7.8 "); ("port", JStr "80, 443");
              ("packetSizeMin", JStr "64"); ("packetSizeMax", JStr "1500")])
    as Hp.
  { apply (Permutation_cons_app [_] [_; _]). apply (Permutation_cons_app [_; _] []).
    reflexivity. }
  split; [exact Hrep|]. split; [exact Htidy|].
  destruct (compile_canonical_clause_order _ _ _ Hrep Htidy Hnd Hp) as [H1 H2].
  split; [rewrite H1 | rewrite H2]; vm_compute; reflexivity.
Defined.

(** C5, amended.  For every string-valued config with a time range of the
    form [start/end], the compiler returns the expression of the design in
    which only the comma-separated fields are trimmed: the entries of each
    of the ten comma-separated fields are trimmed and the blank ones
    dropped, while the value of [packetSizeMin] and [packetSizeMax] and the
    two sides of [timeRange] are inserted as they stand and count as absent
    only when empty.  A comma-separated field none of whose entries
    survives is treated as absent: removing it from the config changes
    nothing.  In particular [{ip: " 1.2.3.4 , 5.6.7.8 "}] gives an [or] of
    exactly two address predicates. *)
Theorem value_list_trimmed_blank_absent
    (props : list (string * JsVal)) (config : Design.FilterConfig) :
  represents props config = true ->
  Design.plainRange config = true ->
  buildWiresharkFilterFromConfig (JObj props)
  = Ok (Design.compileWith Design.asGiven config)
  /\ (forall field raw,
        field ∈ Design.listFields ->
        config !! field = Some raw ->
        Design.values raw = [] ->
        buildWiresharkFilterFromConfig (JObj (removeField field props))
        = buildWiresharkFilterFromConfig (JObj props))
  /\ buildWiresharkFilterFromConfig (JObj [("ip", JStr " 1.2.3.4 , 5.6.7.8 ")])
     = Ok "(ip.addr == 1.2.3.4 or ip.addr == 5.6.7.8)".
Proof.
  intros Hrep Hplain. split; [by apply compile_as_given|].
  split; [|vm_compute; reflexivity].
  intros field raw Hfield Hraw Hblank. rewrite values_surviving in Hblank.
  change Design.listFields with valueListFields in Hfield.
  assert (getField (JObj props) field = Some (JStr raw)) as Hget.
  { unfold represents in Hrep. rewrite forallb_forall in Hrep.
    assert (In field Design.fields) as Hin.
    { apply list_elem_of_In. revert Hfield. unfold valueListFields, Design.fields.
      cbn. set_solver. }
    specialize (Hrep field Hin). unfold agree in Hrep. rewrite Hraw in Hrep.
    cbn [getField]. destruct (assoc field props) as [[| | |raw'| |]|]; try discriminate.
    by apply String.eqb_eq in Hrep as ->. }
  apply compile_ext, List.Forall_forall. intros [g k] Hin%list_elem_of_In.
  simpl. destruct (String.eqb_spec field g) as [<-|Hne].
  - destruct (fieldTable_valueList field k Hin Hfield) as [pred ->].
    unfold fieldClauses at 2. rewrite Hget. simpl.
    unfold fieldClauses, getField. rewrite assoc_removeField, String.eqb_refl.
    rewrite Hblank. by destruct raw.
  - apply fieldClauses_ext. simpl. rewrite assoc_removeField.
    by destruct (String.eqb_spec field g).
Qed.

Lemma value_list_trimmed_blank_absent_witness :
  represents
    [("ip", JStr " 1.2.3.4 , 5.6.7.8 "); ("port", JStr " , "); ("packetSizeMin", JStr " 64");
     ("timeRange", JStr "/2024-01-02 ")]
    {[ "ip" := " 1.2.3.4 , 5.6.7.8 "; "port" := " , "; "packetSizeMin" := " 64";
       "timeRange" := "/2024-01-02 " ]} = true
  /\ Design.plainRange
       {[ "ip" := " 1.2.3.4 , 5.6.7.8 "; "port" := " , "; "packetSizeMin" := " 64";
          "timeRange" := "/2024-01-02 " ]} = true
  /\ buildWiresharkFilterFromConfig
       (JObj [("ip", JStr " 1.2.3.4 , 5.6.7.8 "); ("port", JStr " , ");
              ("packetSizeMin", JStr " 64"); ("timeRange", JStr "/2024-01-02 ")])
     = Ok ("(ip.addr == 1.2.3.4 or ip.addr == 5.6.7.8) and frame.len >=  64 and "
           +:+ "frame.time <= " +:+ Js.dquote +:+ "2024-01-02 " +:+ Js.dquote).
Proof.
  assert (represents
            [("ip", JStr " 1.2.3.4 , 5.6.7.8 "); ("port", JStr " , ");
             ("packetSizeMin", JStr " 64"); ("timeRange", JStr "/2024-01-02 ")]
            {[ "ip" := " 1.2.3.4 , 5.6.7.8 "; "port" := " , "; "packetSizeMin" := " 64";
               "timeRange" := "/2024-01-02 " ]} = true)
    as Hrep by (vm_compute; reflexivity).
  assert (Design.plainRange
            {[ "ip" := " 1.2.3.4 , 5.6.7.8 "; "port" := " , "; "packetSizeMin" := " 64";
               "timeRange" := "/2024-01-02 " ]} = true)
    as Hplain by (vm_compute; reflexivity).
  split; [exact Hrep|]. split; [exact Hplain|].
  rewrite (proj1 (value_list_trimmed_blank_absent _ _ Hrep Hplain)).
  vm_compute. reflexivity.
Defined.

(** * Further properties of the code *)

(** ** The filter compiler *)

Lemma fieldTable_canonical (g : string) (k : FieldKind) :
  (g, k) ∈ fieldTable -> g ∈ canonicalOrder.
Proof.
  intros H. unfold canonicalOrder. apply list_elem_of_In, List.in_map_iff.
  exists (g, k). split; [done|]. by apply list_elem_of_In.
Qed.

(** X1.  A property whose name is not one of the thirteen recognised
    fields is ignored: dropping it from the config changes nothing in what
    the compiler returns. *)
Theorem compile_ignores_unrecognised (props : list (string * JsVal)) (name : string) :
  name ∉ canonicalOrder ->
  buildWiresharkFilterFromConfig (JObj props)
  = buildWiresharkFilterFromConfig (JObj (removeField name props)).
Proof.
  intros Hname. apply compile_ext, List.Forall_forall.
  intros [g k] Hin%list_elem_of_In. apply fieldClauses_ext. simpl.
  rewrite assoc_removeField. destruct (String.eqb_spec name g) as [->|]; [|done].
  exfalso. eauto using fieldTable_canonical.
Qed.

Lemma compile_ignores_unrecognised_witness :
  ("packetType" ∉ canonicalOrder)
  /\ buildWiresharkFilterFromConfig
       (JObj [("packetType", JNum 6); ("ip", JStr "10.0.0.1")])
     = buildWiresharkFilterFromConfig (JObj [("ip", JStr "10.0.0.1")]).
Proof.
  assert ("packetType" ∉ canonicalOrder) as H
    by (apply (bool_decide_unpack _); vm_compute; exact I).
  split; [exact H|].
  exact (compile_ignores_unrecognised
           [("packetType", JNum 6); ("ip", JStr "10.0.0.1")] "packetType" H).
Defined.

Lemma fieldClauses_Ok_iff (c : JsVal) (p : string * FieldKind) :
  (exists cs, fieldClauses c p.1 p.2 = Ok cs) <-> splittableField c p = true.
Proof.
  unfold fieldClauses, splittableField, prints. destruct p as [f k]; simpl.
  destruct (getField c f) as [v|]; [|split; eauto].
  destruct (truthy v) eqn:Hv; simpl; [|split; eauto].
  destruct k as [pred|op|].
  - destruct v; simpl; split; eauto; try discriminate; intros [cs [=]].
  - destruct (toString v); simpl; split; eauto; try discriminate; intros [cs [=]].
  - destruct v; simpl; split; eauto; try discriminate; intros [cs [=]].
Qed.

Lemma collectClauses_Ok_iff (c : JsVal) (table : list (string * FieldKind)) :
  (exists cs, collectClauses c table = Ok cs) <-> forallb (splittableField c) table = true.
Proof.
  induction table as [|[f k] rest IH]; simpl.
  - split; eauto.
  - rewrite andb_true_iff, <- IH, <- (fieldClauses_Ok_iff c (f, k)). simpl.
    destruct (fieldClauses c f k) as [cs|e]; simpl.
    + destruct (collectClauses c rest) as [more|e]; simpl.
      * split; eauto.
      * split; [intros [? [=]] | intros [_ [? [=]]]].
    + split; [intros [? [=]] | intros [[? [=]] _]].
Qed.

(** X2.  On an object the compiler returns an expression exactly when
    every recognised field that is present and truthy can be used as the
    code uses it: a string in [timeRange] and in the ten comma-separated
    fields, which are split, and a value that a template literal can print
    in the two size bounds; otherwise it throws.  A bound may be a number,
    but not an object with a [toString] property of its own. *)
Theorem compile_returns_iff_splittable (props : list (string * JsVal)) :
  (exists expression, buildWiresharkFilterFromConfig (JObj props) = Ok expression)
  <-> splittable (JObj props) = true.
Proof.
  rewrite compile_by_field. unfold compileByField, splittable.
  rewrite <- collectClauses_Ok_iff.
  destruct (collectClauses (JObj props) fieldTable) as [cs|e]; simpl.
  - split; eauto.
  - split; intros [? [=]].
Qed.

Example compile_object_bound_throws :
  buildWiresharkFilterFromConfig
    (JObj [("packetSizeMin", JObj [("toString", JNum 0)])])
  = Throw (TypeError "Cannot convert object to primitive value").
Proof. vm_compute. reflexivity. Qed.

Example compile_number_bound_accepted :
  buildWiresharkFilterFromConfig (JObj [("packetSizeMin", JNum 64)])
  = Ok "frame.len >= 64".
Proof. vm_compute. reflexivity. Qed.

Example compile_number_timeRange_throws :
  buildWiresharkFilterFromConfig (JObj [("timeRange", JNum 5)])
  = Throw (TypeError "config.timeRange.split is not a function").
Proof. vm_compute. reflexivity. Qed.

(** Every clause the compiler emits is a non-empty string. *)
Lemma fieldClauses_nonempty (c : JsVal) (f : string) (k : FieldKind) (cs : list string) :
  fieldClauses c f k = Ok cs -> Forall (fun x => Js.Boolean x = true) cs.
Proof.
  unfold fieldClauses. destruct (getField c f) as [v|]; [|by intros [= <-]].
  destruct (truthy v); simpl; [|by intros [= <-]].
  destruct k as [pred|op|].
  2:{ destruct (toString v); simpl; [|discriminate]. intros [= <-]. by repeat constructor. }
  all: destruct v; try discriminate; intros [= <-].
  - unfold orGroup. destruct (survivingValues s); by repeat constructor.
  - unfold timeClauses.
    destruct (Js.split "/" s !! 0%nat) as [a|]; [destruct (Js.Boolean a)|];
      (destruct (Js.split "/" s !! 1%nat) as [b|]; [destruct (Js.Boolean b)|]);
      by repeat constructor.
Qed.

Lemma join_empty (sep : string) (l : list string) :
  Forall (fun x => Js.Boolean x = true) l -> Js.join sep l = EmptyString -> l = [].
Proof.
  destruct l as [|x l]; [done|]. intros Hall Hj. exfalso.
  inversion Hall as [|? ? Hx _]; subst.
  destruct x as [|a x]; [discriminate|].
  destruct l; simpl in Hj; [discriminate|]. rewrite append_cons in Hj. discriminate.
Qed.

Lemma fieldClauses_nil (c : JsVal) (p : string * FieldKind) :
  fieldClauses c p.1 p.2 = Ok [] -> unpopulatedField c p = true.
Proof.
  unfold fieldClauses, unpopulatedField. destruct p as [f k]; simpl.
  destruct (getField c f) as [v|]; [|done].
  destruct (truthy v); simpl; [|done].
  destruct k as [pred|op|].
  2:{ by destruct (toString v). }
  all: destruct v; try discriminate; intros [= H].
  - apply bool_decide_eq_true. unfold orGroup in H.
    by destruct (survivingValues s).
  - by apply bool_decide_eq_true.
Qed.

Lemma collectClauses_nil (c : JsVal) (table : list (string * FieldKind)) :
  collectClauses c table = Ok [] -> forallb (unpopulatedField c) table = true.
Proof.
  induction table as [|[f k] rest IH]; simpl; [done|].
  destruct (fieldClauses c f k) as [cs|e] eqn:Hf; simpl; [|discriminate].
  destruct (collectClauses c rest) as [more|e]; simpl; [|discriminate].
  intros [= Happ]. apply app_eq_nil in Happ as [-> ->].
  by rewrite (fieldClauses_nil c (f, k) Hf), IH.
Qed.

Lemma collectClauses_nonempty (c : JsVal) (table : list (string * FieldKind))
    (cs : list string) :
  collectClauses c table = Ok cs -> Forall (fun x => Js.Boolean x = true) cs.
Proof.
  revert cs. induction table as [|[f k] rest IH]; simpl; intros cs.
  - by intros [= <-].
  - destruct (fieldClauses c f k) as [cs1|e] eqn:Hf; simpl; [|discriminate].
    destruct (collectClauses c rest) as [more|e]; simpl; [|discriminate].
    intros [= <-]. apply Forall_app. split; [by eapply fieldClauses_nonempty | by apply IH].
Qed.

(** X3.  On an object the empty expression, for which the filter step
    copies the merged capture instead of running the filter tool, is
    returned exactly when none of the recognised fields is populated. *)
Theorem compile_empty_iff_unpopulated (props : list (string * JsVal)) :
  buildWiresharkFilterFromConfig (JObj props) = Ok EmptyString
  <-> unpopulated (JObj props) = true.
Proof.
  split; [|apply compile_unpopulated].
  rewrite compile_by_field. unfold compileByField, unpopulated. intros H.
  destruct (collectClauses (JObj props) fieldTable) as [cs|e] eqn:Hc;
    simpl in H; [|discriminate H].
  injection H as Hj. apply collectClauses_nil.
  by rewrite (join_empty _ cs (collectClauses_nonempty _ _ _ Hc) Hj) in Hc.
Qed.

(** ** Splitting and joining *)

Lemma split_without_separator (sep : ascii) (a : string) :
  hasChar sep a = false -> Js.split sep a = [a].
Proof.
  induction a as [|x a IH]; simpl; [done|].
  intros [Hx Ha]%orb_false_iff. rewrite Hx, IH by done. reflexivity.
Qed.

Lemma split_app (sep : ascii) (a r : string) :
  hasChar sep a = false ->
  Js.split sep (a +:+ String sep r) = a :: Js.split sep r.
Proof.
  induction a as [|x a IH]; intros Ha.
  - change (EmptyString +:+ String sep r) with (String sep r). simpl.
    by rewrite Ascii.eqb_refl.
  - simpl in Ha. apply orb_false_iff in Ha as [Hx Ha].
    rewrite append_cons. simpl. rewrite Hx, IH by done. reflexivity.
Qed.

Lemma split_join (vs : list string) :
  vs <> [] ->
  Forall (fun v => hasChar "," v = false) vs ->
  Js.split "," (Js.join "," vs) = vs.
Proof.
  induction vs as [|v vs IH]; [done|]. intros _ Hall.
  inversion Hall as [|? ? Hv Hvs]; subst.
  destruct vs as [|w ws].
  - simpl. by apply split_without_separator.
  - change (Js.join "," (v :: w :: ws)) with (v +:+ String "," (Js.join "," (w :: ws))).
    rewrite split_app by done. f_equal. by apply IH.
Qed.

Lemma cleanValue_spec (v : string) :
  cleanValue v = true
  <-> Js.Boolean v = true /\ Js.trim v = v /\ hasChar "," v = false.
Proof.
  unfold cleanValue. rewrite !andb_true_iff, negb_true_iff, String.eqb_eq. tauto.
Qed.

(** X4.  Values that are already non-blank, trimmed and free of commas
    come out of a comma-separated field unchanged and in order: [multiFilter]
    applied to their join gives the [or] of their predicates, one per
    value. *)
Theorem multiFilter_clean_values
    (config : JsVal) (field : string) (cb : string -> string) (vs : list string) :
  vs <> [] ->
  Forall (fun v => cleanValue v = true) vs ->
  getField config field = Some (JStr (Js.join "," vs)) ->
  survivingValues (Js.join "," vs) = vs
  /\ multiFilter config field cb = Ok (Some (Js.join " or " (map cb vs))).
Proof.
  intros Hne Hall Hget.
  assert (survivingValues (Js.join "," vs) = vs) as Hvalues.
  { unfold survivingValues. rewrite split_join.
    - clear Hne Hget. induction Hall as [|v vs Hv _ IH]; simpl; [done|].
      apply cleanValue_spec in Hv as (Hb & Ht & _). rewrite Ht. rewrite Hb. rewrite IH.
      reflexivity.
    - done.
    - eapply Forall_impl; [exact Hall|]. intros v Hv.
      by apply cleanValue_spec in Hv as (_ & _ & Hc). }
  split; [exact Hvalues|].
  unfold multiFilter. rewrite Hget.
  assert (truthy (JStr (Js.join "," vs)) = true) as ->.
  { destruct vs as [|v vs]; [done|]. inversion Hall as [|? ? Hv _]; subst.
    apply cleanValue_spec in Hv as (Hb & _ & _). simpl.
    destruct vs; [done|]. by apply Boolean_append_l. }
  cbn [negb]. rewrite Hvalues. by destruct vs.
Qed.

Lemma multiFilter_clean_values_witness :
  ["10.0.0.1"; "10.0.0.2"; "10.0.0.3"] <> []
  /\ Forall (fun v => cleanValue v = true) ["10.0.0.1"; "10.0.0.2"; "10.0.0.3"]
  /\ multiFilter (JObj [("ip", JStr "10.0.0.1,10.0.0.2,10.0.0.3")]) "ip"
       (fun ip => "ip.addr == " +:+ ip)
     = Ok (Some "ip.addr == 10.0.0.1 or ip.addr == 10.0.0.2 or ip.addr == 10.0.0.3").
Proof.
  assert (["10.0.0.1"; "10.0.0.2"; "10.0.0.3"] <> []) as H1 by discriminate.
  assert (Forall (fun v => cleanValue v = true) ["10.0.0.1"; "10.0.0.2"; "10.0.0.3"])
    as H2 by (repeat constructor).
  split; [exact H1|]. split; [exact H2|].
  exact (proj2 (multiFilter_clean_values
                  (JObj [("ip", JStr "10.0.0.1,10.0.0.2,10.0.0.3")]) "ip"
                  (fun ip => "ip.addr == " +:+ ip) _ H1 H2 eq_refl)).
Defined.

Lemma hasSlash_hasChar (s : string) : hasSlash s = hasChar "/" s.
Proof. induction s as [|c r IH]; simpl; [done|]. by rewrite IH. Qed.

Lemma Boolean_append_separator (a r : string) (sep : ascii) :
  Js.Boolean (a +:+ String sep r) = true.
Proof. by destruct a. Qed.

Lemma timeClauses_third_part (a b rest : string) :
  hasSlash a = false -> hasSlash b = false ->
  timeClauses (a +:+ String "/" (b +:+ String "/" rest))
  = timeClauses (a +:+ String "/" b).
Proof.
  rewrite !hasSlash_hasChar. intros Ha Hb. unfold timeClauses.
  rewrite (split_app "/" a (b +:+ String "/" rest) Ha), (split_app "/" b rest Hb).
  rewrite (split_app "/" a b Ha), (split_without_separator "/" b Hb).
  reflexivity.
Qed.

(** X5.  In [timeRange] only the text before the first slash and the text
    between the first and the second slash are read: whatever follows a
    second slash is dropped without notice. *)
Theorem timeRange_extra_parts_ignored
    (props : list (string * JsVal)) (a b rest : string) :
  hasSlash a = false ->
  hasSlash b = false ->
  buildWiresharkFilterFromConfig
    (JObj (("timeRange", JStr (a +:+ String "/" (b +:+ String "/" rest))) :: props))
  = buildWiresharkFilterFromConfig
      (JObj (("timeRange", JStr (a +:+ String "/" b)) :: props)).
Proof.
  intros Ha Hb. apply compile_ext, List.Forall_forall.
  intros [g k] Hin%list_elem_of_In. simpl.
  destruct (String.eqb g "timeRange") eqn:Hg.
  - apply String.eqb_eq in Hg as ->.
    assert (k = TimeRange) as ->.
    { unfold fieldTable in Hin.
      repeat (apply elem_of_cons in Hin as [Hin|Hin];
              [by inversion Hin|]).
      by apply elem_of_nil in Hin. }
    unfold fieldClauses. cbn [getField assoc String.eqb Ascii.eqb Bool.eqb].
    cbn [truthy]. rewrite !Boolean_append_separator. cbn [negb].
    by rewrite timeClauses_third_part.
  - apply fieldClauses_ext. simpl. by rewrite Hg.
Qed.

Lemma timeRange_extra_parts_ignored_witness :
  hasSlash "2024-01-01" = false
  /\ hasSlash "2024-01-02" = false
  /\ buildWiresharkFilterFromConfig
       (JObj [("timeRange", JStr "2024-01-01/2024-01-02/2024-01-03")])
     = buildWiresharkFilterFromConfig
         (JObj [("timeRange", JStr "2024-01-01/2024-01-02")]).
Proof.
  split; [reflexivity|]. split; [reflexivity|].
  exact (timeRange_extra_parts_ignored [] "2024-01-01" "2024-01-02" "2024-01-03"
           eq_refl eq_refl).
Defined.

(** ** The agent registry is append-only *)

Lemma registerAll_prefix (names : list string) (st : State) :
  containerNames st `prefix_of` containerNames (registerAll names st).2
  /\ files (registerAll names st).2 = files st
  /\ log (registerAll names st).2 = log st.
Proof.
  revert st. induction names as [|n rest IH]; intros st; [done|].
  rewrite registerAll_cons, register_run. cbn [fst snd].
  destruct (IH (if bool_decide (n ∈ containerNames st) then st
                else mkState (files st) (containerNames st ++ [n]) (log st)))
    as (Hp & Hf & Hl).
  rewrite Hf, Hl. case_bool_decide; [done|]. simpl in *.
  split; [|done]. etrans; [|exact Hp]. by apply prefix_app_r.
Qed.

(** X6.  Registration is append-only: whatever sequence of registrations
    is made, the identities registered before are still listed, in the same
    order and at the front; an identity is listed afterwards exactly when
    it was listed before or occurs in the sequence; and the store and the
    log are not touched. *)
Theorem register_append_only (names : list string) (st : State) (x : string) :
  containerNames st `prefix_of` containerNames (registerAll names st).2
  /\ (x ∈ containerNames (registerAll names st).2
      <-> x ∈ containerNames st \/ x ∈ names)
  /\ files (registerAll names st).2 = files st
  /\ log (registerAll names st).2 = log st.
Proof.
  destruct (registerAll_prefix names st) as (Hp & Hf & Hl).
  split; [exact Hp|]. split; [|by split].
  clear. revert st. induction names as [|n rest IH]; intros st.
  - simpl. rewrite elem_of_nil. tauto.
  - rewrite registerAll_cons, register_run. cbn [fst snd]. rewrite IH.
    rewrite elem_of_cons. case_bool_decide as Hin; simpl.
    + split; [tauto|]. intros [?|[->|?]]; tauto.
    + rewrite elem_of_app, list_elem_of_singleton. tauto.
Qed.

(** ** Handlers leave the registry alone and only append to the log *)

Lemma grows_refl (st : State) : grows st st.
Proof. by split. Qed.

Lemma grows_trans (a b c : State) : grows a b -> grows b c -> grows a c.
Proof. intros [H1 H2] [H3 H4]. split; [congruence | by etrans]. Qed.

Lemma cons_ret {A} (a : A) : conservative (mret a : M A).
Proof. intros st. apply grows_refl. Qed.

Lemma cons_throw {A} (e : JsError) : conservative (throw e : M A).
Proof. intros st. apply grows_refl. Qed.

Lemma cons_liftR {A} (r : Result A) : conservative (liftR r).
Proof. intros st. apply grows_refl. Qed.

Lemma cons_getFiles : conservative getFiles.
Proof. intros st. apply grows_refl. Qed.

Lemma cons_setFiles (fs : gmap string string) : conservative (setFiles fs).
Proof. intros st. by split. Qed.

Lemma cons_logEvent (ev : string) (det : option string) (ok : option bool) :
  conservative (logEvent ev det ok).
Proof. intros st. split; [done|]. by apply prefix_app_r. Qed.

Lemma cons_bind {A B} (m : M A) (f : A -> M B) :
  conservative m -> (forall a, conservative (f a)) -> conservative (m ≫= f).
Proof.
  intros Hm Hf st. rewrite bind_run. specialize (Hm st).
  destruct (m st) as [[a|e] st']; simpl in *; [|done].
  eapply grows_trans; [exact Hm | apply Hf].
Qed.

Lemma cons_try_catch {A} (m : M A) (h : JsError -> M A) :
  conservative m -> (forall e, conservative (h e)) -> conservative (try_catch m h).
Proof.
  intros Hm Hh st. unfold try_catch. specialize (Hm st).
  destruct (m st) as [[a|e] st']; simpl in *; [done|].
  eapply grows_trans; [exact Hm | apply Hh].
Qed.

Lemma cons_exec (env : Env) (cmd : string) : conservative (exec env cmd).
Proof.
  intros st. unfold exec.
  repeat match goal with
         | |- context [match ?x with _ => _ end] => destruct x; try apply grows_refl
         end; by split.
Qed.

Create HintDb cons.

#[local] Hint Resolve cons_ret cons_throw cons_liftR cons_getFiles cons_setFiles
  cons_logEvent cons_exec : cons.

Ltac cons :=
  repeat first
    [ progress (intros)
    | solve [auto with cons]
    | apply cons_bind
    | apply cons_try_catch
    | match goal with
      | |- conservative (match ?x with _ => _ end) => destruct x
      | |- conservative (if ?b then _ else _) => destruct b
      | |- conservative (let _ := _ in _) => cbv zeta
      end ].

Lemma cons_existsSync (path : string) : conservative (existsSync path).
Proof. unfold existsSync. cons. Qed.

Lemma cons_readFile (path : string) : conservative (readFile path).
Proof. unfold readFile. cons. Qed.

Lemma cons_unlink (path : string) : conservative (unlink path).
Proof. unfold unlink. cons. Qed.

Lemma cons_readdir (dir : string) : conservative (readdir dir).
Proof. unfold readdir. cons. Qed.

#[local] Hint Resolve cons_existsSync cons_readFile cons_unlink cons_readdir : cons.

Lemma cons_forEach {A} (l : list A) (f : A -> M unit) :
  (forall x, conservative (f x)) -> conservative (forEach l f).
Proof. intros Hf. induction l; simpl; cons. Qed.

Lemma cons_unlinkIfExists (path : string) : conservative (unlinkIfExists path).
Proof. unfold unlinkIfExists. cons. Qed.

Lemma cons_broadcast (env : Env) (phase verb : string) (names : list string) :
  conservative (broadcast env phase verb names).
Proof. induction names; simpl; cons. Qed.

#[local] Hint Resolve cons_unlinkIfExists cons_broadcast : cons.

Lemma cons_pcapToJson (env : Env) (pcapFile jsonFile : string) :
  conservative (pcapToJson env pcapFile jsonFile).
Proof. unfold pcapToJson. cons. Qed.

Lemma cons_mergePcaps (env : Env) (dir mergedPcapFile : string) :
  conservative (mergePcaps env dir mergedPcapFile).
Proof. unfold mergePcaps, rm_force. cons. Qed.

#[local] Hint Resolve cons_pcapToJson cons_mergePcaps : cons.

Lemma cons_names : conservative (fun st => (Ok (containerNames st), st)).
Proof. intros st. apply grows_refl. Qed.

#[local] Hint Resolve cons_names : cons.

Lemma cons_filterPcapAndJson (env : Env) (mergedPcapFile filterString outputDir : string) :
  conservative (filterPcapAndJson env mergedPcapFile filterString outputDir).
Proof. unfold filterPcapAndJson. cons. Qed.

Lemma cons_clearOldPcaps (dir : string) : conservative (clearOldPcaps dir).
Proof. unfold clearOldPcaps. cons; apply cons_forEach; cons. Qed.

#[local] Hint Resolve cons_filterPcapAndJson cons_clearOldPcaps : cons.

(** X7.  Only registration changes the registry, and the audit log is
    append-only: after [start], [stop], a config submission or a reset the
    registered identities are the same and the earlier log lines are still
    there, in order, at the front of the log. *)
Theorem handlers_keep_registry_and_log (env : Env) (config : JsVal) (st : State) :
  grows st (start env st).2
  /\ grows st (stop env st).2
  /\ grows st (postConfig env config st).2
  /\ grows st (cleanConf st).2.
Proof.
  split; [|split; [|split]].
  - assert (conservative (start env)) as H; [|apply H].
    unfold start. cons.
  - assert (conservative (stop env)) as H; [|apply H].
    unfold stop, stopTry, decodeMerged, getLatestConfig, filterIfConfigured,
      stopResponse, stopFailed, orParse. cons.
  - assert (conservative (postConfig env config)) as H; [|apply H].
    unfold postConfig, saveConfig, ensureDirSync, writeFileSync. cons.
  - assert (conservative cleanConf) as H; [|apply H].
    unfold cleanConf. cons; apply cons_forEach; cons.
Qed.

(** ** Handlers answer every request *)

Lemma returns_bind_post {A B} (m : M A) (f : A -> M B) (Q : A -> Prop) (P : B -> Prop) :
  returns m Q -> (forall a, Q a -> returns (f a) P) -> returns (m ≫= f) P.
Proof.
  intros Hm Hf st b st'. rewrite bind_run.
  destruct (m st) as [[a|e] st1] eqn:Hrun; [|intros [=]].
  eapply Hf, Hm, Hrun.
Qed.

Lemma answers_try_catch_returns {A} (m : M A) (h : JsError -> M A) (P : A -> Prop) :
  returns m P -> (forall e, answers (h e) P) -> answers (try_catch m h) P.
Proof.
  intros Hm Hh st. unfold try_catch.
  destruct (m st) as [[a|e] st1] eqn:Hrun; [|apply Hh].
  exists a, st1. split; [done|]. eapply Hm, Hrun.
Qed.

Lemma stopTry_returns (env : Env) (results : list JsVal) (mergedPcapFile jsonOutputFile : string) :
  returns (stopTry env results mergedPcapFile jsonOutputFile)
    (fun resp => status resp = 200).
Proof. unfold stopTry, stopResponse. returns. reflexivity. Qed.

(** X8.  The status of an answer tells its cause.  Whenever [stop]
    answers, the status is 200, 400 or 500, and it is 400 exactly when no
    agent is registered; whenever a config submission answers, the status
    is 200, 400, 422 or 500, and it is 400 exactly when the body is falsy. *)
Theorem stop_and_config_statuses
    (env : Env) (config : JsVal) (st : State)
    (resp resp' : Response) (st1 st2 : State) :
  stop env st = (Ok resp, st1) ->
  postConfig env config st = (Ok resp', st2) ->
  (status resp ∈ [200; 400; 500]
   /\ (status resp = 400 <-> containerNames st = []))
  /\ (status resp' ∈ [200; 400; 422; 500]
      /\ (status resp' = 400 <-> truthy config = false)).
Proof.
  intros Hstop Hconfig. split.
  - destruct (containerNames st) as [|name names] eqn:Hnames.
    + rewrite stop_unregistered in Hstop by done. injection Hstop as <- _.
      split; [set_solver|done].
    + rewrite stop_run in Hstop by (by rewrite Hnames). unfold try_catch in Hstop.
      match type of Hstop with context [stopTry ?e ?r ?m ?j ?s] =>
        destruct (stopTry e r m j s) as [[resp0|e0] st0] eqn:Hrun
      end.
      * injection Hstop as <- _. rewrite (stopTry_returns _ _ _ _ _ _ _ Hrun).
        split; [set_solver|]. split; discriminate.
      * injection Hstop as <- _. cbn [status].
        split; [set_solver|]. split; discriminate.
  - unfold postConfig in Hconfig. destruct (truthy config) eqn:Htruthy; cbn [negb] in Hconfig.
    2:{ injection Hconfig as <- _. split; [set_solver|done]. }
    unfold try_catch in Hconfig.
    match type of Hconfig with context [match ?m st with _ => _ end] =>
      assert (returns m (fun r => status r = 200 \/ status r = 422)) as Hreturns
        by (returns; simpl; auto);
      destruct (m st) as [[resp0|e0] st0] eqn:Hrun
    end.
    + injection Hconfig as <- _.
      destruct (Hreturns _ _ _ Hrun) as [-> | ->]; (split; [set_solver|split; discriminate]).
    + rewrite bind_run, logEvent_run in Hconfig. injection Hconfig as <- _.
      cbn [status json]. split; [set_solver|split; discriminate].
Qed.

Lemma stop_and_config_statuses_witness :
  (stop (Scenario.env true true false) Scenario.capturedWithConfig).1
  = Ok (json 200
          [("message", Some (JStr "Stop signal sent to all scan dockers."));
           ("results", Some (JArr [outcome "scan1" "success"]));
           ("pcapData", Some (JArr [JStr "[pkts1]"]));
           ("filterStatus", Some (JStr "ko"));
           ("error", Some (JStr "Filtering failed: tshark: Invalid display filter"))])
  /\ (postConfig (Scenario.env true true false) (JObj [("ip", JStr "10.0.0.1")])
        Scenario.capturedWithConfig).1
     = Ok (json 422
             [("message", Some (JStr "Configuration saved but filtering failed"))])
  /\ containerNames Scenario.capturedWithConfig <> []
  /\ truthy (JObj [("ip", JStr "10.0.0.1")]) <> false.
Proof.
  assert ((stop (Scenario.env true true false) Scenario.capturedWithConfig).1
          = Ok (json 200
                  [("message", Some (JStr "Stop signal sent to all scan dockers."));
                   ("results", Some (JArr [outcome "scan1" "success"]));
                   ("pcapData", Some (JArr [JStr "[pkts1]"]));
                   ("filterStatus", Some (JStr "ko"));
                   ("error",
                    Some (JStr "Filtering failed: tshark: Invalid display filter"))]))
    as Hstop by (vm_compute; reflexivity).
  assert ((postConfig (Scenario.env true true false) (JObj [("ip", JStr "10.0.0.1")])
             Scenario.capturedWithConfig).1
          = Ok (json 422
                  [("message", Some (JStr "Configuration saved but filtering failed"))]))
    as Hconfig by (vm_compute; reflexivity).
  split; [exact Hstop|]. split; [exact Hconfig|].
  destruct (stop_and_config_statuses (Scenario.env true true false)
              (JObj [("ip", JStr "10.0.0.1")]) Scenario.capturedWithConfig _ _ _ _
              (run_outcome _ _ Hstop) (run_outcome _ _ Hconfig))
    as [[_ Hnames] [_ Htruthy]].
  split.
  - intros Hnone. apply Hnames in Hnone. discriminate Hnone.
  - intros Hfalsy. apply Htruthy in Hfalsy. discriminate Hfalsy.
Defined.

(** X9.  A 200 answer of [stop] always carries the per-agent outcomes and
    a decoded record, and it carries an error exactly when it carries the
    filter status [ko]: no error is attached to a successful or absent
    filtering, and a failed filtering never goes unreported. *)
Theorem stop_response_shape (env : Env) (st : State) (resp : Response) :
  (stop env st).1 = Ok resp ->
  status resp = 200 ->
  is_Some (bodyField resp "results")
  /\ is_Some (bodyField resp "pcapData")
  /\ (bodyField resp "filterStatus" = Some (JStr "ko")
      <-> is_Some (bodyField resp "error")).
Proof.
  intros Hrun. destruct (stop env st) as [r st'] eqn:Hstop. simpl in Hrun. subst r.
  revert st resp st' Hstop.
  change (returns (stop env)
            (fun resp => status resp = 200 ->
               is_Some (bodyField resp "results")
               /\ is_Some (bodyField resp "pcapData")
               /\ (bodyField resp "filterStatus" = Some (JStr "ko")
                   <-> is_Some (bodyField resp "error")))).
  unfold stop. apply returns_bind. intros names.
  destruct (length names =? 0)%nat; [apply returns_ret; discriminate|].
  apply returns_bind. intros results.
  apply returns_try_catch.
  2:{ intros e. unfold stopFailed. returns. discriminate. }
  unfold stopTry. apply returns_bind. intros _. apply returns_bind. intros decoded.
  eapply returns_bind_post; [apply filterIfConfigured_returns|]. intros fr Hfr.
  unfold stopResponse. apply returns_bind. intros _. apply returns_bind. intros pcapData.
  apply returns_ret. intros _. unfold stopBody.
  destruct fr as [[status0 data message0]|].
  - destruct status0.
    + cbv. split; [by eexists|]. split; [by eexists|].
      split; [discriminate | by intros [? [=]]].
    + destruct (Hfr _ eq_refl eq_refl) as (_ & msg & Hmsg). simpl in Hmsg. subst.
      cbv. split; [by eexists|]. split; [by eexists|].
      split; [by eexists | done].
  - cbv. split; [by eexists|]. split; [by eexists|].
    split; [discriminate | by intros [? [=]]].
Qed.

Lemma stop_response_shape_witness :
  (stop (Scenario.env true true false) Scenario.capturedWithConfig).1
  = Ok (json 200
          [("message", Some (JStr "Stop signal sent to all scan dockers."));
           ("results", Some (JArr [outcome "scan1" "success"]));
           ("pcapData", Some (JArr [JStr "[pkts1]"]));
           ("filterStatus", Some (JStr "ko"));
           ("error", Some (JStr "Filtering failed: tshark: Invalid display filter"))])
  /\ is_Some (bodyField
       (json 200
          [("message", Some (JStr "Stop signal sent to all scan dockers."));
           ("results", Some (JArr [outcome "scan1" "success"]));
           ("pcapData", Some (JArr [JStr "[pkts1]"]));
           ("filterStatus", Some (JStr "ko"));
           ("error", Some (JStr "Filtering failed: tshark: Invalid display filter"))])
       "results").
Proof.
  assert ((stop (Scenario.env true true false) Scenario.capturedWithConfig).1
          = Ok (json 200
                  [("message", Some (JStr "Stop signal sent to all scan dockers."));
                   ("results", Some (JArr [outcome "scan1" "success"]));
                   ("pcapData", Some (JArr [JStr "[pkts1]"]));
                   ("filterStatus", Some (JStr "ko"));
                   ("error",
                    Some (JStr "Filtering failed: tshark: Invalid display filter"))]))
    as H by (vm_compute; reflexivity).
  split; [exact H|].
  exact (proj1 (stop_response_shape _ _ _ H eq_refl)).
Defined.

(** ** Start: clearing the artifacts of the last round *)

Lemma NoDup_omap {A B} (f : A -> option B) (l : list A) :
  (forall x y z, f x = Some z -> f y = Some z -> x = y) ->
  NoDup l -> NoDup (omap f l).
Proof.
  intros Hinj. induction 1 as [|x l Hx Hl IH]; simpl; [constructor|].
  destruct (f x) as [z|] eqn:Hfx; [|done].
  constructor; [|done]. intros Hz. apply list_elem_of_omap in Hz as (y & Hy & Hfy).
  by rewrite (Hinj x y z Hfx Hfy) in Hx.
Qed.

Lemma NoDup_readdirPure (dir : string) (fs : gmap string string) :
  NoDup (readdirPure dir fs).
Proof.
  unfold readdirPure. apply NoDup_omap.
  - intros x y z Hx%entryName_Some Hy%entryName_Some.
    destruct Hx as [-> _], Hy as [-> _]. done.
  - assert (map fst (map_to_list fs) = (map_to_list fs).*1) as -> by reflexivity.
    apply NoDup_fst_map_to_list.
Qed.

Lemma unlinkedPcaps_lookup (dir : string) (entries : list string)
    (fs : gmap string string) (path : string) :
  unlinkedPcaps dir entries fs !! path
  = if existsb (fun file => Js.endsWith file ".pcap"
                            && String.eqb path (path_join dir file)) entries
    then None else fs !! path.
Proof.
  unfold unlinkedPcaps. revert fs. induction entries as [|x l IH]; intros fs; [done|].
  cbn [foldl existsb]. rewrite IH.
  destruct (existsb _ l); [by rewrite orb_true_r|]. rewrite orb_false_r.
  destruct (Js.endsWith x ".pcap"); [|done]. cbn [andb].
  destruct (String.eqb_spec path (path_join dir x)) as [->|Hne].
  - apply lookup_delete_eq.
  - by apply lookup_delete_ne.
Qed.

Lemma forEach_unlink_run (dir : string) (entries : list string)
    (fs : gmap string string) (names : list string) (lg : list LogEntry) :
  NoDup entries ->
  (forall x, x ∈ entries -> is_Some (fs !! path_join dir x)) ->
  forEach entries
    (fun file => if Js.endsWith file ".pcap" then unlink (path_join dir file)
                 else mret tt)
    (mkState fs names lg)
  = (Ok tt, mkState (unlinkedPcaps dir entries fs) names lg).
Proof.
  unfold unlinkedPcaps. revert fs. induction entries as [|x l IH]; intros fs Hnd Hex; [done|].
  apply NoDup_cons in Hnd as [Hx Hnd]. cbn [forEach foldl]. rewrite bind_run.
  destruct (Js.endsWith x ".pcap").
  - unfold unlink, getFiles, setFiles. rewrite bind_run. cbn [files].
    destruct (Hex x) as [data Hdata]; [by left|]. rewrite Hdata.
    cbn [containerNames log]. apply IH; [done|].
    intros y Hy. rewrite lookup_delete_ne.
    + apply Hex. by right.
    + intros Heq%path_join_inj. by subst.
  - cbn [mret M_ret]. apply IH; [done|]. intros y Hy. apply Hex. by right.
Qed.

Lemma clearOldPcaps_run (st : State) :
  clearOldPcaps pcapDir st
  = (Ok tt,
     mkState
       (delete filteredJsonPath
          (delete filteredPcapPath
             (delete outputJsonPath
                (unlinkedPcaps pcapDir (readdirPure pcapDir (files st)) (files st)))))
       (containerNames st)
       (log st ++ [mkLogEntry "Monitoring started"
                     (Some "Cleared old pcap files, output.json, filtered.pcap, and filtered.json")
                     (Some true)])).
Proof.
  destruct st as [fs names lg]. unfold clearOldPcaps, readdir, getFiles.
  rewrite !bind_run. cbn [mret M_ret files containerNames log]. rewrite bind_run.
  rewrite forEach_unlink_run.
  - rewrite bind_run, unlinkIfExists_run. rewrite bind_run, unlinkIfExists_run.
    rewrite bind_run, unlinkIfExists_run. reflexivity.
  - apply NoDup_readdirPure.
  - intros x Hx. by apply elem_of_readdirPure in Hx as [? _].
Qed.

Lemma clearedByStart_lookup (fs : gmap string string) (path : string) :
  delete filteredJsonPath
    (delete filteredPcapPath
       (delete outputJsonPath
          (unlinkedPcaps pcapDir (readdirPure pcapDir fs) fs))) !! path
  = if clearedByStart path then None else fs !! path.
Proof.
  destruct (decide (path = filteredJsonPath)) as [->|Hfj];
    [by rewrite lookup_delete_eq|].
  rewrite lookup_delete_ne by done.
  destruct (decide (path = filteredPcapPath)) as [->|Hfp];
    [by rewrite lookup_delete_eq|].
  rewrite lookup_delete_ne by done.
  destruct (decide (path = outputJsonPath)) as [->|Hoj];
    [by rewrite lookup_delete_eq|].
  rewrite lookup_delete_ne by done.
  rewrite unlinkedPcaps_lookup. unfold clearedByStart.
  destruct (existsb _ _) eqn:Hex.
  - apply existsb_exists in Hex as (x & Hx & Hc).
    apply andb_true_iff in Hc as [Hends ->%String.eqb_eq].
    apply list_elem_of_In, elem_of_readdirPure in Hx as (_ & Hb & Hh).
    assert (entryName pcapDir (path_join pcapDir x) = Some x) as ->
      by (by apply entryName_Some).
    by rewrite Hends.
  - destruct (entryName pcapDir path) as [name|] eqn:Hname; [|done].
    apply entryName_Some in Hname as (-> & Hb & Hh).
    destruct (Js.endsWith name ".pcap") eqn:Hends; simpl.
    + destruct (fs !! path_join pcapDir name) as [data|] eqn:Hdata; [|done].
      exfalso. apply not_true_iff_false in Hex. apply Hex, existsb_exists.
      exists name. split.
      * apply list_elem_of_In, elem_of_readdirPure. eauto.
      * by rewrite Hends, String.eqb_refl.
    + case_bool_decide as Hin; [|done]. exfalso.
      apply elem_of_cons in Hin as [->|Hin]; [done|].
      apply elem_of_cons in Hin as [->|Hin]; [done|].
      by apply elem_of_nil in Hin.
Qed.

Lemma start_run (env : Env) (st : State) :
  containerNames st <> [] ->
  start env st
  = (Ok (json 200 [("message", Some (JStr "Start signal sent to all scan dockers."));
                   ("results",
                    Some (JArr (broadcastOutcomes env "start" (containerNames st))))]),
     mkState
       (delete filteredJsonPath
          (delete filteredPcapPath
             (delete outputJsonPath
                (unlinkedPcaps pcapDir (readdirPure pcapDir (files st)) (files st)))))
       (containerNames st)
       ((log st ++ [mkLogEntry "Monitoring started"
                      (Some "Cleared old pcap files, output.json, filtered.pcap, and filtered.json")
                      (Some true)])
        ++ broadcastLog env "Monitoring started" "start" (containerNames st))).
Proof.
  intros Hne. unfold start. rewrite bind_run.
  destruct (containerNames st) as [|n rest] eqn:Hnames; [done|].
  cbn [length Nat.eqb]. rewrite bind_run, clearOldPcaps_run.
  rewrite bind_run, broadcast_run. by rewrite Hnames.
Qed.

(** X10.  With at least one agent registered, [start] answers 200 and
    clears the last round: it unlinks each listed capture once and only
    files that are there (a store operation fails only on a missing file),
    afterwards the capture directory holds no [.pcap] file (raw, merged or
    filtered) and neither decoded record, and every other file, the
    persisted config included, is as before. *)
Theorem start_clears_round (env : Env) (st : State) (path : string) :
  containerNames st <> [] ->
  (exists resp, (start env st).1 = Ok resp /\ status resp = 200)
  /\ files (start env st).2 !! path
     = (if clearedByStart path then None else files st !! path)
  /\ files (start env st).2 !! configPath = files st !! configPath.
Proof.
  intros Hne. rewrite start_run by done. cbn [fst snd files].
  split; [by eexists|]. rewrite !clearedByStart_lookup. split; [done|].
  reflexivity.
Qed.

Lemma start_clears_round_witness :
  containerNames Scenario.stoppedOnce <> []
  /\ files (start (Scenario.env true true true) Scenario.stoppedOnce).2
       !! rawCapturePath "scan1" = None
  /\ files (start (Scenario.env true true true) Scenario.stoppedOnce).2
       !! configPath = Some "{}".
Proof.
  assert (containerNames Scenario.stoppedOnce <> []) as H by discriminate.
  split; [exact H|].
  pose proof (start_clears_round (Scenario.env true true true) Scenario.stoppedOnce
                (rawCapturePath "scan1") H) as (_ & Hraw & Hconfig).
  split; [exact Hraw | exact Hconfig].
Defined.

(** X11.  [start] reports one outcome per registered agent, in
    registration order, [success] exactly for the agents whose request
    resolved; failed requests, even of every agent, do not fail the
    operation and stop no other request. *)
Theorem start_reports_every_agent (env : Env) (st : State) :
  containerNames st <> [] ->
  (start env st).1
  = Ok (json 200
          [("message", Some (JStr "Start signal sent to all scan dockers."));
           ("results",
            Some (JArr (map (fun n => outcome n
                                        (if axios_get env (agentUrl n "start")
                                         then "success" else "failed"))
                          (containerNames st))))]).
Proof. intros Hne. by rewrite start_run. Qed.

Lemma start_reports_every_agent_witness :
  containerNames (mkState ∅ ["scan1"; "scan2"] []) <> []
  /\ (start (mkEnv (Scenario.tool true true true)
               (fun url => String.eqb url "http://scan2:3000/start")
               Scenario.parse Scenario.stringify)
        (mkState ∅ ["scan1"; "scan2"] [])).1
     = Ok (json 200
             [("message", Some (JStr "Start signal sent to all scan dockers."));
              ("results", Some (JArr [outcome "scan1" "failed";
                                      outcome "scan2" "success"]))]).
Proof.
  assert (containerNames (mkState ∅ ["scan1"; "scan2"] []) <> []) as H by discriminate.
  split; [exact H|].
  exact (start_reports_every_agent
           (mkEnv (Scenario.tool true true true)
              (fun url => String.eqb url "http://scan2:3000/start")
              Scenario.parse Scenario.stringify)
           (mkState ∅ ["scan1"; "scan2"] []) H).
Defined.

(** X12.  With no agent registered, [start] and [stop] are refused with
    status 400 before anything is done: the store, the registry and the log
    are exactly as before, nothing is cleared and no tool is run. *)
Theorem unregistered_requests_refused (env : Env) (st : State) :
  containerNames st = [] ->
  start env st
  = (Ok (mkResponse 400 (Text "No container names available to start.")), st)
  /\ stop env st
     = (Ok (mkResponse 400 (Text "No container names available to stop.")), st).
Proof.
  intros H. unfold start, stop. rewrite !bind_run, H. by split.
Qed.

Lemma unregistered_requests_refused_witness :
  containerNames Scenario.restarted = []
  /\ start (Scenario.env true true true) Scenario.restarted
     = (Ok (mkResponse 400 (Text "No container names available to start.")),
        Scenario.restarted).
Proof.
  split; [reflexivity|].
  exact (proj1 (unregistered_requests_refused (Scenario.env true true true)
                  Scenario.restarted eq_refl)).
Defined.

(** ** The merge step *)

Lemma words_mergecap (pcapFiles : list string) :
  exists rest,
    String.words (mergecapCommand mergedPcapPath pcapFiles) = "mergecap" :: "-w" :: rest.
Proof.
  eexists. unfold mergecapCommand, String.words.
  cbv -[Js.join]. reflexivity.
Qed.

Lemma exec_mergecap (env : Env) (pcapFiles : list string) (st : State) :
  exec env (mergecapCommand mergedPcapPath pcapFiles) st
  = (Ok (Error <$> (exec_tool env (mergecapCommand mergedPcapPath pcapFiles)
                      (files st)).1),
     mkState (exec_tool env (mergecapCommand mergedPcapPath pcapFiles) (files st)).2
       (containerNames st) (log st)).
Proof.
  unfold exec. destruct (words_mergecap pcapFiles) as [rest ->].
  by destruct (exec_tool env _ _).
Qed.

(** X13.  When there is something to merge, [mergePcaps] first deletes the
    stale merged capture and then runs the merge tool once, on the store
    without it; the step fails exactly when the tool reports an error, with
    the tool's message, and the store afterwards is the one the tool left.
    So a merged capture found after the step was written by this run. *)
Theorem mergePcaps_runs_tool_once (env : Env) (st : State) :
  pcapFilesOf pcapDir (readdirPure pcapDir (delete mergedPcapPath (files st))) <> [] ->
  (mergePcaps env pcapDir mergedPcapPath st).1
  = match (exec_tool env
             (mergecapCommand mergedPcapPath
                (pcapFilesOf pcapDir
                   (readdirPure pcapDir (delete mergedPcapPath (files st)))))
             (delete mergedPcapPath (files st))).1 with
    | None => Ok tt
    | Some msg => Throw (Error msg)
    end
  /\ files (mergePcaps env pcapDir mergedPcapPath st).2
     = (exec_tool env
          (mergecapCommand mergedPcapPath
             (pcapFilesOf pcapDir
                (readdirPure pcapDir (delete mergedPcapPath (files st)))))
          (delete mergedPcapPath (files st))).2.
Proof.
  intros Hne. unfold mergePcaps, rm_force, readdir, getFiles, setFiles.
  rewrite !bind_run. cbn [files containerNames log mret M_ret].
  destruct (pcapFilesOf pcapDir
              (readdirPure pcapDir (delete mergedPcapPath (files st))))
    as [|input inputs] eqn:Hinputs; [done|].
  cbn [length Nat.eqb]. rewrite bind_run, exec_mergecap. cbn [files].
  destruct (exec_tool env _ _) as [[msg|] fs']; rewrite bind_run, logEvent_run; done.
Qed.

Lemma mergePcaps_runs_tool_once_witness :
  pcapFilesOf pcapDir
    (readdirPure pcapDir (delete mergedPcapPath (files Scenario.stoppedOnce))) <> []
  /\ (mergePcaps (Scenario.env false true true) pcapDir mergedPcapPath
        Scenario.stoppedOnce).1
     = Throw (Error "mergecap: The file could not be opened")
  /\ files (mergePcaps (Scenario.env false true true) pcapDir mergedPcapPath
              Scenario.stoppedOnce).2 !! mergedPcapPath = None.
Proof.
  assert (pcapFilesOf pcapDir
            (readdirPure pcapDir (delete mergedPcapPath (files Scenario.stoppedOnce)))
          <> []) as H by (vm_compute; discriminate).
  split; [exact H|].
  destruct (mergePcaps_runs_tool_once (Scenario.env false true true)
              Scenario.stoppedOnce H) as [Hr Hf].
  split.
  - rewrite Hr. vm_compute. reflexivity.
  - rewrite Hf. vm_compute. reflexivity.
Defined.

(** ** The filter step *)

(** X14.  What [filterPcapAndJson] returns is consistent with the store it
    leaves: an [ok] result carries no error and the record that
    [filtered.json], as it is in the store afterwards, parses to; a [ko]
    result carries an error message and no record. *)
Theorem filterPcapAndJson_result_consistent
    (env : Env) (mergedPcapFile filterString outputDir : string)
    (st st' : State) (r : FilterResult) :
  filterPcapAndJson env mergedPcapFile filterString outputDir st = (Ok r, st') ->
  match fstatus r with
  | ok => exists data record,
            files st' !! path_join outputDir "filtered.json" = Some data
            /\ JSON_parse env data = Ok record
            /\ filteredJsonData r = Some record
            /\ errorMsg r = None
  | ko => filteredJsonData r = None /\ is_Some (errorMsg r)
  end.
Proof.
  unfold filterPcapAndJson, try_catch.
  match goal with |- context [match ?body st with _ => _ end] =>
    destruct (body st) as [[r0|e] st0] eqn:Hbody
  end.
  2:{ rewrite bind_run, logEvent_run. intros [= <- _]. simpl. eauto. }
  intros [= -> ->]. revert Hbody.
  rewrite bind_run. destruct (exec env _ st) as [[error|e] st1]; [|discriminate].
  rewrite bind_run, existsSync_run, bind_run, logEvent_run, bind_run.
  destruct error as [e|]; [discriminate|]. cbn [mret M_ret].
  rewrite bind_run.
  destruct (pcapToJson env _ _ _) as [[[]|e] st2]; [|discriminate].
  rewrite bind_run, existsSync_run. cbn [files].
  case_bool_decide as Hpresent.
  - destruct Hpresent as [data Hdata].
    unfold readFile, getFiles. rewrite !bind_run. rewrite Hdata. cbn [mret M_ret].
    rewrite bind_run. unfold liftR.
    destruct (JSON_parse env data) as [record|e] eqn:Hparse; [|discriminate].
    rewrite bind_run, logEvent_run. intros [= <- <-]. cbn [fstatus files].
    by exists data, record.
  - rewrite bind_run, logEvent_run. intros [= <- _]. simpl. eauto.
Qed.

Lemma filterPcapAndJson_result_consistent_witness :
  (filterPcapAndJson (Scenario.env true true true) mergedPcapPath "ip.addr == 10.0.0.1"
     pcapDir Scenario.merged).1
  = Ok (mkFilterResult ok (Some (JArr [JStr "[filtered(pkts1)]"])) None)
  /\ exists data record,
       files (filterPcapAndJson (Scenario.env true true true) mergedPcapPath
                "ip.addr == 10.0.0.1" pcapDir Scenario.merged).2
       !! path_join pcapDir "filtered.json" = Some data
       /\ JSON_parse (Scenario.env true true true) data = Ok record
       /\ Some (JArr [JStr "[filtered(pkts1)]"]) = Some record
       /\ (None : option string) = None.
Proof.
  assert ((filterPcapAndJson (Scenario.env true true true) mergedPcapPath
             "ip.addr == 10.0.0.1" pcapDir Scenario.merged).1
          = Ok (mkFilterResult ok (Some (JArr [JStr "[filtered(pkts1)]"])) None))
    as Hrun by (vm_compute; reflexivity).
  split; [exact Hrun|].
  exact (filterPcapAndJson_result_consistent _ _ _ _ _ _ _ (run_outcome _ _ Hrun)).
Defined.

(** ** The persisted config *)

Lemma getLatestConfig_run (env : Env) (st : State) :
  getLatestConfig env st
  = (match files st !! configPath with
     | None => Ok None
     | Some text =>
         match JSON_parse env text with
         | Ok config => Ok (Some config)
         | Throw e => Throw e
         end
     end, st).
Proof.
  unfold getLatestConfig. rewrite bind_run, existsSync_run.
  change (path_join pcapDir "config.json") with configPath.
  destruct (files st !! configPath) as [text|] eqn:Htext.
  - rewrite bool_decide_eq_true_2 by eauto. cbn [negb].
    unfold readFile, getFiles. rewrite !bind_run. rewrite Htext. cbn [mret M_ret].
    rewrite bind_run. unfold liftR. by destruct (JSON_parse env text).
  - rewrite bool_decide_eq_false_2; [done|]. by intros [? ?].
Qed.

(** X15.  The persisted config is the last one saved: after two saves,
    what [getLatestConfig] reads back is the second config, nothing of the
    first, provided the JSON text of the second parses back to it. *)
Theorem saved_config_read_back (env : Env) (first second : JsVal) (st : State) :
  JSON_parse env (JSON_stringify env second) = Ok second ->
  (getLatestConfig env (saveConfig env second (saveConfig env first st).2).2).1
  = Ok (Some second).
Proof.
  intros Hparse. rewrite getLatestConfig_run, !saveConfig_run.
  cbn [fst snd files]. by rewrite lookup_insert_eq, Hparse.
Qed.

Lemma saved_config_read_back_witness :
  JSON_parse (Scenario.env true true true)
    (JSON_stringify (Scenario.env true true true) (JObj [("ip", JStr "10.0.0.1")]))
  = Ok (JObj [("ip", JStr "10.0.0.1")])
  /\ (getLatestConfig (Scenario.env true true true)
        (saveConfig (Scenario.env true true true) (JObj [("ip", JStr "10.0.0.1")])
           (saveConfig (Scenario.env true true true) (JObj []) Scenario.captured).2).2).1
     = Ok (Some (JObj [("ip", JStr "10.0.0.1")])).
Proof.
  assert (JSON_parse (Scenario.env true true true)
            (JSON_stringify (Scenario.env true true true)
               (JObj [("ip", JStr "10.0.0.1")]))
          = Ok (JObj [("ip", JStr "10.0.0.1")])) as H by reflexivity.
  split; [exact H|].
  exact (saved_config_read_back (Scenario.env true true true) (JObj [])
           (JObj [("ip", JStr "10.0.0.1")]) Scenario.captured H).
Defined.

Lemma cleanConf_run (st : State) :
  cleanConf st
  = (Ok (json 200 [("message", Some (JStr "Config and filtered files cleaned."))]),
     mkState (delete filteredJsonPath
                (delete filteredPcapPath (delete configPath (files st))))
       (containerNames st) (log st)).
Proof.
  unfold cleanConf, try_catch. cbn [forEach].
  rewrite !bind_run, unlinkIfExists_run.
  rewrite !bind_run, unlinkIfExists_run.
  rewrite !bind_run, unlinkIfExists_run.
  reflexivity.
Qed.

(** X16.  A reset is idempotent: a second reset answers 200 again and
    changes nothing, and after a reset no config is read back, whatever was
    persisted before (a store operation fails only on a missing file, and
    the reset unlinks only files it found). *)
Theorem cleanConf_idempotent (env : Env) (st : State) :
  cleanConf (cleanConf st).2
  = (Ok (json 200 [("message", Some (JStr "Config and filtered files cleaned."))]),
     (cleanConf st).2)
  /\ getLatestConfig env (cleanConf st).2 = (Ok None, (cleanConf st).2).
Proof.
  rewrite getLatestConfig_run, !cleanConf_run. cbn [fst snd files containerNames log].
  split.
  - do 2 f_equal.
    rewrite (delete_id _ configPath)
      by (rewrite !lookup_delete_ne by paths_ne; apply lookup_delete_eq).
    rewrite (delete_id _ filteredPcapPath)
      by (rewrite lookup_delete_ne by paths_ne; apply lookup_delete_eq).
    rewrite (delete_id _ filteredJsonPath) by apply lookup_delete_eq.
    reflexivity.
  - rewrite !lookup_delete_ne by paths_ne. by rewrite lookup_delete_eq.
Qed.

(** X17.  A config submitted while no merged capture exists is saved, no
    tool is run and nothing else in the store changes, and the answer is
    422 "Configuration saved but filtering failed" without an error text:
    the filter status starts as [ko], so the branch that would confirm a
    plain save is never taken. *)
Theorem postConfig_before_first_merge (env : Env) (config : JsVal) (st : State) :
  truthy config = true ->
  files st !! mergedPcapPath = None ->
  postConfig env config st
  = (Ok (json 422 [("message", Some (JStr "Configuration saved but filtering failed"))]),
     mkState (<[configPath := JSON_stringify env config]> (files st))
       (containerNames st)
       (log st ++ [mkLogEntry "Filtering" (Some "Output: filtered.json") (Some false)])).
Proof.
  intros Ht Hnone. unfold postConfig, try_catch. rewrite Ht. cbn [negb].
  rewrite bind_run, saveConfig_run.
  change (path_join pcapDir "merged.pcap") with mergedPcapPath.
  rewrite bind_run, existsSync_run. cbn [files].
  rewrite bool_decide_eq_false_2
    by (rewrite lookup_insert_ne by paths_ne; rewrite Hnone; by intros [? ?]).
  rewrite bind_run. reflexivity.
Qed.

Lemma postConfig_before_first_merge_witness :
  truthy (JObj [("ip", JStr "10.0.0.1")]) = true
  /\ files Scenario.captured !! mergedPcapPath = None
  /\ (postConfig (Scenario.env true true true) (JObj [("ip", JStr "10.0.0.1")])
        Scenario.captured).1
     = Ok (json 422
             [("message", Some (JStr "Configuration saved but filtering failed"))]).
Proof.
  assert (files Scenario.captured !! mergedPcapPath = None) as H
    by (vm_compute; reflexivity).
  split; [reflexivity|]. split; [exact H|].
  by rewrite (postConfig_before_first_merge (Scenario.env true true true)
                (JObj [("ip", JStr "10.0.0.1")]) Scenario.captured eq_refl H).
Defined.

(** ** The capture agent *)

Lemma agent_step_rounds (port : option string) (ev : Agent.Event) (st : Agent.AgentState) :
  Agent.openCapture (Agent.effects st) = Some (Agent.tcpdumpProcess st) ->
  Agent.openCapture (Agent.effects (Agent.step port ev st).2)
  = Some (Agent.tcpdumpProcess (Agent.step port ev st).2).
Proof.
  intros Hinv. unfold Agent.openCapture in *.
  destruct ev as [error stdout stderr|execThrows|killThrows|error stdout stderr];
    cbn [Agent.step snd].
  - unfold Agent.hostnameRead. destruct error; [done|].
    destruct (Js.Boolean stderr); [done|]. cbn [Agent.effects Agent.tcpdumpProcess].
    rewrite fold_left_app, Hinv. by destruct (Agent.tcpdumpProcess st).
  - unfold Agent.start. destruct (Agent.tcpdumpProcess st) as [child|] eqn:Hh;
      [cbn [snd]; by rewrite Hh|].
    destruct execThrows; cbn [snd Agent.effects Agent.tcpdumpProcess];
      [by rewrite Hh|].
    rewrite fold_left_app, Hinv. reflexivity.
  - unfold Agent.stop. destruct (Agent.tcpdumpProcess st) as [child|] eqn:Hh;
      [|cbn [snd]; by rewrite Hh].
    destruct killThrows; cbn [snd Agent.effects Agent.tcpdumpProcess];
      [by rewrite Hh|].
    rewrite fold_left_app, Hinv. cbn [fold_left Agent.track].
    by rewrite Nat.eqb_refl.
  - done.
Qed.

(** X18.  Whatever requests and callbacks arrive, in whatever order, and
    whether or not [exec] and [kill] throw, the agent's captures come in
    rounds: a child is created only when none is open, the only signal sent
    is a SIGINT to the child of the open round, and the handle
    [tcpdumpProcess] is the child of the open round.  So the agent never
    has two captures it has not signalled. *)
Theorem agent_captures_in_rounds (port : option string) (evs : list Agent.Event) :
  Agent.openCapture (Agent.effects (Agent.run port evs Agent.initial))
  = Some (Agent.tcpdumpProcess (Agent.run port evs Agent.initial)).
Proof.
  assert (forall st,
             Agent.openCapture (Agent.effects st) = Some (Agent.tcpdumpProcess st) ->
             Agent.openCapture (Agent.effects (Agent.run port evs st))
             = Some (Agent.tcpdumpProcess (Agent.run port evs st))) as Hgen.
  { induction evs as [|ev evs IH]; intros st Hinv; [done|].
    cbn [Agent.run]. by apply IH, agent_step_rounds. }
  by apply Hgen.
Qed.

(** X19.  Once a capture is open, every start request is refused with
    400 until a stop request arrives: the callback of the tcpdump child
    does not clear the handle, so a capture that ended by itself still
    blocks a new one, and no child is created meanwhile. *)
Theorem agent_start_refused_until_stop
    (port : option string) (evs : list Agent.Event) (st : Agent.AgentState)
    (child : nat) :
  Agent.tcpdumpProcess st = Some child ->
  forallb (fun ev => negb (Agent.isStop ev)) evs = true ->
  Agent.tcpdumpProcess (Agent.run port evs st) = Some child
  /\ Agent.spawns (Agent.effects (Agent.run port evs st)) = Agent.spawns (Agent.effects st)
  /\ Forall (fun r => r = mkResponse 400 (Text "tcpdump is already running."))
       (Agent.responses port evs st).
Proof.
  revert st. induction evs as [|ev evs IH]; intros st Hh Hevs.
  { repeat split; [done|]. apply List.Forall_nil. }
  cbn [forallb] in Hevs. apply andb_prop in Hevs as [Hev Hevs].
  cbn [Agent.run Agent.responses].
  destruct ev as [error stdout stderr|execThrows|killThrows|error stdout stderr];
    [| | done |].
  - cbn [Agent.step fst snd].
    assert (Agent.tcpdumpProcess (Agent.hostnameRead error stdout stderr st) = Some child
            /\ Agent.spawns (Agent.effects (Agent.hostnameRead error stdout stderr st))
               = Agent.spawns (Agent.effects st)) as [Hh' Hs'].
    { unfold Agent.hostnameRead. destruct error; [done|].
      destruct (Js.Boolean stderr); [done|]. cbn [Agent.effects Agent.tcpdumpProcess].
      split; [done|]. unfold Agent.spawns. rewrite List.filter_app. cbn.
      by rewrite app_nil_r. }
    destruct (IH _ Hh' Hevs) as (H1 & H2 & H3). by rewrite H2.
  - cbn [Agent.step fst snd]. unfold Agent.start. rewrite Hh. cbn [fst snd].
    destruct (IH _ Hh Hevs) as (H1 & H2 & H3).
    repeat split; [done..|]. by apply List.Forall_cons.
  - cbn [Agent.step fst snd]. by apply IH.
Qed.

Lemma agent_start_refused_until_stop_witness :
  Agent.tcpdumpProcess (Agent.run None [Agent.GetStart false] Agent.initial) = Some 0%nat
  /\ Agent.responses None
       [Agent.TcpdumpExited true "" "tcpdump: eth0: No such device"; Agent.GetStart false]
       (Agent.run None [Agent.GetStart false] Agent.initial)
     = [mkResponse 400 (Text "tcpdump is already running.")].
Proof.
  assert (Agent.tcpdumpProcess (Agent.run None [Agent.GetStart false] Agent.initial)
          = Some 0%nat) as H by reflexivity.
  split; [exact H|].
  destruct (agent_start_refused_until_stop None
              [Agent.TcpdumpExited true "" "tcpdump: eth0: No such device";
               Agent.GetStart false]
              (Agent.run None [Agent.GetStart false] Agent.initial) 0%nat H eq_refl)
    as (_ & _ & Hr).
  vm_compute in Hr |- *. inversion Hr as [|r l Hr1 Hr2]. subst. reflexivity.
Defined.

Lemma hasSlash_append (a b : string) : hasSlash (a +:+ b) = hasSlash a || hasSlash b.
Proof.
  induction a as [|c a IH]; [done|].
  rewrite append_cons. cbn [hasSlash]. by rewrite IH, orb_assoc.
Qed.

Lemma length_append (a b : string) :
  String.length (a +:+ b) = (String.length a + String.length b)%nat.
Proof. induction a as [|c a IH]; [done|]. rewrite append_cons. simpl. by rewrite IH. Qed.

Lemma substring_whole (b : string) : substring 0 (String.length b) b = b.
Proof. induction b as [|c b IH]; [done|]. simpl. by rewrite IH. Qed.

Lemma substring_append (a b : string) :
  substring (String.length a) (String.length b) (a +:+ b) = b.
Proof.
  induction a as [|c a IH]; [apply substring_whole|].
  rewrite append_cons. exact IH.
Qed.

Lemma endsWith_append (a suffix : string) : Js.endsWith (a +:+ suffix) suffix = true.
Proof.
  unfold Js.endsWith. rewrite length_append.
  replace (String.length a + String.length suffix - String.length suffix)%nat
    with (String.length a) by lia.
  rewrite substring_append, String.eqb_refl, andb_true_r.
  apply Nat.leb_le. lia.
Qed.

Lemma append_inj_l (a b suffix : string) : a +:+ suffix = b +:+ suffix -> a = b.
Proof.
  revert b. induction a as [|x a IH]; intros [|y b] Heq; [done| | |].
  - apply (f_equal String.length) in Heq.
    rewrite !length_append in Heq. simpl in Heq. lia.
  - apply (f_equal String.length) in Heq.
    rewrite !length_append in Heq. simpl in Heq. lia.
  - rewrite !append_cons in Heq. injection Heq as -> Heq. f_equal. by apply IH.
Qed.

Lemma rawCapturePath_inj (name name' : string) :
  rawCapturePath name = rawCapturePath name' -> name = name'.
Proof.
  unfold rawCapturePath.
  intros Heq%(inj (String.append "/data/dumpfile_")). by apply append_inj_l in Heq.
Qed.

(** X20.  The agent and the coordinator agree on the capture file: the
    command a start request spawns writes, with [-w], to a file that the
    coordinator's merge takes as an input whenever it is in the store, for
    every container name without a slash (the empty name of an agent whose
    hostname is not read yet included); and agents with different names
    write to different files. *)
Theorem agent_capture_is_merge_input (port : option string) (st : Agent.AgentState) :
  Agent.tcpdumpProcess st = None ->
  hasSlash (Agent.containerName st) = false ->
  exists child file,
    Agent.effects (Agent.start port false st).2
    = Agent.effects st
      ++ [Agent.Spawn child
            ("tcpdump -v -s 0 dst port " +:+ Agent.tcpdumpPort port +:+ " -w " +:+ file)]
    /\ (forall fs : gmap string string,
          is_Some (fs !! file) ->
          file ∈ pcapFilesOf pcapDir (readdirPure pcapDir (delete mergedPcapPath fs)))
    /\ (forall other : Agent.AgentState,
          Agent.containerName other <> Agent.containerName st ->
          forall child',
            Agent.Spawn child'
              ("tcpdump -v -s 0 dst port " +:+ Agent.tcpdumpPort port +:+ " -w " +:+ file)
            ∉ Agent.effects (Agent.start port false
                               (Agent.mkAgent (Agent.containerName other) None [])).2).
Proof.
  intros Hh Hslash.
  exists (Agent.children (Agent.effects st)), (rawCapturePath (Agent.containerName st)).
  split; [|split].
  - unfold Agent.start. by rewrite Hh.
  - intros fs Hsome. apply merge_inputs.
    exists ("dumpfile_" +:+ Agent.containerName st +:+ ".pcap").
    split; [reflexivity|]. split; [done|]. split.
    { rewrite <- append_assoc. apply endsWith_append. }
    split; [discriminate|]. split; [done|].
    rewrite !hasSlash_append, Hslash. reflexivity.
  - intros other Hne child'. unfold Agent.start. cbn.
    rewrite list_elem_of_singleton. intros [= _ Heq].
    apply (inj (String.append "")), (inj (String.append (Agent.tcpdumpPort port))),
      (inj (String.append " -w ")) in Heq.
    by apply rawCapturePath_inj in Heq.
Qed.

Lemma agent_capture_is_merge_input_witness :
  Agent.tcpdumpProcess (Agent.run None [Agent.HostnameRead false "scan1 " ""] Agent.initial)
  = None
  /\ hasSlash (Agent.containerName
                 (Agent.run None [Agent.HostnameRead false "scan1 " ""] Agent.initial))
     = false
  /\ "/data/dumpfile_scan1.pcap"
     ∈ pcapFilesOf pcapDir
         (readdirPure pcapDir (delete mergedPcapPath (files Scenario.captured))).
Proof.
  split; [reflexivity|]. split; [reflexivity|].
  destruct (agent_capture_is_merge_input None
              (Agent.run None [Agent.HostnameRead false "scan1 " ""] Agent.initial)
              eq_refl eq_refl) as (child & file & Heff & Hmerge & _).
  vm_compute in Heff. injection Heff as _ <-.
  apply Hmerge. vm_compute. eauto.
Defined.

(** * Stop: failures of the pipeline against the environment *)

Lemma words_filterCommand (expression : string) :
  exists rest, String.words (filterCommand expression) = "tshark" :: rest.
Proof. eexists. unfold filterCommand, String.words. cbv. reflexivity. Qed.

Lemma exec_filterCommand (env : Env) (expression : string) (st : State) :
  exec env (filterCommand expression) st
  = (Ok (Error <$> (exec_tool env (filterCommand expression) (files st)).1),
     mkState (exec_tool env (filterCommand expression) (files st)).2
       (containerNames st) (log st)).
Proof.
  unfold exec. destruct (words_filterCommand expression) as [rest ->].
  by destruct (exec_tool env _ _).
Qed.

Lemma exec_decode_merged (env : Env) (st : State) :
  exec env (tsharkCommand mergedPcapPath outputJsonPath) st
  = (Ok (Error <$> (exec_tool env (tsharkCommand mergedPcapPath outputJsonPath)
                      (files st)).1),
     mkState (exec_tool env (tsharkCommand mergedPcapPath outputJsonPath) (files st)).2
       (containerNames st) (log st)).
Proof.
  unfold exec.
  replace (String.words (tsharkCommand mergedPcapPath outputJsonPath))
    with ["tshark"; "-r"; mergedPcapPath; "-T"; "json"; ">"; outputJsonPath]
    by (vm_compute; reflexivity).
  by destruct (exec_tool env _ _).
Qed.

(** The command of the filter step, as [exec] runs it. *)
Lemma exec_runFilter (env : Env) (expression : string) (st : State) :
  exec env
    (if Js.Boolean expression
     then "tshark -r " +:+ mergedPcapPath +:+ " -Y " +:+ Js.dquote +:+ expression
          +:+ Js.dquote +:+ " -w " +:+ path_join pcapDir "filtered.pcap"
     else "cp " +:+ mergedPcapPath +:+ " " +:+ path_join pcapDir "filtered.pcap") st
  = (Ok (Error <$> (runFilter env expression (files st)).1),
     mkState (runFilter env expression (files st)).2 (containerNames st) (log st)).
Proof.
  change (path_join pcapDir "filtered.pcap") with filteredPcapPath.
  unfold runFilter. destruct (Js.Boolean expression).
  - apply exec_filterCommand.
  - destruct (files st !! mergedPcapPath) as [data|] eqn:Hdata.
    + by rewrite (exec_cp env st data Hdata).
    + unfold exec.
      replace (String.words ("cp " +:+ mergedPcapPath +:+ " " +:+ filteredPcapPath))
        with ["cp"; mergedPcapPath; filteredPcapPath] by (vm_compute; reflexivity).
      rewrite Hdata. cbn [fst snd fmap option_fmap option_map]. by rewrite State_eta.
Qed.

Lemma mergePcaps_run (env : Env) (st : State) :
  mergeInputs (files st) <> [] ->
  mergePcaps env pcapDir mergedPcapPath st
  = (match (exec_tool env (mergecapCommand mergedPcapPath (mergeInputs (files st)))
              (delete mergedPcapPath (files st))).1 with
     | None => Ok tt
     | Some msg => Throw (Error msg)
     end,
     mkState (exec_tool env (mergecapCommand mergedPcapPath (mergeInputs (files st)))
                (delete mergedPcapPath (files st))).2
       (containerNames st)
       (log st ++ [mkLogEntry "Monitoring stopped"
                     (Some ("Command: "
                            +:+ mergecapCommand mergedPcapPath (mergeInputs (files st))))
                     (Some (bool_decide
                              ((exec_tool env
                                  (mergecapCommand mergedPcapPath (mergeInputs (files st)))
                                  (delete mergedPcapPath (files st))).1 = None)))])).
Proof.
  unfold mergeInputs. intros Hne. unfold mergePcaps, rm_force, readdir, getFiles, setFiles.
  rewrite !bind_run. cbn [files containerNames log mret M_ret].
  destruct (pcapFilesOf pcapDir (readdirPure pcapDir (delete mergedPcapPath (files st))))
    as [|input inputs] eqn:Hinputs; [done|].
  cbn [length Nat.eqb]. rewrite bind_run, exec_mergecap. cbn [files containerNames log].
  destruct (exec_tool env _ _) as [[msg|] fs']; rewrite bind_run, logEvent_run; done.
Qed.

Lemma pcapToJson_merged_run (env : Env) (st : State) :
  pcapToJson env mergedPcapPath outputJsonPath st
  = (match (exec_tool env (tsharkCommand mergedPcapPath outputJsonPath) (files st)).1 with
     | None => Ok tt
     | Some msg => Throw (Error msg)
     end,
     mkState (exec_tool env (tsharkCommand mergedPcapPath outputJsonPath) (files st)).2
       (containerNames st)
       (log (pcapToJson env mergedPcapPath outputJsonPath st).2)).
Proof.
  unfold pcapToJson. rewrite bind_run, exec_decode_merged.
  rewrite bind_run, existsSync_run, bind_run, logEvent_run.
  by destruct (exec_tool env _ _) as [[msg|] fs'].
Qed.

Lemma pcapToJson_filtered_run (env : Env) (st : State) :
  pcapToJson env filteredPcapPath filteredJsonPath st
  = (match (exec_tool env (tsharkCommand filteredPcapPath filteredJsonPath) (files st)).1 with
     | None => Ok tt
     | Some msg => Throw (Error msg)
     end,
     mkState (exec_tool env (tsharkCommand filteredPcapPath filteredJsonPath) (files st)).2
       (containerNames st)
       (log (pcapToJson env filteredPcapPath filteredJsonPath st).2)).
Proof.
  unfold pcapToJson. rewrite bind_run, exec_decode_filtered.
  rewrite bind_run, existsSync_run, bind_run, logEvent_run.
  by destruct (exec_tool env _ _) as [[msg|] fs'].
Qed.

Lemma filterPcapAndJson_fails (env : Env) (expression : string) (st : State) (msg : string) :
  filterFails env expression (files st) msg ->
  (filterPcapAndJson env mergedPcapPath expression pcapDir st).1
  = Ok (mkFilterResult ko None (Some msg)).
Proof.
  intros Hfails. unfold filterPcapAndJson, try_catch.
  rewrite bind_run, exec_runFilter.
  rewrite bind_run, existsSync_run, bind_run, logEvent_run.
  cbn [files containerNames log].
  change (path_join pcapDir "filtered.pcap") with filteredPcapPath.
  change (path_join pcapDir "filtered.json") with filteredJsonPath.
  destruct Hfails as [msg fs3 Hrun|fs3 msg fs4 Hrun Hdecode|fs3 fs4 Hrun Hdecode Hnone
                     |fs3 fs4 data e Hrun Hdecode Hdata Hparse];
    rewrite Hrun; cbn [fst snd fmap option_fmap option_map]; rewrite bind_run;
    [reflexivity|..];
    cbn [mret M_ret]; rewrite bind_run, pcapToJson_filtered_run; cbn [files];
    rewrite Hdecode; cbn [fst snd]; [reflexivity|..];
    rewrite bind_run, existsSync_run; cbn [files].
  - rewrite Hnone, bool_decide_eq_false_2 by (by intros [? ?]). reflexivity.
  - rewrite Hdata, bool_decide_eq_true_2 by eauto.
    unfold readFile, getFiles. rewrite !bind_run. cbn [files]. rewrite Hdata.
    cbn [mret M_ret]. rewrite bind_run. unfold liftR. rewrite Hparse. reflexivity.
Qed.

(** C1, amended.  For every stop with at least one registered agent: when
    there is nothing to merge or the merge tool reports an error, and
    likewise when the merge succeeds and the decoder of the merged capture
    reports an error, the operation fails with that error (status 500) and
    the per-agent outcomes are not returned; when merge and decode succeed,
    the persisted config and the decoded record are read and the config
    compiles, a failure of the filter step (the filter command or the
    decoder of the filtered capture reports an error, or the filtered record
    is missing or does not parse) is reported as a degraded success: status
    200 with the per-agent outcomes, the unfiltered decoded record, the
    filter status [ko] and the filter error. *)
Theorem stop_failure_reporting (env : Env) (st : State) (failure : PipelineFailure) :
  containerNames st <> [] ->
  stopFails env st failure ->
  (stop env st).1 = Ok (reported env st failure).
Proof.
  intros Hne Hfails. rewrite stop_run by done.
  set (st0 := mkState (files st) (containerNames st) _).
  assert (files st0 = files st) as Hfiles by reflexivity.
  unfold try_catch, stopTry. rewrite bind_run.
  destruct Hfails as [Hnone|msg fs1 Hinputs Hmerge|fs1 msg fs2 Hinputs Hmerge Hdecode
                     |fs1 fs2 text config expression jsonData record msg Hinputs Hmerge
                        Hdecode Htext Hconfig Htruthy Hcompile Hjson Hrecord Hfilter].
  - rewrite mergePcaps_nothing by (by rewrite Hfiles). reflexivity.
  - rewrite mergePcaps_run by (by rewrite Hfiles). rewrite Hfiles, Hmerge. reflexivity.
  - rewrite mergePcaps_run by (by rewrite Hfiles). rewrite Hfiles, Hmerge. cbn [fst snd].
    unfold decodeMerged. rewrite !bind_run, pcapToJson_merged_run. cbn [files].
    rewrite Hdecode. reflexivity.
  - rewrite mergePcaps_run by (by rewrite Hfiles). rewrite Hfiles, Hmerge. cbn [fst snd].
    unfold decodeMerged. rewrite !bind_run, pcapToJson_merged_run. cbn [files].
    rewrite Hdecode. cbn [fst snd].
    rewrite bind_run, getLatestConfig_run. cbn [files]. rewrite Htext, Hconfig.
    unfold readFile, getFiles. rewrite !bind_run. cbn [files]. rewrite Hjson.
    cbn [mret M_ret fst snd]. unfold filterIfConfigured. rewrite Htruthy.
    rewrite !bind_run. unfold liftR at 1. rewrite Hcompile. rewrite !bind_run.
    match goal with |- context [filterPcapAndJson env mergedPcapPath expression pcapDir ?s] =>
      pose proof (filterPcapAndJson_fails env expression s msg Hfilter) as Hko;
      destruct (filterPcapAndJson env mergedPcapPath expression pcapDir s) as [r st4]
    end.
    cbn [fst] in Hko. subst r. cbn [mret M_ret].
    unfold stopResponse. rewrite bind_run, logEvent_run. cbn [mbind option_bind filteredJsonData].
    rewrite bind_run. unfold orParse, liftR. rewrite Hrecord. reflexivity.
Qed.

Lemma stop_failure_reporting_witness :
  containerNames Scenario.capturedWithConfig <> []
  /\ stopFails (Scenario.env true true false) Scenario.capturedWithConfig
       (FilterFailed (JArr [JStr "[pkts1]"])
          "Filtering failed: tshark: Invalid display filter")
  /\ (stop (Scenario.env true true false) Scenario.capturedWithConfig).1
     = Ok (json 200
             [("message", Some (JStr "Stop signal sent to all scan dockers."));
              ("results", Some (JArr [outcome "scan1" "success"]));
              ("pcapData", Some (JArr [JStr "[pkts1]"]));
              ("filterStatus", Some (JStr "ko"));
              ("error", Some (JStr "Filtering failed: tshark: Invalid display filter"))]).
Proof.
  assert (containerNames Scenario.capturedWithConfig <> []) as Hne by discriminate.
  pose (fs1 := (exec_tool (Scenario.env true true false)
                  (mergecapCommand mergedPcapPath
                     (mergeInputs (files Scenario.capturedWithConfig)))
                  (delete mergedPcapPath (files Scenario.capturedWithConfig))).2).
  pose (fs2 := (exec_tool (Scenario.env true true false)
                  (tsharkCommand mergedPcapPath outputJsonPath) fs1).2).
  assert (stopFails (Scenario.env true true false) Scenario.capturedWithConfig
            (FilterFailed (JArr [JStr "[pkts1]"])
               "Filtering failed: tshark: Invalid display filter")) as Hfails.
  { apply (filter_step_fails _ _ fs1 fs2 "{ip}" (JObj [("ip", JStr "10.0.0.1")])
             "(ip.addr == 10.0.0.1)" "[pkts1]").
    - vm_compute. discriminate.
    - apply run_outcome. vm_compute. reflexivity.
    - apply run_outcome. vm_compute. reflexivity.
    - vm_compute. reflexivity.
    - vm_compute. reflexivity.
    - vm_compute. reflexivity.
    - vm_compute. reflexivity.
    - vm_compute. reflexivity.
    - vm_compute. reflexivity.
    - apply (filter_tool_fails _ _ _ "tshark: Invalid display filter"
               (runFilter (Scenario.env true true false) "(ip.addr == 10.0.0.1)" fs2).2).
      apply run_outcome. vm_compute. reflexivity. }
  split; [exact Hne|]. split; [exact Hfails|].
  rewrite (stop_failure_reporting _ _ _ Hne Hfails). vm_compute. reflexivity.
Defined.

(** The other failures occur too: a merge tool that reports an error, and
    a decoder that reports one on the merged capture. *)
Example stop_merge_tool_fails :
  stopFails (Scenario.env false true true) Scenario.captured
    (MergeFailed "mergecap: The file could not be opened").
Proof.
  apply (merge_tool_fails _ _ _
           (exec_tool (Scenario.env false true true)
              (mergecapCommand mergedPcapPath (mergeInputs (files Scenario.captured)))
              (delete mergedPcapPath (files Scenario.captured))).2);
    [vm_compute; discriminate | apply run_outcome; vm_compute; reflexivity].
Qed.

Example stop_merged_decode_fails :
  stopFails (Scenario.env true false true) Scenario.captured
    (DecodeFailed "tshark: The file could not be decoded").
Proof.
  pose (fs1 := (exec_tool (Scenario.env true false true)
                  (mergecapCommand mergedPcapPath (mergeInputs (files Scenario.captured)))
                  (delete mergedPcapPath (files Scenario.captured))).2).
  apply (merged_decode_fails _ _ fs1 _
           (exec_tool (Scenario.env true false true)
              (tsharkCommand mergedPcapPath outputJsonPath) fs1).2);
    [vm_compute; discriminate | apply run_outcome; vm_compute; reflexivity
    | apply run_outcome; vm_compute; reflexivity].
Qed.
